(** * pixano-elements, graphics-2d: the segmentation mask editor

    A shallow embedding of the panoptic-segmentation editor of
    [packages/graphics-2d/src]: the element [Segmentation]
    (pxn-segmentation) and the mask controllers (controller-mask.ts).

    The element and its controllers share one [GraphicMask], one
    [_selectedId] cell and one [_targetClass] cell (the controllers are
    built from [{...this}]); the embedding keeps them in a single
    [Editor] record that every handler reads and returns.

    [GraphicMask] (graphics.ts, graphic-mask.ts) and the helpers of
    utils-mask.ts are other modules of the package.  They are modelled
    from the specification of the mask engine; each such definition says
    so in its comment.  Numbers are [Z]; JavaScript [Set]s of numbers are
    [gset Z] and the class [Map] is a [gmap]. *)

From Stdlib Require Import ZArith List String Ascii Lia Bool QArith.
From stdpp Require Import base gmap sets list strings relations.

Local Open Scope Z_scope.

(** ** Results of calls that may throw *)

Inductive Error : Type :=
| TypeError      (* property read on [undefined] or [null] *)
| Exhausted      (* no instance number left *)
| SizeMismatch   (* raster of the wrong length *)
| InvalidFormat. (* text that is not base64 *)

(** The outcome of a handler: the state it leaves, or the error it
    throws; what a throwing handler had already changed is not kept. *)
Inductive Result (A : Type) : Type :=
| Ok (a : A)
| Throw (e : Error).
Arguments Ok {A} a.
Arguments Throw {A} e.

Definition bind {A B} (r : Result A) (k : A → Result B) : Result B :=
  match r with
  | Ok a => k a
  | Throw e => Throw e
  end.

Notation "'do' x <- r ; k" := (bind r (fun x => k))
  (at level 10, x pattern, r at level 100, k at level 200).

(** ** utils-mask.ts *)

(** An identity is the array [[id1, id2, cls]] read from a pixel. *)
Definition Identity : Type := Z * Z * Z.

Definition idLow (id : Identity) : Z := id.1.1.
Definition idHigh (id : Identity) : Z := id.1.2.
Definition idClass (id : Identity) : Z := id.2.

Definition background : Identity := (0, 0, 0).

(** Modelled from the spec: [fuseId] of utils-mask.ts, "a single
    non-negative integer bijectively derived from an Identity (e.g.
    classId*65536 + instanceHigh*256 + instanceLow)". *)
Definition fuseId (id : Identity) : Z :=
  idClass id * 65536 + idHigh id * 256 + idLow id.

(** Modelled from the spec: [unfuseId] of utils-mask.ts, the inverse of
    [fuseId]. *)
Definition unfuseId (k : Z) : Identity :=
  (k mod 256, (k / 256) mod 256, k / 65536).

(** Modelled from the spec: [arraysMatch] of utils-mask.ts, element-wise
    equality of two identities ([equalsBackground] when the second one is
    [[0,0,0]]). *)
Definition arraysMatch (a b : Identity) : bool :=
  (idLow a =? idLow b) && (idHigh a =? idHigh b) && (idClass a =? idClass b).

Definition Point : Type := Z * Z.

(** Modelled from the spec: [convertIndexToDict] of utils-mask.ts.  A
    contour stores its vertices as indices of the corner lattice, whose
    rows hold [stride = width + 1] corners; the call sites pass that
    stride and get points [{x, y}] back. *)
Definition convertIndexToDict (points : list Z) (stride : Z) : list Point :=
  map (fun i => (i mod stride, i / stride)) points.

(** [[xMin, yMin, xMax, yMax]], or [undefined]. *)
Definition Extrema : Type := Z * Z * Z * Z.

(** Modelled from the spec: [getPolygonExtrema] of utils-mask.ts, the
    bounding box of a list of vertices (of its first vertex when there is
    one only). *)
Definition getPolygonExtrema (vs : list Point) : option Extrema :=
  match vs with
  | [] => None
  | (x0, y0) :: rest =>
      Some (fold_left
              (fun '(xm, ym, xM, yM) '(x, y) =>
                 (Z.min xm x, Z.min ym y, Z.max xM x, Z.max yM y))
              rest (x0, y0, x0, y0))
  end.

(** ** GraphicMask *)

(** One pixel of the raster: channel layout [idLow, idHigh, classId,
    reserved]. *)
Record Pixel : Type := mkPixel {
  ch0 : Z;
  ch1 : Z;
  ch2 : Z;
  ch3 : Z
}.

Definition pixelIdentity (p : Pixel) : Identity := (ch0 p, ch1 p, ch2 p).

Definition withIdentity (p : Pixel) (id : Identity) : Pixel :=
  mkPixel (idLow id) (idHigh id) (idClass id) (ch3 p).

Definition zeroPixel : Pixel := mkPixel 0 0 0 0.

(** Modelled from the spec: the Mask Buffer.  [canvasWidth] and
    [canvasHeight] are [canvas.width] and [canvas.height]; [pixels] is the
    raster in row-major order; [clsMap] maps a class to
    [[r, g, b, isInstance]]; [fusedIds] is the set of known fused ids and
    [lockedInstances] the set of locked ones. *)
Record GraphicMask : Type := mkMask {
  canvasWidth : Z;
  canvasHeight : Z;
  pixels : list Pixel;
  clsMap : gmap Z (Z * Z * Z * Z);
  fusedIds : gset Z;
  lockedInstances : gset Z
}.

Definition withPixels (m : GraphicMask) (ps : list Pixel) : GraphicMask :=
  mkMask (canvasWidth m) (canvasHeight m) ps (clsMap m) (fusedIds m)
         (lockedInstances m).

Definition withFusedIds (m : GraphicMask) (s : gset Z) : GraphicMask :=
  mkMask (canvasWidth m) (canvasHeight m) (pixels m) (clsMap m) s
         (lockedInstances m).

Definition withLocked (m : GraphicMask) (s : gset Z) : GraphicMask :=
  mkMask (canvasWidth m) (canvasHeight m) (pixels m) (clsMap m) (fusedIds m) s.

(** Modelled from the spec: [GraphicMask.pixelId(idx)], the identity of
    the pixel of linear index [idx]; nothing outside the raster. *)
Definition pixelId (m : GraphicMask) (idx : Z) : option Identity :=
  if idx <? 0 then None else pixelIdentity <$> pixels m !! Z.to_nat idx.

(** The identity at column [x], row [y] of the raster,
    [pixelId(x + y * canvas.width)]; nothing outside the raster. *)
Definition pixelAt (m : GraphicMask) (x y : Z) : option Identity :=
  if (0 <=? x) && (x <? canvasWidth m) && (0 <=? y) && (y <? canvasHeight m)
  then pixelId m (x + y * canvasWidth m) else None.

(** Modelled from the spec: [GraphicMask.empty(w, h)] "allocates a
    zero-filled raster of given size; clears knownIds/lockedIds". *)
Definition empty (w h : Z) (m : GraphicMask) : GraphicMask :=
  mkMask w h (replicate (Z.to_nat (w * h)) zeroPixel) (clsMap m) ∅ ∅.

Definition isLocked (m : GraphicMask) (id : Identity) : bool :=
  bool_decide (fuseId id ∈ lockedInstances m).

Inductive FillType : Type := FillAdd | FillRemove.

(** Modelled from the spec: the write rule of the Raster Painter.  "If
    fillMode == add, write targetIdentity unless the pixel's current
    identity is locked; if fillMode == remove, clear the pixel to
    background (0,0,0) only if its current identity equals targetIdentity
    and is not locked."  [None] when the pixel is left alone.  The
    identity is written as it is given: the range check of the codec is
    left out, identities are taken to fit their bytes. *)
Definition writeRule (m : GraphicMask) (target : Identity) (ft : FillType)
    (p : Pixel) : option Pixel :=
  match ft with
  | FillAdd =>
      if isLocked m (pixelIdentity p) then None
      else Some (withIdentity p target)
  | FillRemove =>
      if arraysMatch (pixelIdentity p) target
         && negb (isLocked m (pixelIdentity p))
      then Some (withIdentity p background)
      else None
  end.

(** Column and row of the pixel of linear index [i]. *)
Definition colOf (m : GraphicMask) (i : nat) : Z := Z.of_nat i mod canvasWidth m.
Definition rowOf (m : GraphicMask) (i : nat) : Z := Z.of_nat i / canvasWidth m.

(** The pixels a paint writes: those covered by the shape on which the
    write rule fires. *)
Definition paintedPixel (cov : Z → Z → bool) (m : GraphicMask)
    (target : Identity) (ft : FillType) (i : nat) (p : Pixel) : option Pixel :=
  if cov (colOf m i) (rowOf m i) then writeRule m target ft p else None.

(** Modelled from the spec: what both paint operations do once the
    covered pixels are known.  Every covered pixel of the raster goes
    through the write rule, and the target's fused id joins the known ids
    "whenever at least one pixel was written". *)
Definition paintWith (cov : Z → Z → bool) (m : GraphicMask)
    (target : Identity) (ft : FillType) : GraphicMask :=
  let written := imap (paintedPixel cov m target ft) (pixels m) in
  let ps := zip_with (fun p w => default p w) (pixels m) written in
  let known :=
    if existsb (fun w => bool_decide (is_Some w)) written
    then {[ fuseId target ]} ∪ fusedIds m
    else fusedIds m in
  mkMask (canvasWidth m) (canvasHeight m) ps (clsMap m) known
         (lockedInstances m).

(** Does the edge from [a] to [b] cross the horizontal half-line that
    starts at the centre of pixel [(x, y)] and runs to the right?
    Coordinates are doubled, so that the centre [(x + 1/2, y + 1/2)] is the
    lattice point [(2x + 1, 2y + 1)]. *)
Definition crossesRay (x y : Z) (a b : Point) : bool :=
  let '(ax, ay) := a in
  let '(bx, by_) := b in
  let cx := 2 * x + 1 in
  let cy := 2 * y + 1 in
  if Bool.eqb (cy <? 2 * ay) (cy <? 2 * by_) then false
  else if 0 <? by_ - ay
       then (cx - 2 * ax) * (by_ - ay) <? (cy - 2 * ay) * (bx - ax)
       else (cy - 2 * ay) * (bx - ax) <? (cx - 2 * ax) * (by_ - ay).

(** The edges of a closed polygon: each vertex to the next, the last one
    back to the first. *)
Definition polygonEdges (vs : list Point) : list (Point * Point) :=
  match vs with
  | [] => []
  | v0 :: rest => zip vs (rest ++ [v0])
  end.

(** Even-odd rule at the centre of pixel [(x, y)]. *)
Definition isInside (vs : list Point) (x y : Z) : bool :=
  fold_right (fun '(a, b) acc => xorb (crossesRay x y a b) acc) false
             (polygonEdges vs).

Definition inExtrema (e : option Extrema) (x y : Z) : bool :=
  match e with
  | None => false
  | Some (xm, ym, xM, yM) => (xm <=? x) && (x <=? xM) && (ym <=? y) && (y <=? yM)
  end.

(** Modelled from the spec: the pixels [paintPolygon] covers, "the polygon
    interior using a scanline fill with the [...] even-odd [rule] over its
    bounding box only"; "degenerate polygons (<3 vertices, or zero area)
    are a no-op". *)
Definition polygonCovers (vs : list Point) (x y : Z) : bool :=
  (3 <=? Z.of_nat (length vs))
  && inExtrema (getPolygonExtrema vs) x y
  && isInside vs x y.

(** Modelled from the spec: [GraphicMask.updateByPolygon(polygon, id,
    fillType)], the spec's [paintPolygon]. *)
Definition updateByPolygon (vs : list Point) (target : Identity)
    (ft : FillType) (m : GraphicMask) : GraphicMask :=
  paintWith (polygonCovers vs) m target ft.

(** Modelled from the spec: the pixels [paintStampInBox] covers.  "For
    every cell of stampMask set to 1, maps it to the corresponding pixel
    inside box".  The stamp is the brush's [roiMatrix]: one row after the
    other, a row holding [xMax - xMin] cells. *)
Definition stampCovers (stamp : list bool) (box : Extrema) (x y : Z) : bool :=
  let '(xm, ym, xM, yM) := box in
  (xm <=? x) && (x <? xM) && (ym <=? y) && (y <? yM)
  && default false (stamp !! Z.to_nat ((x - xm) + (xM - xm) * (y - ym))).

(** Modelled from the spec: [GraphicMask.updateByMaskInRoi(mask, box, id,
    fillType)], the spec's [paintStampInBox]; cells that fall outside the
    raster are dropped ("clamped to buffer bounds"). *)
Definition updateByMaskInRoi (stamp : list bool) (box : Extrema)
    (target : Identity) (ft : FillType) (m : GraphicMask) : GraphicMask :=
  paintWith (stampCovers stamp box) m target ft.

(** Modelled from the spec: [GraphicMask.replaceValue(oldId, newId)],
    "bulk recolor of every pixel matching oldId to newId". *)
Definition replaceValue (oldId newId : Identity) (m : GraphicMask) : GraphicMask :=
  withPixels m
    (map (fun p => if arraysMatch (pixelIdentity p) oldId
                   then withIdentity p newId else p)
         (pixels m)).

Definition instanceNumber (id : Identity) : Z := idHigh id * 256 + idLow id.

(** Modelled from the spec: [GraphicMask.getNextId()], the Id Allocator:
    "the smallest unused 16-bit instance number not already associated
    with any identity" of the known or locked ids, as [[low, high]];
    "fails with Exhausted if all 65536 values are in use". *)
Definition getNextId (m : GraphicMask) : Result (Z * Z) :=
  let used : gset Z :=
    set_map (fun k => instanceNumber (unfuseId k))
            (fusedIds m ∪ lockedInstances m) in
  (* the smallest unused number is at most the number of used ones *)
  match List.find (fun n => bool_decide (n ∉ used))
                  (seqZ 0 (Z.of_nat (size used) + 1)) with
  | Some n => if n <? 65536 then Ok (n mod 256, n / 256) else Throw Exhausted
  | None => Throw Exhausted
  end.

(** *** The contour extractor *)

Inductive ContourType : Type := External | Internal.

(** A contour: its [type] and its [points], indices of the corner lattice
    of [canvas.width + 1] columns. *)
Record Contour : Type := mkContour {
  points : list Z;
  ctype : ContourType
}.

Record Blob : Type := mkBlob {
  contours : list Contour;
  nbPixels : Z
}.

Definition pointEqb (p q : Point) : bool := (p.1 =? q.1) && (p.2 =? q.2).

Definition Edge : Type := Point * Point.

Definition edgeEqb (e f : Edge) : bool := pointEqb e.1 f.1 && pointEqb e.2 f.2.

Definition adjacent4 (p q : Point) : bool :=
  Z.abs (p.1 - q.1) + Z.abs (p.2 - q.2) =? 1.

(** The scan region: the whole raster, or the box clamped to it. *)
Definition inScanRegion (m : GraphicMask) (extrema : option Extrema)
    (x y : Z) : bool :=
  (0 <=? x) && (x <? canvasWidth m) && (0 <=? y) && (y <? canvasHeight m)
  && match extrema with
     | None => true
     | Some _ => inExtrema extrema x y
     end.

(** The pixels of the scan region that hold [target], in scan order. *)
Definition matchingPixels (m : GraphicMask) (target : Identity)
    (extrema : option Extrema) : list Point :=
  omap (fun '(i, p) =>
          let x := colOf m i in
          let y := rowOf m i in
          if inScanRegion m extrema x y && arraysMatch (pixelIdentity p) target
          then Some (x, y) else None)
       (imap (fun i p => (i, p)) (pixels m)).

(** Grows [comp] by the pixels of [rest] that touch it by a side, until
    none does. *)
Fixpoint growComponent (fuel : nat) (comp rest : list Point)
    : list Point * list Point :=
  match fuel with
  | O => (comp, rest)
  | S fuel' =>
      let near := List.filter (fun q => existsb (adjacent4 q) comp) rest in
      let far := List.filter (fun q => negb (existsb (adjacent4 q) comp)) rest in
      match near with
      | [] => (comp, rest)
      | _ :: _ => growComponent fuel' (comp ++ near) far
      end
  end.

(** Connected-component labelling with 4-connectivity. *)
Fixpoint components (fuel : nat) (pts : list Point) : list (list Point) :=
  match fuel, pts with
  | S fuel', p :: rest =>
      let '(comp, rest') := growComponent (length rest) [p] rest in
      comp :: components fuel' rest'
  | _, _ => []
  end.

Definition memPoint (p : Point) (c : list Point) : bool := existsb (pointEqb p) c.

(** The unit edges between a pixel of the component and a pixel outside
    it, at corner resolution, directed so that the component lies on
    their right: outer boundaries run clockwise on screen, holes
    counter-clockwise. *)
Definition pixelEdges (c : list Point) (p : Point) : list Edge :=
  let '(x, y) := p in
  (if memPoint (x, y - 1) c then [] else [((x, y), (x + 1, y))])
  ++ (if memPoint (x + 1, y) c then [] else [((x + 1, y), (x + 1, y + 1))])
  ++ (if memPoint (x, y + 1) c then [] else [((x + 1, y + 1), (x, y + 1))])
  ++ (if memPoint (x - 1, y) c then [] else [((x, y + 1), (x, y))]).

Definition boundaryEdges (c : list Point) : list Edge :=
  flat_map (pixelEdges c) c.

Definition edgeDir (e : Edge) : Point := (e.2.1 - e.1.1, e.2.2 - e.1.2).

Definition turnRight (d : Point) : Point := (- d.2, d.1).
Definition turnLeft (d : Point) : Point := (d.2, - d.1).

(** The edge that follows [cur] on its boundary: among the edges that
    start where [cur] ends, the one that stays around the same pixel
    (right turn) first, so that pixels touching by a corner only are not
    joined. *)
Definition nextEdge (cur : Edge) (pool : list Edge) : option Edge :=
  let cands := List.filter (fun e => pointEqb e.1 cur.2) pool in
  let heading d := List.find (fun e => pointEqb (edgeDir e) d) cands in
  match heading (turnRight (edgeDir cur)) with
  | Some e => Some e
  | None =>
      match heading (edgeDir cur) with
      | Some e => Some e
      | None => heading (turnLeft (edgeDir cur))
      end
  end.

Definition removeEdge (e : Edge) (pool : list Edge) : list Edge :=
  List.filter (fun f => negb (edgeEqb e f)) pool.

(** Follows the boundary from [cur] until it is back on [e0]. *)
Fixpoint traceLoop (fuel : nat) (e0 cur : Edge) (pool acc : list Edge)
    : list Edge * list Edge :=
  match fuel with
  | O => (rev acc, pool)
  | S fuel' =>
      match nextEdge cur (e0 :: pool) with
      | None => (rev acc, pool)
      | Some e =>
          if edgeEqb e e0 then (rev acc, pool)
          else traceLoop fuel' e0 e (removeEdge e pool) (e :: acc)
      end
  end.

Fixpoint boundaryLoops (fuel : nat) (edges : list Edge) : list (list Edge) :=
  match fuel, edges with
  | S fuel', e0 :: pool =>
      let '(lp, pool') := traceLoop (length pool) e0 e0 pool [e0] in
      lp :: boundaryLoops fuel' pool'
  | _, _ => []
  end.

(** The corners of a boundary: the start of every edge whose direction
    differs from that of the edge before it (colinear points merged). *)
Definition loopVertices (lp : list Edge) : list Point :=
  match lp with
  | [] => []
  | e :: _ =>
      flat_map (fun '(before, here) =>
                  if pointEqb (edgeDir before) (edgeDir here) then []
                  else [here.1])
               (zip (List.last lp e :: removelast lp) lp)
  end.

(** Twice the signed area of a closed polygon; positive when it runs
    clockwise on screen. *)
Definition signedArea2 (vs : list Point) : Z :=
  fold_right (fun '((ax, ay), (bx, by_)) acc => ax * by_ - bx * ay + acc) 0
             (polygonEdges vs).

Definition traceContour (stride : Z) (lp : list Edge) : Contour :=
  let vs := loopVertices lp in
  mkContour (map (fun '(x, y) => x + y * stride) vs)
            (if 0 <? signedArea2 vs then External else Internal).

Definition blobOfComponent (stride : Z) (c : list Point) : Blob :=
  let edges := boundaryEdges c in
  mkBlob (map (traceContour stride) (boundaryLoops (length edges) edges))
         (Z.of_nat (length c)).

(** Modelled from the spec: [GraphicMask.getBlobs(targetId, extrema?)],
    the Contour Extractor.  Connected-component labelling of the scan
    region with 4-connectivity on identities, boundary tracing at corner
    resolution with colinear points merged, contours classified by the
    sign of their area; the background is never contoured.  The result is
    the [Map] from labels to blobs, in insertion order. *)
Definition getBlobs (m : GraphicMask) (target : Identity)
    (extrema : option Extrema) : list (Z * Blob) :=
  if arraysMatch target background then []
  else
    let pts := matchingPixels m target extrema in
    imap (fun i c => (Z.of_nat i + 1, blobOfComponent (canvasWidth m + 1) c))
         (components (length pts) pts).

(** *** Persistence of the raster *)

(** The raster as bytes: four channels per pixel, pixel after pixel. *)
Definition rasterBytes (m : GraphicMask) : list Z :=
  flat_map (fun p => [ch0 p; ch1 p; ch2 p; ch3 p]) (pixels m).

Fixpoint pixelsOfBytes (bs : list Z) : list Pixel :=
  match bs with
  | a :: b :: c :: d :: rest => mkPixel a b c d :: pixelsOfBytes rest
  | _ => []
  end.

Definition isByte (b : Z) : Prop := 0 <= b < 256.

#[local] Instance isByte_dec (b : Z) : Decision (isByte b).
Proof. unfold isByte. apply _. Defined.

(** The base64 alphabet. *)
Definition b64char (n : Z) : ascii :=
  if n <? 26 then ascii_of_nat (Z.to_nat (65 + n))
  else if n <? 52 then ascii_of_nat (Z.to_nat (97 + (n - 26)))
  else if n <? 62 then ascii_of_nat (Z.to_nat (48 + (n - 52)))
  else if n =? 62 then "+"%char
  else "/"%char.

Definition b64val (c : ascii) : option Z :=
  let n := Z.of_nat (nat_of_ascii c) in
  if (65 <=? n) && (n <=? 90) then Some (n - 65)
  else if (97 <=? n) && (n <=? 122) then Some (n - 97 + 26)
  else if (48 <=? n) && (n <=? 57) then Some (n - 48 + 52)
  else if n =? 43 then Some 62
  else if n =? 47 then Some 63
  else None.

Definition isPad (c : ascii) : bool := Ascii.eqb c "="%char.

Fixpoint base64Encode (bs : list Z) : list ascii :=
  match bs with
  | [] => []
  | [a] =>
      [b64char (a / 4); b64char (a mod 4 * 16); "="%char; "="%char]
  | [a; b] =>
      [b64char (a / 4); b64char (a mod 4 * 16 + b / 16);
       b64char (b mod 16 * 4); "="%char]
  | a :: b :: c :: rest =>
      b64char (a / 4) :: b64char (a mod 4 * 16 + b / 16)
      :: b64char (b mod 16 * 4 + c / 64) :: b64char (c mod 64)
      :: base64Encode rest
  end.

Fixpoint base64Decode (cs : list ascii) : option (list Z) :=
  match cs with
  | [] => Some []
  | c1 :: c2 :: c3 :: c4 :: rest =>
      v1 ← b64val c1;
      v2 ← b64val c2;
      if isPad c3 then
        match rest with
        | [] => if isPad c4 then Some [v1 * 4 + v2 / 16] else None
        | _ :: _ => None
        end
      else
        v3 ← b64val c3;
        if isPad c4 then
          match rest with
          | [] => Some [v1 * 4 + v2 / 16; v2 mod 16 * 16 + v3 / 4]
          | _ :: _ => None
          end
        else
          v4 ← b64val c4;
          tl ← base64Decode rest;
          Some (v1 * 4 + v2 / 16 :: v2 mod 16 * 16 + v3 / 4
                :: v3 mod 4 * 64 + v4 :: tl)
  | _ => None
  end.

(** Modelled from the spec: [GraphicMask.getBase64()], the spec's
    [exportEncoded]: the raw raster, byte for byte, as base64 text. *)
Definition getBase64 (m : GraphicMask) : string :=
  string_of_list_ascii (base64Encode (rasterBytes m)).

(** Modelled from the spec: [GraphicMask.setBase64(buffer)], the spec's
    [importEncoded]/[initialize]: "replaces the pixel store; decodes
    nothing - raw bytes are the pixel encoding verbatim.  Fails with
    SizeMismatch if byte length ≠ width×height×4." *)
Definition setBase64 (buffer : string) (m : GraphicMask) : Result GraphicMask :=
  match base64Decode (list_ascii_of_string buffer) with
  | None => Throw InvalidFormat
  | Some bs =>
      if Z.of_nat (length bs) =? canvasWidth m * canvasHeight m * 4
      then Ok (withPixels m (pixelsOfBytes bs))
      else Throw SizeMismatch
  end.

(** ** The shared state of the element and its controllers *)

Inductive EditionMode : Type :=
| ADD_TO_INSTANCE
| REMOVE_FROM_INSTANCE
| NEW_INSTANCE.

(** What the element and its controllers dispatch. *)
Inductive Event : Type :=
| EvUpdate
| EvMode (detail : string)
| EvSelection (detail : option Identity).

(** The calls a mode switch makes on the controllers of the mode table. *)
Inductive ControllerCall : Type :=
| Deactivate (key : string)
| Activate (key : string).

(** [gmask], [selectedId] ([_selectedId.value]) and [targetClass]
    ([_targetClass.value]) are the objects the controllers share with the
    element; [imageWidth] and [imageHeight] are the renderer's; [modes]
    holds the keys of the mode table, as [Object.keys] lists them; [calls] and [events] record, latest
    first, the controller calls and the events dispatched so far.  The
    graphics that only draw the selection (contours, roi, densePolygons)
    are left out. *)
Record Editor : Type := mkEditor {
  gmask : GraphicMask;
  selectedId : option Identity;
  targetClass : Z;
  imageWidth : Z;
  imageHeight : Z;
  newMaskLoaded : bool;
  mode : string;
  modes : list string;
  calls : list ControllerCall;
  events : list Event
}.

Definition withMask (st : Editor) (m : GraphicMask) : Editor :=
  mkEditor m (selectedId st) (targetClass st) (imageWidth st) (imageHeight st)
           (newMaskLoaded st) (mode st) (modes st) (calls st) (events st).

Definition withSelected (st : Editor) (id : option Identity) : Editor :=
  mkEditor (gmask st) id (targetClass st) (imageWidth st) (imageHeight st)
           (newMaskLoaded st) (mode st) (modes st) (calls st) (events st).

Definition dispatchEvent (ev : Event) (st : Editor) : Editor :=
  mkEditor (gmask st) (selectedId st) (targetClass st) (imageWidth st)
           (imageHeight st) (newMaskLoaded st) (mode st) (modes st) (calls st)
           (ev :: events st).

(** ** controller-mask.ts *)

Record DensePolygon : Type := mkDensePolygon {
  dtype : ContourType;
  data : list Point
}.

(** [getPolygons(mask, targetId, extrema?)], over the extractor
    [mask.getBlobs] it calls. *)
Definition getPolygonsFrom
    (extract : GraphicMask → Identity → option Extrema → list (Z * Blob))
    (mask : GraphicMask) (targetId : Identity) (extrema : option Extrema)
    : list DensePolygon :=
  if arraysMatch targetId (0, 0, 0) then []
  else
    let blobs := extract mask targetId extrema in
    flat_map
      (fun '(_, blob) =>
         map (fun contour =>
                mkDensePolygon (ctype contour)
                  (convertIndexToDict (points contour) (canvasWidth mask + 1)))
             (contours blob))
      blobs.

Definition getPolygons : GraphicMask → Identity → option Extrema
                         → list DensePolygon :=
  getPolygonsFrom getBlobs.

(** *** LockController *)

Inductive LockType : Type := LockInstance | LockClass.

(** "add all instances of class to locked instances":
    [fusedIds.forEach(fId => { if (unfuseId(fId)[2] == cls)
    lockedInstances.add(fId) })]. *)
Definition lockAllOfClass (cls : Z) (m : GraphicMask) : GraphicMask :=
  withLocked m
    (set_fold (fun fId locked =>
                 if idClass (unfuseId fId) =? cls then {[ fId ]} ∪ locked
                 else locked)
              (lockedInstances m) (fusedIds m)).

(** "remove all instances of class from the locked instances". *)
Definition unlockAllOfClass (cls : Z) (m : GraphicMask) : GraphicMask :=
  withLocked m
    (set_fold (fun fId locked =>
                 if idClass (unfuseId fId) =? cls then locked ∖ {[ fId ]}
                 else locked)
              (lockedInstances m) (fusedIds m)).

(** The known fused ids whose class is [cls]. *)
Definition knownOfClass (cls : Z) (m : GraphicMask) : gset Z :=
  filter (fun fId => idClass (unfuseId fId) = cls) (fusedIds m).

(** [currentLockedClasses.includes(cls)]. *)
Definition classIsLocked (cls : Z) (m : GraphicMask) : bool :=
  existsb (fun fId => idClass (unfuseId fId) =? cls)
          (elements (lockedInstances m)).

Definition toggleLock (fId : Z) (m : GraphicMask) : GraphicMask :=
  if bool_decide (fId ∈ lockedInstances m)
  then withLocked m (lockedInstances m ∖ {[ fId ]})
  else withLocked m ({[ fId ]} ∪ lockedInstances m).

(** [LockController.onPointerDownLock], for a pointer at pixel [(x, y)]. *)
Definition onPointerDownLock (lockType : LockType) (x y : Z) (st : Editor)
    : Result Editor :=
  match pixelId (gmask st) (x + y * canvasWidth (gmask st)) with
  | None => Throw TypeError
  | Some id =>
      match lockType with
      | LockInstance => Ok (withMask st (toggleLock (fuseId id) (gmask st)))
      | LockClass =>
          let cls := idClass id in
          if classIsLocked cls (gmask st)
          then Ok (withMask st (unlockAllOfClass cls (gmask st)))
          else Ok (withMask st (lockAllOfClass cls (gmask st)))
      end
  end.

(** *** getTargetValue *)

(** A number used as a condition. *)
Definition truthy (n : Z) : bool := negb (n =? 0).

(** [getTargetValue()], the same text in [CreateBrushController] and in
    [CreatePolygonController]: the identity to paint next.  A new
    instance takes its instance number from [getNextId] when the target
    class has a truthy [isInstance] entry and [[0, 0]] otherwise, and
    becomes the selection. *)
Definition getTargetValue (editionMode : EditionMode) (st : Editor)
    : Result (Identity * Editor) :=
  match editionMode with
  | NEW_INSTANCE =>
      do newId <-
        match clsMap (gmask st) !! targetClass st with
        | Some (_, _, _, isInstance) =>
            if truthy isInstance then getNextId (gmask st) else Ok (0, 0)
        | None => Ok (0, 0)
        end;
      let value : Identity := (newId.1, newId.2, targetClass st) in
      Ok (value, withSelected st (Some value))
  | _ =>
      match selectedId st with
      | Some id => Ok (id, st)
      | None => Ok ((0, 0, 0), st)
      end
  end.

Definition fillTypeOf (editionMode : EditionMode) : FillType :=
  match editionMode with
  | REMOVE_FROM_INSTANCE => FillRemove
  | _ => FillAdd
  end.

(** *** CreateBrushController *)

Record BrushController : Type := mkBrush {
  brushEditionMode : EditionMode;
  isActive : bool;
  roiRadius : Z;
  roiMatrix : list bool;
  roiX : Z;
  roiY : Z
}.

(** The "binary array" of [initRoi]: cell [(x, y)] of the
    [2r] by [2r] matrix is set when
    [|r - x - 0.5|² + |r - y - 0.5|² <= r²]; both sides are multiplied by
    four here. *)
Definition roiMatrixOf (r : Z) : list bool :=
  flat_map
    (fun y =>
       map (fun x =>
              (2 * r - 2 * x - 1) * (2 * r - 2 * x - 1)
              + (2 * r - 2 * y - 1) * (2 * r - 2 * y - 1) <=? 4 * r * r)
           (seqZ 0 (2 * r)))
    (seqZ 0 (2 * r)).

Definition roiBox (r x y : Z) : Extrema := (x - r, y - r, x + r, y + r).

(** [onPointerDownBrush], with the button and modifier keys of the event
    and the mouse position of the renderer. *)
Definition onPointerDownBrush (button : Z) (ctrlKey shiftKey : bool)
    (mouseX mouseY : Z) (c : BrushController) (st : Editor)
    : Result (BrushController * Editor) :=
  if button =? 1 then Ok (c, st)
  else
    let editionMode :=
      if (button =? 0) && negb ctrlKey && negb shiftKey then NEW_INSTANCE
      else if (button =? 0) && shiftKey && bool_decide (is_Some (selectedId st))
           then ADD_TO_INSTANCE
      else if (button =? 0) && ctrlKey && bool_decide (is_Some (selectedId st))
           then REMOVE_FROM_INSTANCE
      else brushEditionMode c in
    let c' := mkBrush editionMode true (roiRadius c) (roiMatrix c) mouseX mouseY in
    do (value, st1) <- getTargetValue editionMode st;
    Ok (c', withMask st1
              (updateByMaskInRoi (roiMatrix c) (roiBox (roiRadius c) mouseX mouseY)
                 value (fillTypeOf editionMode) (gmask st1))).

(** [onPointerMoveBrush], for a pointer now at [(newX, newY)].  [dx] and
    [dy] are the truncated offsets [trunc(sin(alpha) * r)] and
    [trunc(-cos(alpha) * r)] of the strip that joins the last two
    positions; they come from floating-point trigonometry and are taken
    as given. *)
Definition onPointerMoveBrush (newX newY dx dy : Z) (c : BrushController)
    (st : Editor) : Result (BrushController * Editor) :=
  let c' := mkBrush (brushEditionMode c) (isActive c) (roiRadius c)
                    (roiMatrix c) newX newY in
  if isActive c then
    let fillType := fillTypeOf (brushEditionMode c) in
    do (value1, st1) <- getTargetValue (brushEditionMode c) st;
    let st2 := withMask st1
                 (updateByMaskInRoi (roiMatrix c) (roiBox (roiRadius c) newX newY)
                    value1 fillType (gmask st1)) in
    do (value2, st3) <- getTargetValue (brushEditionMode c) st2;
    Ok (c', withMask st3
              (updateByPolygon
                 [(roiX c + dx, roiY c + dy); (roiX c - dx, roiY c - dy);
                  (newX - dx, newY - dy); (newX + dx, newY + dy)]
                 value2 fillType (gmask st3)))
  else Ok (c', st).

(** [onPointerUpBrush]: the stroke ends, the selected identity joins the
    known ids.  [fuseId(this._selectedId.value!)] throws when nothing is
    selected. *)
Definition onPointerUpBrush (c : BrushController) (st : Editor)
    : Result (BrushController * Editor) :=
  let c' := mkBrush (brushEditionMode c) false (roiRadius c) (roiMatrix c)
                    (roiX c) (roiY c) in
  if isActive c then
    match selectedId st with
    | None => Throw TypeError
    | Some id =>
        Ok (c', dispatchEvent EvUpdate
                  (withMask st
                     (withFusedIds (gmask st)
                        ({[ fuseId id ]} ∪ fusedIds (gmask st)))))
    end
  else Ok (c', st).

(** *** CreatePolygonController *)

(** [tempPolygon] holds the nodes of the polygon being drawn, in pixels
    (the source keeps them normalised and rounds them back on commit);
    its last node follows the pointer. *)
Record PolygonController : Type := mkPolygon {
  polygonEditionMode : EditionMode;
  tempPolygon : option (list Point)
}.

Inductive Key : Type := KeyEnter | KeyEscape | KeyOther.

(** [CreatePolygonController.onKeyDown]. *)
Definition onKeyDown (key : Key) (c : PolygonController) (st : Editor)
    : Result (PolygonController * Editor) :=
  match key with
  | KeyEnter =>
      match tempPolygon c with
      | None => Ok (c, st)
      | Some nodes =>
          let vertices := removelast nodes in
          let c' := mkPolygon (polygonEditionMode c) None in
          if 2 <? Z.of_nat (length vertices) then
            let fillType := fillTypeOf (polygonEditionMode c) in
            do (newValue, st1) <- getTargetValue (polygonEditionMode c) st;
            let m1 := withFusedIds (gmask st1)
                        ({[ fuseId newValue ]} ∪ fusedIds (gmask st1)) in
            let m2 := updateByPolygon vertices newValue fillType m1 in
            Ok (c', dispatchEvent EvUpdate (withMask st1 m2))
          else Ok (c', st)
      end
  | KeyEscape => Ok (mkPolygon (polygonEditionMode c) None, st)
  | KeyOther => Ok (c, st)
  end.

(** ** pxn-segmentation.ts *)

(** [Segmentation.getMask()]. *)
Definition getMask (st : Editor) : string := getBase64 (gmask st).

(** [Segmentation.setMask(buffer)]. *)
Definition setMask (buffer : string) (st : Editor) : Result Editor :=
  let st1 := mkEditor (gmask st) (selectedId st) (targetClass st)
               (imageWidth st) (imageHeight st) true (mode st) (modes st)
               (calls st) (events st) in
  do m <- setBase64 buffer (gmask st1);
  Ok (withMask st1 m).

(** [Segmentation.setEmpty()]. *)
Definition setEmpty (st : Editor) : Editor :=
  if (imageWidth st =? 0) || (imageHeight st =? 0) then st
  else
    withSelected (withMask st (empty (imageWidth st) (imageHeight st) (gmask st)))
                 (Some (-1, -1, -1)).

(** The names that the mode table, an object literal, inherits from
    [Object.prototype]. *)
Definition objectPrototypeKeys : list string :=
  ["constructor"; "__defineGetter__"; "__defineSetter__"; "hasOwnProperty";
   "__lookupGetter__"; "__lookupSetter__"; "isPrototypeOf";
   "propertyIsEnumerable"; "toString"; "valueOf"; "__proto__";
   "toLocaleString"].

(** What [this.modes[k]] finds: the controller registered under the key
    [k], a member of [Object.prototype] when the table has no such key but
    the prototype has, [undefined] otherwise. *)
Inductive ModeEntry : Type := Registered | Inherited | Undefined.

Definition modeEntry (k : string) (st : Editor) : ModeEntry :=
  if bool_decide (k ∈ modes st) then Registered
  else if bool_decide (k ∈ objectPrototypeKeys) then Inherited
  else Undefined.

(** The property key that [prevMode] reads: [undefined], its value on the
    first update, reads the key ["undefined"]. *)
Definition modeKey (prevMode : option string) : string :=
  default "undefined"%string prevMode.

Definition withCalls (st : Editor) (log : list ControllerCall) : Editor :=
  mkEditor (gmask st) (selectedId st) (targetClass st) (imageWidth st)
           (imageHeight st) (newMaskLoaded st) (mode st) (modes st) log
           (events st).

(** [Segmentation.setMode(prevMode, newMode)]: the editor as the call
    leaves it, and the exception it throws, if any.  A member of
    [Object.prototype] is truthy and is no controller: calling its
    [deactivate] or [activate] throws a TypeError, for [prevMode] before
    anything is done, for [newMode] once the controller of [prevMode] has
    been deactivated; [mode] is set and the event dispatched only after
    both calls. *)
Definition setMode (prevMode : option string) (newMode : string) (st : Editor)
    : Editor * option Error :=
  if bool_decide (prevMode = Some newMode) then (st, None)
  else
    match modeEntry (modeKey prevMode) st with
    | Inherited => (st, Some TypeError)
    | prevEntry =>
        let calls1 :=
          match prevEntry with
          | Registered => Deactivate (modeKey prevMode) :: calls st
          | _ => calls st
          end in
        match modeEntry newMode st with
        | Inherited => (withCalls st calls1, Some TypeError)
        | newEntry =>
            let calls2 :=
              match newEntry with
              | Registered => Activate newMode :: calls1
              | _ => calls1
              end in
            (mkEditor (gmask st) (selectedId st) (targetClass st)
                      (imageWidth st) (imageHeight st) (newMaskLoaded st)
                      newMode (modes st) calls2 (EvMode newMode :: events st),
             None)
        end
    end.

(** [Segmentation.fillSelection(newId)]. *)
Definition fillSelection (newId : Identity) (st : Editor) : Editor :=
  match selectedId st with
  | Some sel =>
      withSelected (withMask st (replaceValue sel newId (gmask st))) (Some newId)
  | None => st
  end.

(** [clsMap.get(cls)![3]]: throws when the class has no entry. *)
Definition isInstanceOf (cls : Z) (st : Editor) : Result Z :=
  match clsMap (gmask st) !! cls with
  | Some (_, _, _, isInstance) => Ok isInstance
  | None => Throw TypeError
  end.

(** [Segmentation.fillSelectionWithClass(newClass)]. *)
Definition fillSelectionWithClass (newClass : Z) (st : Editor) : Result Editor :=
  match selectedId st with
  | Some sel =>
      let currClass := idClass sel in
      do newIsInstance <- isInstanceOf newClass st;
      do becomesInstance <-
        (if truthy newIsInstance
         then do currIsInstance <- isInstanceOf currClass st;
              Ok (negb (truthy currIsInstance))
         else Ok false);
      if becomesInstance : bool then
        do nextIdx <- getNextId (gmask st);
        Ok (fillSelection (nextIdx.1, nextIdx.2, newClass) st)
      else if negb (truthy newIsInstance) then
        Ok (fillSelection (0, 0, newClass) st)
      else Ok (fillSelection (idLow sel, idHigh sel, newClass) st)
  | None => Ok st
  end.

(** One call of [gmask.updateByPolygon] made by the filter. *)
Definition PaintCall : Type := list Point * Identity * FillType.

Definition applyPaint (m : GraphicMask) (call : PaintCall) : GraphicMask :=
  let '(arr, id, ft) := call in updateByPolygon arr id ft m.

(** The body of [blob.contours.forEach] in [filterId]: an external
    contour is painted with ['remove'], any other contour with ['add']. *)
Definition filterContour (targetId : Identity) (m : GraphicMask)
    (contour : Contour) : GraphicMask :=
  let arr := convertIndexToDict (points contour) (canvasWidth m + 1) in
  match ctype contour with
  | External => updateByPolygon arr targetId FillRemove m
  | Internal => updateByPolygon arr targetId FillAdd m
  end.

(** [Segmentation.filterId(targetId, blobMinSize)]: the blobs are
    extracted once, then the contours of every blob below the size are
    painted one after the other, in the order of the blob. *)
Definition filterId (targetId : Identity) (blobMinSize : Z) (m : GraphicMask)
    : GraphicMask :=
  let blobs := getBlobs m targetId None in
  fold_left
    (fun m '(_, blob) =>
       if nbPixels blob <? blobMinSize
       then fold_left (filterContour targetId) (contours blob) m
       else m)
    blobs m.

(** The calls of [updateByPolygon] that [filterId] makes for one blob, and
    for a list of blobs, in the order it makes them. *)
Definition blobPaintCalls (width : Z) (targetId : Identity) (blobMinSize : Z)
    (blob : Blob) : list PaintCall :=
  if nbPixels blob <? blobMinSize
  then map (fun contour =>
              (convertIndexToDict (points contour) (width + 1), targetId,
               match ctype contour with
               | External => FillRemove
               | Internal => FillAdd
               end))
           (contours blob)
  else [].

Definition filterPaintCalls (width : Z) (targetId : Identity) (blobMinSize : Z)
    (blobs : list (Z * Blob)) : list PaintCall :=
  flat_map (fun '(_, blob) => blobPaintCalls width targetId blobMinSize blob) blobs.

(** [Segmentation.filterLittle(numPixels)].  The known ids are visited in
    the order of [elements]; the [Set] of the source is visited in
    insertion order. *)
Definition filterLittle (numPixels : Z) (st : Editor) : Editor :=
  dispatchEvent EvUpdate
    (withMask st
       (fold_left (fun m id => filterId (unfuseId id) numPixels m)
                  (elements (fusedIds (gmask st))) (gmask st))).

(** ** The other handlers of controller-mask.ts *)

(** *** SelectController *)

(** [densePolygons] is the outline on display, [contoursVisible] is
    [contours.visible]. *)
Record SelectController : Type := mkSelect {
  densePolygons : list DensePolygon;
  contoursVisible : bool
}.

(** [SelectController.deselect()]. *)
Definition deselect (c : SelectController) (st : Editor)
    : SelectController * Editor :=
  match selectedId st with
  | Some _ =>
      (mkSelect [] (contoursVisible c),
       dispatchEvent (EvSelection None) (withSelected st None))
  | None => (c, st)
  end.

(** [SelectController.onPointerDownSelectInstance], for a pointer at pixel
    [(x, y)]; as in [onPointerDownLock], an index with no pixel has no
    identity to test. *)
Definition onPointerDownSelectInstance (x y : Z) (c : SelectController)
    (st : Editor) : Result (SelectController * Editor) :=
  match pixelId (gmask st) (x + y * canvasWidth (gmask st)) with
  | None => Throw TypeError
  | Some id =>
      if (idLow id =? 0) && (idHigh id =? 0) && (idClass id =? 0)
      then Ok (deselect c st)
      else
        let st1 := withSelected st (Some id) in
        Ok (mkSelect (getPolygons (gmask st1) id None) (contoursVisible c),
            dispatchEvent (EvSelection (Some id)) st1)
  end.

(** [SelectController.onKeySelectionDown]; [escape] is
    [evt.key === 'Escape']. *)
Definition onKeySelectionDown (escape : bool) (c : SelectController)
    (st : Editor) : SelectController * Editor :=
  if escape then deselect c st else (c, st).

(** *** CreateBrushController: the brush and its keys *)

Module Brush.

Inductive Key : Type := KeyPlus | KeyMinus | KeyOther.

(** [initRoi()]: the brush follows the mouse of the renderer and its
    matrix is computed again from the radius. *)
Definition initRoi (mouseX mouseY : Z) (c : BrushController) : BrushController :=
  mkBrush (brushEditionMode c) (isActive c) (roiRadius c)
          (roiMatrixOf (roiRadius c)) mouseX mouseY.

(** [CreateBrushController.onKeyDown]: [KeyPlus] is
    [evt.code == "NumpadAdd" || evt.key == "+"], [KeyMinus] is
    [evt.code == "NumpadSubtract" || evt.key == "-"]. *)
Definition onKeyDown (key : Key) (mouseX mouseY : Z) (c : BrushController)
    : BrushController :=
  match key with
  | KeyPlus =>
      initRoi mouseX mouseY
        (mkBrush (brushEditionMode c) (isActive c) (roiRadius c + 1)
                 (roiMatrix c) (roiX c) (roiY c))
  | KeyMinus =>
      initRoi mouseX mouseY
        (mkBrush (brushEditionMode c) (isActive c) (Z.max (roiRadius c - 1) 1)
                 (roiMatrix c) (roiX c) (roiY c))
  | KeyOther => c
  end.

End Brush.

(** The brush and the editor as [onPointerUpBrush] leaves them.  When it
    throws, on the null selection, nothing has been written yet:
    [this.isActive = false] is its last statement. *)
Definition afterPointerUpBrush (c : BrushController) (st : Editor)
    : BrushController * Editor :=
  match onPointerUpBrush c st with
  | Ok r => r
  | Throw _ => (c, st)
  end.

(** The keys pressed over the brush, each with the mouse position of the
    renderer at that time. *)
Definition brushKeys (keys : list (Brush.Key * Z * Z)) (c : BrushController)
    : BrushController :=
  fold_left (fun c k => Brush.onKeyDown k.1.1 k.1.2 k.2 c) keys c.

(** Cell [(x, y)] of the brush of radius [r], as [initRoi] tests it. *)
Definition roiCell (r x y : Z) : bool :=
  (2 * r - 2 * x - 1) * (2 * r - 2 * x - 1)
  + (2 * r - 2 * y - 1) * (2 * r - 2 * y - 1) <=? 4 * r * r.

(** The centre of pixel [(x, y)] is within [r] of the point [(cx, cy)];
    both sides of the comparison are multiplied by four. *)
Definition withinBrush (r cx cy x y : Z) : Prop :=
  (2 * (x - cx) + 1) * (2 * (x - cx) + 1)
  + (2 * (y - cy) + 1) * (2 * (y - cy) + 1) ≤ 4 * r * r.

(** *** CreatePolygonController: the pointer *)

(** [onPointerDownSelectionPolygon], for a pointer at [(x, y)]:
    [popNode()] drops the last node, [pushNode(x, y)] appends one. *)
Definition onPointerDownSelectionPolygon (x y : Z) (c : PolygonController)
    : PolygonController :=
  match tempPolygon c with
  | Some nodes =>
      mkPolygon (polygonEditionMode c)
                (Some ((removelast nodes ++ [(x, y)]) ++ [(x, y)]))
  | None => mkPolygon (polygonEditionMode c) (Some ([(x, y)] ++ [(x, y)]))
  end.

(** [onPointerMoveTempPolygon]; without a polygon only the roi moves. *)
Definition onPointerMoveTempPolygon (x y : Z) (c : PolygonController)
    : PolygonController :=
  match tempPolygon c with
  | Some nodes =>
      mkPolygon (polygonEditionMode c) (Some (removelast nodes ++ [(x, y)]))
  | None => c
  end.

Module Polygon.

(** [CreatePolygonController.deactivate()]. *)
Definition deactivate (c : PolygonController) : PolygonController :=
  mkPolygon (polygonEditionMode c) None.

End Polygon.

(** What the pointer does while a polygon is drawn, and a drawing as the
    list of these events. *)
Inductive PointerEvent : Type :=
| PointerDown (x y : Z)
| PointerMove (x y : Z).

Definition pointerStep (c : PolygonController) (ev : PointerEvent)
    : PolygonController :=
  match ev with
  | PointerDown x y => onPointerDownSelectionPolygon x y c
  | PointerMove x y => onPointerMoveTempPolygon x y c
  end.

Definition draw (evs : list PointerEvent) (c : PolygonController)
    : PolygonController :=
  fold_left pointerStep evs c.

(** The points clicked, in order. *)
Definition clicked (evs : list PointerEvent) : list Point :=
  omap (fun ev => match ev with
                  | PointerDown x y => Some (x, y)
                  | PointerMove _ _ => None
                  end) evs.

(** ** The other methods of pxn-segmentation.ts *)

(** [Segmentation.onImageChanged()]. *)
Definition onImageChanged (st : Editor) : Editor :=
  if newMaskLoaded st then st else setEmpty st.

(** [modes.findIndex((m) => m === mode)]: the first index that holds
    [mode], [-1] when none does. *)
Fixpoint findIndexFrom (i : Z) (m : string) (keys : list string) : Z :=
  match keys with
  | [] => -1
  | k :: rest => if bool_decide (k = m) then i else findIndexFrom (i + 1) m rest
  end.

Definition findIndex (m : string) (keys : list string) : Z :=
  findIndexFrom 0 m keys.

Definition withMode (st : Editor) (k : string) : Editor :=
  mkEditor (gmask st) (selectedId st) (targetClass st) (imageWidth st)
           (imageHeight st) (newMaskLoaded st) k (modes st) (calls st)
           (events st).

(** [Segmentation.switchMode()]: the editor with its new mode and the type
    of the event dispatched, [new Event("mode")], which has no detail.
    With an empty mode table the source sets [mode] to [undefined], which
    [Editor] does not hold: [None]. *)
Definition switchMode (st : Editor) : option (Editor * string) :=
  let keys := modes st in
  let currentIdx := findIndex (mode st) keys in
  match keys !! Z.to_nat ((currentIdx + 1) mod Z.of_nat (length keys)) with
  | Some k => Some (withMode st k, "mode"%string)
  | None => None
  end.

(** [switchMode] called [n] times. *)
Fixpoint switchModes (n : nat) (st : Editor) : option Editor :=
  match n with
  | O => Some st
  | S n' =>
      match switchMode st with
      | Some (st1, _) => switchModes n' st1
      | None => None
      end
  end.

(** The controllers that are active after the calls of a log, latest
    first: [activate] adds a controller, [deactivate] removes it. *)
Fixpoint activeControllers (log : list ControllerCall) : list string :=
  match log with
  | [] => []
  | Activate k :: older => k :: filter (fun k' => k' ≠ k) (activeControllers older)
  | Deactivate k :: older => filter (fun k' => k' ≠ k) (activeControllers older)
  end.

(** The controller registered for the mode [k] alone when the mode table
    has one, none otherwise. *)
Definition controllerOf (k : option string) (st : Editor) : list string :=
  match modeEntry (modeKey k) st with
  | Registered => [modeKey k]
  | _ => []
  end.

(** The value of a decimal digit. *)
Definition digitOf (a : ascii) : option Z :=
  let n := Z.of_N (N_of_ascii a) in
  if (48 <=? n) && (n <=? 57) then Some (n - 48) else None.

Fixpoint numeral (acc : Z) (s : string) : option Z :=
  match s with
  | EmptyString => Some acc
  | String a rest =>
      match digitOf a with
      | Some d => numeral (acc * 10 + d) rest
      | None => None
      end
  end.

(** The number a property key denotes when it is an array index: a decimal
    numeral without a leading zero, below [2^32 - 1].  [Object.keys] lists
    these keys first, by ascending number, and the other keys after them
    in the order in which they were added. *)
Definition arrayIndex (k : string) : option Z :=
  match k with
  | EmptyString => None
  | String a rest =>
      if bool_decide (a = "0"%char) && negb (bool_decide (rest = EmptyString))
      then None
      else match numeral 0 k with
           | Some n => if n <? 4294967295 then Some n else None
           | None => None
           end
  end.

Fixpoint insertIndex (n : Z) (k : string) (keys : list string) : list string :=
  match keys with
  | [] => [k]
  | k0 :: rest =>
      match arrayIndex k0 with
      | Some n0 => if n0 <? n then k0 :: insertIndex n k rest else k :: keys
      | None => k :: keys
      end
  end.

(** The keys of the mode table after [this.modes[k] = controller], for a
    table whose keys are listed as [Object.keys] lists them. *)
Definition addKey (k : string) (keys : list string) : list string :=
  if bool_decide (k ∈ keys) then keys
  else match arrayIndex k with
       | Some n => insertIndex n k keys
       | None => keys ++ [k]
       end.

(** [Segmentation.setController(mode, controller)]: the editor as the call
    leaves it, and the exception it throws, if any.  The controllers are
    known by their keys: a controller that replaces the active one is
    deactivated, and the new one activated, under the same key.  When the
    key is the current mode and names a member of [Object.prototype] that
    the table does not register, [deactivate] is called on that member and
    throws.  The result is [None] for the key ["__proto__"] when the table
    does not register it and the assignment is reached: the assignment
    then replaces the prototype of the table, which [Editor] does not
    describe. *)
Definition setController (k : string) (st : Editor)
    : option (Editor * option Error) :=
  let assigned :=
    if bool_decide (k = "__proto__"%string) && negb (bool_decide (k ∈ modes st))
    then None
    else Some (mkEditor (gmask st) (selectedId st) (targetClass st)
                        (imageWidth st) (imageHeight st) (newMaskLoaded st)
                        (mode st) (addKey k (modes st)) (calls st) (events st),
               None) in
  if bool_decide (k = mode st) then
    match modeEntry k st with
    | Registered =>
        Some (withCalls st (Activate k :: Deactivate k :: calls st), None)
    | Inherited => Some (st, Some TypeError)
    | Undefined => assigned
    end
  else assigned.

(** The layers of the renderer that [setOpacity] and [toggleMask] touch:
    [renderer.labelLayer.alpha], [renderer.backgroundSprite.visible], and
    the [opacity] of the element.  The numbers are only stored and
    compared. *)
Record Layers : Type := mkLayers {
  labelAlpha : Q;
  backgroundVisible : bool;
  opacity : Q
}.

(** [Segmentation.setOpacity(opacity)]. *)
Definition setOpacity (o : Q) (v : Layers) : Layers :=
  mkLayers o (backgroundVisible v) (opacity v).

(** [Segmentation.toggleMask()]. *)
Definition toggleMask (v : Layers) : Layers :=
  if Qeq_bool (labelAlpha v) (opacity v) then mkLayers 1%Q false (opacity v)
  else if Qeq_bool (labelAlpha v) 1%Q then mkLayers 0%Q true (opacity v)
  else mkLayers (opacity v) true (opacity v).

(** ** pxn-graph.ts: creating a graph *)

Module Graph.

(** The fields of [settings] (graph-shape.ts) that the controller reads. *)
Record IGraphSettings : Type := mkSettings {
  settingsEdges : list (Z * Z);
  vertexNames : list string
}.

Section Create.
(** Normalised positions are only stored. *)
Context {Coord : Type}.

(** [ShapeData] with the [geometry] of a graph. *)
Record ShapeData : Type := mkShape {
  id : string;
  vertices : list Coord;
  edges : list (Z * Z);
  visibles : list bool
}.

(** [GraphShape.pushNode] (shapes-2d.ts) is not part of these files. *)
Variable pushNode : ShapeData → Coord → Coord → ShapeData.
Variable settings : IGraphSettings.

(** [tmpShape] is the graph being created, [shapes] the set of the
    element, in insertion order. *)
Record CreateController : Type := mkCreate {
  tmpShape : option ShapeData;
  shapes : list ShapeData;
  isCreating : bool
}.

(** [visibles[visibles.length - 1] = b]; on an empty array the index is
    [-1] and no element is written. *)
Definition setLastVisible (b : bool) (vs : list bool) : list bool :=
  match vs with
  | [] => []
  | _ => removelast vs ++ [b]
  end.

(** [GraphCreateController.createGraph()]; [newId] is the text drawn from
    [Math.random()]. *)
Definition createGraph (newId : string) (c : CreateController)
    : Result CreateController :=
  match tmpShape c with
  | Some shape =>
      Ok (mkCreate None
            (shapes c ++ [mkShape newId (vertices shape) (edges shape)
                                  (visibles shape)])
            (isCreating c))
  | None => Throw TypeError
  end.

(** [GraphCreateController.onRootDown], for [pointer.buttons] and the
    normalised position [(x, y)] of the pointer.  [e1 < l] with
    [l = vertices.length * 0.5] is compared after doubling. *)
Definition onRootDown (buttons : Z) (x y : Coord) (newId : string)
    (c : CreateController) : Result CreateController :=
  if buttons =? 2 then Ok c
  else
    let shape' :=
      match tmpShape c with
      | Some shape =>
          let s1 := pushNode shape x y in
          let l2 := Z.of_nat (length (vertices s1)) in
          let s2 := mkShape (id s1) (vertices s1) (edges s1)
                            (setLastVisible (negb (buttons =? 4)) (visibles s1)) in
          mkShape (id s2) (vertices s2)
                  (List.filter (fun e => (2 * e.1 <? l2) && (2 * e.2 <? l2))
                          (settingsEdges settings))
                  (visibles s2)
      | None => mkShape "tmp" [x; y] [] [negb (buttons =? 4)]
      end in
    let c1 := mkCreate (Some shape') (shapes c) true in
    if Z.of_nat (length (vertices shape'))
       =? Z.of_nat (length (vertexNames settings)) * 2
    then createGraph newId c1
    else Ok c1.

(** One pointer press: buttons, position, and the id a new graph would
    take. *)
Definition Press : Type := Z * Coord * Coord * string.

Fixpoint presses (ps : list Press) (c : CreateController)
    : Result CreateController :=
  match ps with
  | [] => Ok c
  | (buttons, x, y, newId) :: rest =>
      do c1 <- onRootDown buttons x y newId c;
      presses rest c1
  end.

(** The coordinates of a list of presses, as [vertices] holds them. *)
Definition pressed (ps : list Press) : list Coord :=
  flat_map (fun p => [p.1.1.2; p.1.2]) ps.

(** Every edge of the shape is an edge of the settings and has both ends
    below the number of nodes of the shape. *)
Definition edgesInRange (s : ShapeData) : Prop :=
  ∀ e, e ∈ edges s →
       2 * e.1 < Z.of_nat (length (vertices s))
       ∧ 2 * e.2 < Z.of_nat (length (vertices s))
       ∧ e ∈ settingsEdges settings.

End Create.
End Graph.

(** ** Blobs as sets of pixels *)

(** [q] is a pixel of [ps] that touches [p] by a side. *)
Definition linked (ps : list Point) (p q : Point) : Prop :=
  q ∈ ps ∧ adjacent4 p q = true.

(** Any two pixels of [ps] are joined by a chain of pixels of [ps], each
    touching the next by a side. *)
Definition connected4 (ps : list Point) : Prop :=
  ∀ p q, p ∈ ps → q ∈ ps → rtc (linked ps) p q.

(** No pixel of [A] touches a pixel of [B] by a side. *)
Definition separated (A B : list Point) : Prop :=
  ∀ p q, p ∈ A → q ∈ B → adjacent4 p q = false.

(** Flood fill from the first pixel, as a test of connectedness. *)
Definition connectedb (ps : list Point) : bool :=
  match ps with
  | [] => true
  | p :: rest =>
      match growComponent (length rest) [p] rest with
      | (_, []) => true
      | (_, _ :: _) => false
      end
  end.

(** Translations, under which the extractor and the painter commute. *)
Definition shiftP (d p : Point) : Point := (p.1 + d.1, p.2 + d.2).

Definition shiftE (d : Point) (e : Edge) : Edge := (shiftP d e.1, shiftP d e.2).

Definition shiftBox (d : Point) (e : Extrema) : Extrema :=
  let '(xm, ym, xM, yM) := e in (xm + d.1, ym + d.2, xM + d.1, yM + d.2).

(** The displacement along a chain of edges, and the sum of the cross
    products of their ends ([signedArea2] on the edges of a polygon). *)
Definition sumDx (es : list Edge) : Z :=
  fold_right (fun '((ax, _), (bx, _)) acc => bx - ax + acc) 0 es.

Definition sumDy (es : list Edge) : Z :=
  fold_right (fun '((_, ay), (_, by_)) acc => by_ - ay + acc) 0 es.

Definition crossSum (es : list Edge) : Z :=
  fold_right (fun '((ax, ay), (bx, by_)) acc => ax * by_ - bx * ay + acc) 0 es.

(** The points of the square of side [n] whose lowest corner is
    [(lo, lo)]. *)
Definition squareOf (lo n : Z) : list Point :=
  flat_map (fun x => map (fun y => (x, y)) (seqZ lo n)) (seqZ lo n).

(** At least two of the three pairs touch by a side. *)
Definition chain3 (p1 p2 p3 : Point) : bool :=
  (adjacent4 p1 p2 && adjacent4 p1 p3)
  || (adjacent4 p1 p2 && adjacent4 p2 p3)
  || (adjacent4 p1 p3 && adjacent4 p2 p3).

Definition distinct3 (p1 p2 p3 : Point) : bool :=
  negb (pointEqb p1 p2) && negb (pointEqb p1 p3) && negb (pointEqb p2 p3).

(** The component has one boundary, which runs clockwise, has its corners
    on corners of pixels of the component, stays within the square
    [-2..3] and covers the pixels of the component and no other pixel of
    that square. *)
Definition outlineOk (c0 : list Point) : bool :=
  let edges := boundaryEdges c0 in
  match boundaryLoops (length edges) edges with
  | [lp] =>
      let vs := loopVertices lp in
      (0 <? signedArea2 vs)
      && forallb (fun v => existsb (fun q => (v.1 =? q.1) || (v.1 =? q.1 + 1)) c0) vs
      && match getPolygonExtrema vs with
         | Some (xm, ym, xM, yM) =>
             (-2 <=? xm) && (xM <=? 3) && (-2 <=? ym) && (yM <=? 3)
         | None => false
         end
      && forallb (fun pt => Bool.eqb (polygonCovers vs pt.1 pt.2) (memPoint pt c0))
                 (squareOf (-2) 6)
  | _ => false
  end.

(** [outlineOk] for every connected component of three pixels that holds
    the origin. *)
Definition triominoesOk : bool :=
  forallb (fun d2 =>
    forallb (fun d3 =>
      if chain3 (0, 0) d2 d3 && distinct3 (0, 0) d2 d3
      then outlineOk [(0, 0); d2; d3] else true)
      (squareOf (-2) 5))
    (squareOf (-2) 5).

(** ** Example data *)

Definition blankMask : GraphicMask := mkMask 0 0 [] ∅ ∅ ∅.

Definition classes : gmap Z (Z * Z * Z * Z) :=
  <[1 := (255, 0, 0, 1)]> (<[2 := (0, 255, 0, 0)]> (<[5 := (0, 0, 255, 1)]> ∅)).

Definition blankEditor : Editor :=
  mkEditor (mkMask 0 0 [] classes ∅ ∅) None 1 4 4 false "select"
           ["create"; "create-brush"; "select"; "edit-add"; "edit-remove"; "lock"]
           [] [].

Definition editor4 : Editor := setEmpty blankEditor.

Definition square : list Point := [(1, 1); (3, 1); (3, 3); (1, 3)].

(** A raster of 14 by 8 pixels with a blob of three pixels in its upper
    right corner and a blob of ten by five pixels below it, both of
    identity [(1, 0, 5)]. *)
Definition twoBlobs : GraphicMask :=
  updateByPolygon [(1, 3); (11, 3); (11, 8); (1, 8)] (1, 0, 5) FillAdd
    (updateByPolygon [(11, 0); (13, 0); (13, 2); (12, 2); (12, 1); (11, 1)]
       (1, 0, 5) FillAdd (empty 14 8 blankMask)).

Definition twoBlobsLocked : GraphicMask :=
  withLocked twoBlobs {[ fuseId (1, 0, 5) ]}.

(** A ring of eight pixels of identity [(1, 0, 5)] around one pixel of
    identity [(0, 0, 2)], in a raster of 5 by 5 pixels. *)
Definition ringMask : GraphicMask :=
  updateByPolygon [(2, 2); (3, 2); (3, 3); (2, 3)] (0, 0, 2) FillAdd
    (updateByPolygon [(1, 1); (4, 1); (4, 4); (1, 4)] (1, 0, 5) FillAdd
       (empty 5 5 blankMask)).

(** The blobs the extractor finds in [twoBlobs] and their pixels. *)
Definition smallBlob : Blob :=
  mkBlob [mkContour [11; 13; 43; 42; 27; 26] External] 3.

Definition largeBlob : Blob :=
  mkBlob [mkContour [46; 56; 131; 121] External] 50.

Definition smallPixels : list Point := [(11, 0); (12, 0); (12, 1)].

Definition largePixels : list Point :=
  flat_map (fun y => map (fun x => (x, y)) (seqZ 1 10)) (seqZ 3 5).

(** The blob the extractor finds in [ringMask]. *)
Definition ringBlob : Blob :=
  mkBlob [mkContour [7; 10; 28; 25] External; mkContour [15; 14; 20; 21] Internal]
         8.

(** The polygon controller of [EditionRemoveController] with a square
    drawn; the last node is the one that follows the pointer. *)
Definition removeController : PolygonController :=
  mkPolygon REMOVE_FROM_INSTANCE (Some [(1, 1); (3, 1); (3, 3); (1, 3); (1, 3)]).

Definition editorWithSelection : Editor := withSelected editor4 (Some (1, 0, 5)).



(** The editor over the raster [twoBlobs], with nothing selected, and with
    the class table [classes] and the identity of the blobs selected. *)
Definition blobsEditor : Editor := withMask blankEditor twoBlobs.

Definition blobsEditorSelected : Editor :=
  withSelected
    (withMask blankEditor
       (mkMask 14 8 (pixels twoBlobs) classes (fusedIds twoBlobs) ∅))
    (Some (1, 0, 5)).

(** [editor4] once a mask has been loaded. *)
Definition loadedEditor : Editor :=
  mkEditor (gmask editor4) (selectedId editor4) 1 4 4 true "select"
           ["create"; "create-brush"; "select"; "edit-add"; "edit-remove"; "lock"]
           [] [].

(** A brush of radius 5 as [activate] leaves it, and one in the middle of
    a stroke that adds to the selection. *)
Definition brush5 : BrushController :=
  mkBrush NEW_INSTANCE false 5 (roiMatrixOf 5) 0 0.

Definition brushAdding : BrushController :=
  mkBrush ADD_TO_INSTANCE true 1 (roiMatrixOf 1) 2 2.

(** A square drawn with the pointer. *)
Definition squareDrawing : list PointerEvent :=
  [PointerMove 0 0; PointerDown 1 1; PointerMove 2 1; PointerDown 3 1;
   PointerDown 3 3; PointerMove 2 3; PointerDown 1 3; PointerMove 1 2].

(** The layers of a new element. *)
Definition defaultLayers : Layers := mkLayers (3 # 5) true (3 # 5).

(** A graph of three nodes, and a [pushNode] that appends the node and
    shows it. *)
Definition triangleSettings : Graph.IGraphSettings :=
  Graph.mkSettings [(0, 1); (1, 2); (2, 0)] ["a"; "b"; "c"]%string.

Definition appendNode (s : @Graph.ShapeData Z) (x y : Z) : @Graph.ShapeData Z :=
  Graph.mkShape (Graph.id s) (Graph.vertices s ++ [x; y]) (Graph.edges s)
                (Graph.visibles s ++ [true]).

Definition noGraph : @Graph.CreateController Z := Graph.mkCreate None [] false.

Definition trianglePresses : list (@Graph.Press Z) :=
  [(1, 10, 10, "g1"%string); (1, 20, 10, "g2"%string); (4, 15, 20, "g3"%string)].

(** [editor4] with nothing selected, and [editorWithSelection] after the
    release that ends a stroke. *)
Definition editor4' : Editor := withSelected editor4 None.

Definition strokeEnd : Editor :=
  dispatchEvent EvUpdate
    (withMask editorWithSelection
       (withFusedIds (gmask editorWithSelection)
          ({[ fuseId (1, 0, 5) ]} ∪ fusedIds (gmask editorWithSelection)))).

(** The element once its first update has activated the mode [select]. *)
Definition selectEditor : Editor := (setMode None "select" blankEditor).1.

(** A brush of radius 1, and [editor4] after a plain left press of it at
    [(2, 2)]: four pixels of a new instance of class 1. *)
Definition brushStart : BrushController :=
  mkBrush NEW_INSTANCE false 1 (roiMatrixOf 1) 0 0.

Definition brushPressed : Editor :=
  withMask (withSelected editor4 (Some (0, 0, 1)))
    (updateByMaskInRoi (roiMatrixOf 1) (roiBox 1 2 2) (0, 0, 1) FillAdd
       (gmask editor4)).

(** * Properties *)

(** Linear arithmetic with divisions and remainders by constants. *)
Ltac divmod_lia := Z.to_euclidean_division_equations; lia.

(** ** The codec *)

Lemma arraysMatch_eq (a b : Identity) : arraysMatch a b = true ↔ a = b.
Proof.
  destruct a as [[a0 a1] a2], b as [[b0 b1] b2].
  unfold arraysMatch, idLow, idHigh, idClass; simpl.
  rewrite !andb_true_iff, !Z.eqb_eq.
  split; [intros [[-> ->] ->]; reflexivity | intros [= -> -> ->]; auto].
Qed.

Lemma arraysMatch_refl (a : Identity) : arraysMatch a a = true.
Proof. apply arraysMatch_eq; reflexivity. Qed.

Lemma fuseId_unfuseId (k : Z) : fuseId (unfuseId k) = k.
Proof. unfold fuseId, unfuseId, idClass, idHigh, idLow; simpl. divmod_lia. Qed.

Lemma unfuseId_fuseId (lo hi cls : Z) :
  isByte lo → isByte hi → unfuseId (fuseId (lo, hi, cls)) = (lo, hi, cls).
Proof.
  unfold isByte, fuseId, unfuseId, idClass, idHigh, idLow; simpl.
  intros Hlo Hhi. repeat f_equal; divmod_lia.
Qed.

Lemma pixelIdentity_withIdentity (p : Pixel) (id : Identity) :
  pixelIdentity (withIdentity p id) = id.
Proof. destruct id as [[a b] c]; reflexivity. Qed.

(** ** The model on the scenarios of the mask engine *)

(** A square drawn on the empty 4 by 4 raster fills its 2 by 2 interior. *)
Example square_fills_interior :
  matchingPixels (updateByPolygon square (1, 0, 5) FillAdd (gmask editor4))
                 (1, 0, 5) None
  = [(1, 1); (2, 1); (1, 2); (2, 2)].
Proof. vm_compute. reflexivity. Qed.

(** The extractor then finds one blob of four pixels, with one external
    contour of four vertices: the square. *)
Example square_is_extracted :
  map (fun '(_, blob) =>
         (nbPixels blob,
          map (fun contour =>
                 (ctype contour, convertIndexToDict (points contour) 5))
              (contours blob)))
      (getBlobs (updateByPolygon square (1, 0, 5) FillAdd (gmask editor4))
                (1, 0, 5) None)
  = [(4, [(External, square)])].
Proof. vm_compute. reflexivity. Qed.

(** Removing what was added gives the empty raster back. *)
Example remove_undoes_add :
  pixels (updateByPolygon square (1, 0, 5) FillRemove
            (updateByPolygon square (1, 0, 5) FillAdd (gmask editor4)))
  = pixels (gmask editor4).
Proof. vm_compute. reflexivity. Qed.

(** The first instance number is [(0, 0)]; once it is in use the next one
    differs. *)
Example next_id_scenario :
  getNextId (gmask editor4) = Ok (0, 0)
  ∧ getNextId (updateByPolygon square (0, 0, 2) FillAdd (gmask editor4))
    = Ok (1, 0).
Proof. split; vm_compute; reflexivity. Qed.

(** The outlines the extractor returns for the two blobs of [twoBlobs]
    cover the pixels of the blobs and no other pixel. *)
Example outlines_cover_their_blobs :
  map snd (getBlobs twoBlobs (1, 0, 5) None) = [smallBlob; largeBlob]
  ∧ matchingPixels
      (updateByPolygon (convertIndexToDict [11; 13; 43; 42; 27; 26] 15)
         (0, 0, 2) FillAdd (empty 14 8 blankMask)) (0, 0, 2) None
    = smallPixels
  ∧ matchingPixels
      (updateByPolygon (convertIndexToDict [46; 56; 131; 121] 15)
         (0, 0, 2) FillAdd (empty 14 8 blankMask)) (0, 0, 2) None
    = largePixels.
Proof. repeat split; vm_compute; reflexivity. Qed.

(** ** The painter *)

Section Painter.
Variable cov : Z → Z → bool.
Variable m : GraphicMask.
Variable target : Identity.
Variable ft : FillType.

Lemma paintWith_lookup (i : nat) :
  pixels (paintWith cov m target ft) !! i
  = (fun p => default p (paintedPixel cov m target ft i p)) <$> pixels m !! i.
Proof.
  unfold paintWith; simpl.
  rewrite lookup_zip_with, list_lookup_imap.
  destruct (pixels m !! i); reflexivity.
Qed.

Lemma paintWith_width : canvasWidth (paintWith cov m target ft) = canvasWidth m.
Proof. reflexivity. Qed.

Lemma paintWith_height : canvasHeight (paintWith cov m target ft) = canvasHeight m.
Proof. reflexivity. Qed.

Lemma paintWith_locked :
  lockedInstances (paintWith cov m target ft) = lockedInstances m.
Proof. reflexivity. Qed.

Lemma paintWith_clsMap : clsMap (paintWith cov m target ft) = clsMap m.
Proof. reflexivity. Qed.

Lemma paintWith_fusedIds :
  fusedIds (paintWith cov m target ft) = fusedIds m
  ∨ fusedIds (paintWith cov m target ft) = {[ fuseId target ]} ∪ fusedIds m.
Proof.
  unfold paintWith; simpl.
  destruct (existsb _ _); [right | left]; reflexivity.
Qed.

Lemma paintWith_fusedIds_mono :
  fusedIds m ⊆ fusedIds (paintWith cov m target ft).
Proof. destruct paintWith_fusedIds as [-> | ->]; set_solver. Qed.

(** A pixel whose identity is locked is handed back as it is. *)
Lemma writeRule_locked (p : Pixel) :
  fuseId (pixelIdentity p) ∈ lockedInstances m →
  writeRule m target ft p = None.
Proof.
  intros Hin. unfold writeRule, isLocked.
  rewrite (bool_decide_eq_true_2 _ Hin).
  destruct ft; [reflexivity | rewrite andb_false_r; reflexivity].
Qed.

Lemma paintWith_locked_pixel (i : nat) (p : Pixel) :
  pixels m !! i = Some p →
  fuseId (pixelIdentity p) ∈ lockedInstances m →
  pixels (paintWith cov m target ft) !! i = Some p.
Proof.
  intros Hp Hin. rewrite paintWith_lookup, Hp; simpl.
  unfold paintedPixel.
  rewrite (writeRule_locked p Hin).
  destruct (cov _ _); reflexivity.
Qed.
End Painter.

(** C2. A pixel that holds a locked identity is left as it is, byte for
    byte, by every polygon paint and every stamp paint, whatever the
    target identity and the fill mode; the paints leave the locked set as
    it is, so this holds for every later paint as well. *)
Theorem locked_pixels_survive_paint (m : GraphicMask) (i : nat) (p : Pixel)
    (target : Identity) (ft : FillType) :
  pixels m !! i = Some p →
  fuseId (pixelIdentity p) ∈ lockedInstances m →
  (∀ vs,
     pixels (updateByPolygon vs target ft m) !! i = Some p
     ∧ lockedInstances (updateByPolygon vs target ft m) = lockedInstances m)
  ∧ (∀ stamp box,
       pixels (updateByMaskInRoi stamp box target ft m) !! i = Some p
       ∧ lockedInstances (updateByMaskInRoi stamp box target ft m)
         = lockedInstances m).
Proof.
  intros Hp Hin; split; intros; (split; [| reflexivity]).
  - apply paintWith_locked_pixel; assumption.
  - apply paintWith_locked_pixel; assumption.
Qed.

Lemma locked_pixels_survive_paint_witness :
  (∀ vs,
     pixels (updateByPolygon vs (0, 0, 2) FillAdd twoBlobsLocked) !! 11%nat
     = Some (mkPixel 1 0 5 0)
     ∧ lockedInstances (updateByPolygon vs (0, 0, 2) FillAdd twoBlobsLocked)
       = lockedInstances twoBlobsLocked)
  ∧ (∀ stamp box,
       pixels (updateByMaskInRoi stamp box (0, 0, 2) FillAdd twoBlobsLocked)
         !! 11%nat = Some (mkPixel 1 0 5 0)
       ∧ lockedInstances
           (updateByMaskInRoi stamp box (0, 0, 2) FillAdd twoBlobsLocked)
         = lockedInstances twoBlobsLocked).
Proof.
  apply (locked_pixels_survive_paint twoBlobsLocked 11 (mkPixel 1 0 5 0)).
  - reflexivity.
  - refine (bool_decide_unpack _ _). vm_compute. exact I.
Defined.

(** ** Contours of the background *)

(** C7. Asking [getPolygons] for the contours of the background
    [[0, 0, 0]] yields the empty list for every mask and every search
    box, whatever the extractor would return: the extractor is not
    consulted. *)
Theorem getPolygons_background
    (extract : GraphicMask → Identity → option Extrema → list (Z * Blob))
    (mask : GraphicMask) (extrema : option Extrema) :
  getPolygonsFrom extract mask (0, 0, 0) extrema = []
  ∧ getPolygons mask (0, 0, 0) extrema = [].
Proof. split; reflexivity. Qed.

(** ** Mode switches and emptying *)

(** C9. [setMode] called with the mode it is already in changes nothing:
    no controller call, no change of [mode], no event; and it throws
    nothing. *)
Theorem setMode_same_mode (newMode : string) (st : Editor) :
  setMode (Some newMode) newMode st = (st, None).
Proof.
  unfold setMode. rewrite bool_decide_eq_true_2; reflexivity.
Qed.

Lemma setMode_changes (prevMode newMode : string) (st : Editor) :
  prevMode ≠ newMode →
  (setMode (Some prevMode) newMode st).2 = None →
  mode (setMode (Some prevMode) newMode st).1 = newMode
  ∧ events (setMode (Some prevMode) newMode st).1 = EvMode newMode :: events st.
Proof.
  intros Hne. unfold setMode.
  rewrite bool_decide_eq_false_2 by congruence.
  destruct (modeEntry (modeKey (Some prevMode)) st);
    destruct (modeEntry newMode st); cbn [fst snd mode events];
    first [discriminate | intros _; split; reflexivity].
Qed.

(** C10. [setEmpty] leaves the editor as it is when the image has no
    width or no height.  Otherwise the mask becomes the empty mask of the
    image's size, a raster of [imageWidth * imageHeight] zero pixels, and
    the selection becomes [[-1, -1, -1]], no component of which is a
    byte. *)
Theorem setEmpty_spec (st : Editor) :
  (imageWidth st = 0 ∨ imageHeight st = 0 → setEmpty st = st)
  ∧ (imageWidth st ≠ 0 → imageHeight st ≠ 0 →
     gmask (setEmpty st) = empty (imageWidth st) (imageHeight st) (gmask st)
     ∧ canvasWidth (gmask (setEmpty st)) = imageWidth st
     ∧ canvasHeight (gmask (setEmpty st)) = imageHeight st
     ∧ pixels (gmask (setEmpty st))
       = replicate (Z.to_nat (imageWidth st * imageHeight st)) zeroPixel
     ∧ selectedId (setEmpty st) = Some (-1, -1, -1))
  ∧ ¬ isByte (-1).
Proof.
  unfold setEmpty. repeat split.
  - intros [H | H]; rewrite H; [reflexivity |].
    rewrite orb_true_r; reflexivity.
  - destruct (Z.eqb_spec (imageWidth st) 0); [contradiction |].
    destruct (Z.eqb_spec (imageHeight st) 0); [contradiction |]. reflexivity.
  - destruct (Z.eqb_spec (imageWidth st) 0); [contradiction |].
    destruct (Z.eqb_spec (imageHeight st) 0); [contradiction |]. reflexivity.
  - destruct (Z.eqb_spec (imageWidth st) 0); [contradiction |].
    destruct (Z.eqb_spec (imageHeight st) 0); [contradiction |]. reflexivity.
  - destruct (Z.eqb_spec (imageWidth st) 0); [contradiction |].
    destruct (Z.eqb_spec (imageHeight st) 0); [contradiction |]. reflexivity.
  - destruct (Z.eqb_spec (imageWidth st) 0); [contradiction |].
    destruct (Z.eqb_spec (imageHeight st) 0); [contradiction |]. reflexivity.
  - unfold isByte; lia.
Qed.

Lemma setEmpty_spec_witness :
  setEmpty (mkEditor twoBlobs (Some (1, 0, 5)) 1 0 4 false "select" [] [] [])
  = mkEditor twoBlobs (Some (1, 0, 5)) 1 0 4 false "select" [] [] []
  ∧ gmask (setEmpty (withMask blankEditor twoBlobs)) = empty 4 4 twoBlobs
  ∧ canvasWidth (gmask (setEmpty (withMask blankEditor twoBlobs))) = 4
  ∧ canvasHeight (gmask (setEmpty (withMask blankEditor twoBlobs))) = 4
  ∧ pixels (gmask (setEmpty (withMask blankEditor twoBlobs)))
    = replicate 16 zeroPixel
  ∧ selectedId (setEmpty (withMask blankEditor twoBlobs)) = Some (-1, -1, -1).
Proof.
  split.
  - apply (proj1 (setEmpty_spec
                    (mkEditor twoBlobs (Some (1, 0, 5)) 1 0 4 false "select"
                              [] [] []))).
    left; reflexivity.
  - apply (proj1 (proj2 (setEmpty_spec (withMask blankEditor twoBlobs))));
      simpl; lia.
Defined.

(** ** Locks *)

Section Locks.
Variable cls : Z.
Variable m : GraphicMask.

Lemma lockAllOfClass_locked :
  lockedInstances (lockAllOfClass cls m)
  = lockedInstances m ∪ knownOfClass cls m.
Proof.
  unfold lockAllOfClass, withLocked, knownOfClass; cbn [lockedInstances].
  apply (set_fold_ind_L
           (fun acc X => acc = lockedInstances m
                               ∪ filter (fun fId => idClass (unfuseId fId) = cls) X)).
  - set_solver.
  - intros x X r Hx ->. cbv beta.
    destruct (Z.eqb_spec (idClass (unfuseId x)) cls); set_solver.
Qed.

Lemma unlockAllOfClass_locked :
  lockedInstances (unlockAllOfClass cls m)
  = lockedInstances m ∖ knownOfClass cls m.
Proof.
  unfold unlockAllOfClass, withLocked, knownOfClass; cbn [lockedInstances].
  apply (set_fold_ind_L
           (fun acc X => acc = lockedInstances m
                               ∖ filter (fun fId => idClass (unfuseId fId) = cls) X)).
  - set_solver.
  - intros x X r Hx ->. cbv beta.
    destruct (Z.eqb_spec (idClass (unfuseId x)) cls); set_solver.
Qed.
End Locks.

Lemma mask_eq (m1 m2 : GraphicMask) :
  canvasWidth m1 = canvasWidth m2 → canvasHeight m1 = canvasHeight m2 →
  pixels m1 = pixels m2 → clsMap m1 = clsMap m2 →
  fusedIds m1 = fusedIds m2 → lockedInstances m1 = lockedInstances m2 →
  m1 = m2.
Proof. destruct m1, m2; simpl; intros; subst; reflexivity. Qed.

(** C8. Locking all of a class adds to the locked set exactly the known
    fused ids whose decoded class is that class; unlocking all of the
    class removes exactly those; doing either a second time changes
    nothing more. *)
Theorem lock_class_set_operations (cls : Z) (m : GraphicMask) :
  lockedInstances (lockAllOfClass cls m)
  = lockedInstances m ∪ knownOfClass cls m
  ∧ lockedInstances (unlockAllOfClass cls m)
    = lockedInstances m ∖ knownOfClass cls m
  ∧ lockAllOfClass cls (lockAllOfClass cls m) = lockAllOfClass cls m
  ∧ unlockAllOfClass cls (unlockAllOfClass cls m) = unlockAllOfClass cls m.
Proof.
  split; [apply lockAllOfClass_locked |].
  split; [apply unlockAllOfClass_locked |].
  split.
  - apply mask_eq; try reflexivity.
    rewrite !lockAllOfClass_locked.
    unfold knownOfClass; simpl. set_solver.
  - apply mask_eq; try reflexivity.
    rewrite !unlockAllOfClass_locked.
    unfold knownOfClass; simpl. set_solver.
Qed.

(** What a click does in class mode: it unlocks the class of the pixel when
    some locked id has that class, and locks it otherwise. *)
Lemma onPointerDownLock_class (x y : Z) (st : Editor) (id : Identity) :
  pixelId (gmask st) (x + y * canvasWidth (gmask st)) = Some id →
  onPointerDownLock LockClass x y st
  = Ok (withMask st
          (if classIsLocked (idClass id) (gmask st)
           then unlockAllOfClass (idClass id) (gmask st)
           else lockAllOfClass (idClass id) (gmask st))).
Proof.
  intros H. unfold onPointerDownLock. rewrite H.
  destruct (classIsLocked _ _); reflexivity.
Qed.

(** ** Target identities *)

Lemma getTargetValue_mask (e : EditionMode) (st st1 : Editor) (v : Identity) :
  getTargetValue e st = Ok (v, st1) → gmask st1 = gmask st.
Proof.
  unfold getTargetValue. destruct e.
  - destruct (selectedId st); intros [= <- <-]; reflexivity.
  - destruct (selectedId st); intros [= <- <-]; reflexivity.
  - destruct (clsMap (gmask st) !! targetClass st) as [[[[r g] b] isInst] |];
      simpl.
    + destruct (truthy isInst); simpl.
      * destruct (getNextId (gmask st)); simpl; [| discriminate].
        intros [= <- <-]; reflexivity.
      * intros [= <- <-]; reflexivity.
    + intros [= <- <-]; reflexivity.
Qed.







(** ** The known ids *)

Lemma onKeyDown_commit (c : PolygonController) (st st1 : Editor)
    (nodes : list Point) (newValue : Identity) :
  tempPolygon c = Some nodes →
  2 < Z.of_nat (length (removelast nodes)) →
  getTargetValue (polygonEditionMode c) st = Ok (newValue, st1) →
  onKeyDown KeyEnter c st
  = Ok (mkPolygon (polygonEditionMode c) None,
        dispatchEvent EvUpdate
          (withMask st1
             (updateByPolygon (removelast nodes) newValue
                (fillTypeOf (polygonEditionMode c))
                (withFusedIds (gmask st1)
                   ({[ fuseId newValue ]} ∪ fusedIds (gmask st1)))))).
Proof.
  intros Hnodes Hlen Hget. unfold onKeyDown. rewrite Hnodes.
  destruct (Z.ltb_spec 2 (Z.of_nat (length (removelast nodes)))); [| lia].
  rewrite Hget. reflexivity.
Qed.

Lemma updateByPolygon_fusedIds_mono (vs : list Point) (target : Identity)
    (ft : FillType) (m : GraphicMask) :
  fusedIds m ⊆ fusedIds (updateByPolygon vs target ft m).
Proof. apply paintWith_fusedIds_mono. Qed.

Lemma updateByMaskInRoi_fusedIds_mono (stamp : list bool) (box : Extrema)
    (target : Identity) (ft : FillType) (m : GraphicMask) :
  fusedIds m ⊆ fusedIds (updateByMaskInRoi stamp box target ft m).
Proof. apply paintWith_fusedIds_mono. Qed.

Lemma onKeyDown_fusedIds_mono (key : Key) (c c' : PolygonController)
    (st st' : Editor) :
  onKeyDown key c st = Ok (c', st') →
  fusedIds (gmask st) ⊆ fusedIds (gmask st').
Proof.
  unfold onKeyDown. destruct key; try (intros [= <- <-]; reflexivity).
  destruct (tempPolygon c) as [nodes |]; [| intros [= <- <-]; reflexivity].
  destruct (2 <? _); [| intros [= <- <-]; reflexivity].
  destruct (getTargetValue _ st) as [[v st1] | e] eqn:Hget; simpl;
    [| discriminate].
  intros [= <- <-]. cbn [gmask dispatchEvent withMask].
  etransitivity; [| apply updateByPolygon_fusedIds_mono].
  cbn [fusedIds withFusedIds].
  rewrite (getTargetValue_mask _ _ _ _ Hget). set_solver.
Qed.

Lemma onPointerDownBrush_fusedIds_mono (button : Z) (ctrlKey shiftKey : bool)
    (x y : Z) (c c' : BrushController) (st st' : Editor) :
  onPointerDownBrush button ctrlKey shiftKey x y c st = Ok (c', st') →
  fusedIds (gmask st) ⊆ fusedIds (gmask st').
Proof.
  unfold onPointerDownBrush.
  destruct (button =? 1); [intros [= <- <-]; reflexivity |].
  destruct (getTargetValue _ st) as [[v st1] | e] eqn:Hget; simpl;
    [| discriminate].
  intros [= <- <-]. cbn [gmask withMask].
  rewrite <- (getTargetValue_mask _ _ _ _ Hget).
  apply updateByMaskInRoi_fusedIds_mono.
Qed.

Lemma onPointerMoveBrush_fusedIds_mono (newX newY dx dy : Z)
    (c c' : BrushController) (st st' : Editor) :
  onPointerMoveBrush newX newY dx dy c st = Ok (c', st') →
  fusedIds (gmask st) ⊆ fusedIds (gmask st').
Proof.
  unfold onPointerMoveBrush.
  destruct (isActive c); [| intros [= <- <-]; reflexivity].
  destruct (getTargetValue _ st) as [[v1 st1] | e] eqn:Hget1; simpl;
    [| discriminate].
  destruct (getTargetValue _ (withMask st1 _)) as [[v2 st3] | e] eqn:Hget2;
    simpl; [| discriminate].
  intros [= <- <-]. cbn [gmask withMask].
  etransitivity; [| apply updateByPolygon_fusedIds_mono].
  rewrite (getTargetValue_mask _ _ _ _ Hget2). cbn [gmask withMask].
  rewrite <- (getTargetValue_mask _ _ _ _ Hget1).
  apply updateByMaskInRoi_fusedIds_mono.
Qed.

Lemma onPointerUpBrush_fusedIds_mono (c c' : BrushController)
    (st st' : Editor) :
  onPointerUpBrush c st = Ok (c', st') →
  fusedIds (gmask st) ⊆ fusedIds (gmask st').
Proof.
  unfold onPointerUpBrush.
  destruct (isActive c); [| intros [= <- <-]; reflexivity].
  destruct (selectedId st); [| discriminate].
  intros [= <- <-]. cbn [gmask dispatchEvent withMask fusedIds withFusedIds].
  set_solver.
Qed.

(** C3, as the controllers have it.  Committing a polygon of more than two
    vertices adds the fused id of the target to the known ids before the
    polygon is painted, in both fill modes and whether or not a pixel is
    written; releasing an active brush stroke adds the fused id of the
    selection and writes no pixel; and no handler of the two paint
    controllers ever takes an id out of the known ids. *)
Theorem paint_commit_registers_target :
  (∀ c st st1 nodes newValue,
     tempPolygon c = Some nodes →
     2 < Z.of_nat (length (removelast nodes)) →
     getTargetValue (polygonEditionMode c) st = Ok (newValue, st1) →
     ∃ c' st', onKeyDown KeyEnter c st = Ok (c', st')
       ∧ fusedIds (gmask st') = {[ fuseId newValue ]} ∪ fusedIds (gmask st))
  ∧ (∀ c st id,
       isActive c = true → selectedId st = Some id →
       ∃ c' st', onPointerUpBrush c st = Ok (c', st')
         ∧ fusedIds (gmask st') = {[ fuseId id ]} ∪ fusedIds (gmask st)
         ∧ pixels (gmask st') = pixels (gmask st))
  ∧ (∀ key c st c' st',
       onKeyDown key c st = Ok (c', st') →
       fusedIds (gmask st) ⊆ fusedIds (gmask st'))
  ∧ (∀ button ctrlKey shiftKey x y c st c' st',
       onPointerDownBrush button ctrlKey shiftKey x y c st = Ok (c', st') →
       fusedIds (gmask st) ⊆ fusedIds (gmask st'))
  ∧ (∀ newX newY dx dy c st c' st',
       onPointerMoveBrush newX newY dx dy c st = Ok (c', st') →
       fusedIds (gmask st) ⊆ fusedIds (gmask st'))
  ∧ (∀ c st c' st',
       onPointerUpBrush c st = Ok (c', st') →
       fusedIds (gmask st) ⊆ fusedIds (gmask st')).
Proof.
  repeat split.
  - intros c st st1 nodes newValue Hnodes Hlen Hget.
    eexists _, _. split; [apply onKeyDown_commit; eassumption |].
    cbn [gmask dispatchEvent withMask].
    rewrite (getTargetValue_mask _ _ _ _ Hget).
    destruct (paintWith_fusedIds
                (polygonCovers (removelast nodes))
                (withFusedIds (gmask st)
                   ({[ fuseId newValue ]} ∪ fusedIds (gmask st)))
                newValue (fillTypeOf (polygonEditionMode c))) as [H | H];
      unfold updateByPolygon; rewrite H; cbn [fusedIds withFusedIds];
      set_solver.
  - intros c st id Hactive Hsel. unfold onPointerUpBrush.
    rewrite Hactive, Hsel. eexists _, _.
    split; [reflexivity |]. split; reflexivity.
  - intros; eapply onKeyDown_fusedIds_mono; eassumption.
  - intros; eapply onPointerDownBrush_fusedIds_mono; eassumption.
  - intros; eapply onPointerMoveBrush_fusedIds_mono; eassumption.
  - intros; eapply onPointerUpBrush_fusedIds_mono; eassumption.
Qed.

Lemma paint_commit_registers_target_witness :
  ∃ c' st',
    onKeyDown KeyEnter removeController editorWithSelection = Ok (c', st')
    ∧ fusedIds (gmask st')
      = {[ fuseId (1, 0, 5) ]} ∪ fusedIds (gmask editorWithSelection).
Proof.
  apply (proj1 paint_commit_registers_target removeController
           editorWithSelection editorWithSelection
           [(1, 1); (3, 1); (3, 3); (1, 3); (1, 3)] (1, 0, 5)).
  - reflexivity.
  - simpl. lia.
  - reflexivity.
Defined.

(** C3 as stated fails: in remove mode, on an empty raster, the
    committed polygon writes no pixel, and the fused id of its target is
    among the known ids afterwards all the same. *)
Lemma known_id_added_without_pixel_written :
  ∃ c' st',
    onKeyDown KeyEnter removeController editorWithSelection = Ok (c', st')
    ∧ pixels (gmask st') = pixels (gmask editorWithSelection)
    ∧ (fuseId (1, 0, 5) ∉ fusedIds (gmask editorWithSelection))
    ∧ (fuseId (1, 0, 5) ∈ fusedIds (gmask st')).
Proof.
  eexists _, _. split; [reflexivity |].
  split; [vm_compute; reflexivity |].
  split.
  - refine (bool_decide_unpack _ _). vm_compute. exact I.
  - refine (bool_decide_unpack _ _). vm_compute. exact I.
Qed.

(** ** Persistence *)

Lemma b64val_b64char (n : Z) :
  0 <= n < 64 → b64val (b64char n) = Some n ∧ isPad (b64char n) = false.
Proof.
  intros Hn.
  assert (Hall :
    forallb (fun k => match b64val (b64char k) with
                      | Some v => (v =? k) && negb (isPad (b64char k))
                      | None => false
                      end) (seqZ 0 64) = true) by (vm_compute; reflexivity).
  rewrite forallb_forall in Hall.
  specialize (Hall n).
  destruct (b64val (b64char n)) as [v |].
  - rewrite andb_true_iff, Z.eqb_eq, negb_true_iff in Hall.
    destruct Hall as [-> ->]; [| split; reflexivity].
    apply list_elem_of_In, elem_of_seqZ. lia.
  - assert (false = true); [| discriminate].
    apply Hall, list_elem_of_In, elem_of_seqZ. lia.
Qed.

Section Sextets.
Variables a b c : Z.
Hypothesis Ha : isByte a.
Hypothesis Hb : isByte b.
Hypothesis Hc : isByte c.

Lemma decode_one :
  base64Decode [b64char (a / 4); b64char (a mod 4 * 16); "="%char; "="%char]
  = Some [a].
Proof.
  clear Hb Hc. unfold isByte in *. cbn [base64Decode].
  destruct (b64val_b64char (a / 4)) as [-> _]; [divmod_lia |].
  destruct (b64val_b64char (a mod 4 * 16)) as [-> _]; [divmod_lia |].
  simpl. f_equal. f_equal. divmod_lia.
Qed.

Lemma decode_two :
  base64Decode [b64char (a / 4); b64char (a mod 4 * 16 + b / 16);
                b64char (b mod 16 * 4); "="%char]
  = Some [a; b].
Proof.
  clear Hc. unfold isByte in *. cbn [base64Decode].
  destruct (b64val_b64char (a / 4)) as [-> _]; [divmod_lia |].
  destruct (b64val_b64char (a mod 4 * 16 + b / 16)) as [-> _]; [divmod_lia |].
  destruct (b64val_b64char (b mod 16 * 4)) as [-> ->]; [divmod_lia |].
  simpl. f_equal. f_equal; [divmod_lia |]. f_equal. divmod_lia.
Qed.

Lemma decode_three (rest : list ascii) :
  base64Decode (b64char (a / 4) :: b64char (a mod 4 * 16 + b / 16)
                :: b64char (b mod 16 * 4 + c / 64) :: b64char (c mod 64)
                :: rest)
  = tl ← base64Decode rest; Some (a :: b :: c :: tl).
Proof.
  unfold isByte in *. cbn [base64Decode].
  destruct (b64val_b64char (a / 4)) as [-> _]; [divmod_lia |].
  destruct (b64val_b64char (a mod 4 * 16 + b / 16)) as [-> _]; [divmod_lia |].
  destruct (b64val_b64char (b mod 16 * 4 + c / 64)) as [-> ->]; [divmod_lia |].
  destruct (b64val_b64char (c mod 64)) as [-> ->]; [divmod_lia |].
  cbn [mbind option_bind].
  destruct (base64Decode rest) as [tl |]; [| reflexivity].
  cbn [mbind option_bind]. f_equal.
  f_equal; [divmod_lia |]. f_equal; [divmod_lia |]. f_equal. divmod_lia.
Qed.
End Sextets.

(** Decoding undoes encoding, three bytes at a time. *)
Lemma base64Decode_base64Encode_bounded (n : nat) (bs : list Z) :
  (length bs ≤ n)%nat → Forall isByte bs →
  base64Decode (base64Encode bs) = Some bs.
Proof.
  revert bs. induction n as [| n IH]; intros bs Hlen Hbs.
  - destruct bs; [reflexivity | simpl in Hlen; lia].
  - destruct bs as [| a [| b [| c rest]]]; [reflexivity | | |].
    + apply decode_one. by inversion Hbs.
    + inversion Hbs as [| ? ? Ha Hbs']; subst.
      inversion Hbs' as [| ? ? Hb _]; subst.
      apply decode_two; assumption.
    + inversion Hbs as [| ? ? Ha Hbs1]; subst.
      inversion Hbs1 as [| ? ? Hb Hbs2]; subst.
      inversion Hbs2 as [| ? ? Hc Hrest]; subst.
      change (base64Encode (a :: b :: c :: rest))
        with (b64char (a / 4) :: b64char (a mod 4 * 16 + b / 16)
              :: b64char (b mod 16 * 4 + c / 64) :: b64char (c mod 64)
              :: base64Encode rest).
      rewrite decode_three by assumption.
      rewrite IH; [reflexivity | simpl in Hlen; lia | assumption].
Qed.

Lemma base64Decode_base64Encode (bs : list Z) :
  Forall isByte bs → base64Decode (base64Encode bs) = Some bs.
Proof. apply (base64Decode_base64Encode_bounded (length bs)); lia. Qed.

(** Cutting a raster into pixels and laying the pixels out again gives
    the raster back when its length is a multiple of four. *)
Lemma flatten_pixelsOfBytes (n : nat) (bs : list Z) :
  length bs = (4 * n)%nat →
  flat_map (fun p => [ch0 p; ch1 p; ch2 p; ch3 p]) (pixelsOfBytes bs) = bs.
Proof.
  revert bs. induction n as [| n IH]; intros bs Hlen.
  - destruct bs; [reflexivity | discriminate].
  - destruct bs as [| a [| b [| c [| d rest]]]]; simpl in Hlen; try lia.
    simpl. rewrite IH by lia. reflexivity.
Qed.

Lemma pixelsOfBytes_flatten (ps : list Pixel) :
  pixelsOfBytes (flat_map (fun p => [ch0 p; ch1 p; ch2 p; ch3 p]) ps) = ps.
Proof.
  induction ps as [| [a b c d] ps IH]; [reflexivity |].
  simpl. rewrite IH. reflexivity.
Qed.

Lemma setBase64_encoded (m : GraphicMask) (R : list Z) :
  Forall isByte R →
  Z.of_nat (length R) = canvasWidth m * canvasHeight m * 4 →
  setBase64 (string_of_list_ascii (base64Encode R)) m
  = Ok (withPixels m (pixelsOfBytes R)).
Proof.
  intros HR Hlen. unfold setBase64.
  rewrite list_ascii_of_string_of_list_ascii.
  rewrite (base64Decode_base64Encode R HR).
  rewrite Hlen, Z.eqb_refl. reflexivity.
Qed.

(** C5. A raster of bytes of the size of the canvas, handed to [setMask]
    as base64 text, is stored byte for byte, and [getMask] returns the
    same text. *)
Theorem mask_round_trip (st : Editor) (R : list Z) :
  Forall isByte R →
  Z.of_nat (length R) = canvasWidth (gmask st) * canvasHeight (gmask st) * 4 →
  ∃ st', setMask (string_of_list_ascii (base64Encode R)) st = Ok st'
    ∧ rasterBytes (gmask st') = R
    ∧ getMask st' = string_of_list_ascii (base64Encode R).
Proof.
  intros HR Hlen. unfold setMask. cbn [gmask].
  rewrite (setBase64_encoded (gmask st) R HR Hlen). cbn [bind].
  eexists. split; [reflexivity |].
  assert (Hflat : rasterBytes (withPixels (gmask st) (pixelsOfBytes R)) = R).
  { unfold rasterBytes; cbn [pixels withPixels].
    apply (flatten_pixelsOfBytes
             (Z.to_nat (canvasWidth (gmask st) * canvasHeight (gmask st)))).
    lia. }
  split; [exact Hflat |].
  unfold getMask, getBase64. cbn [gmask withMask].
  rewrite Hflat. reflexivity.
Qed.

(** The raster of the square painted on the empty 4 by 4 mask. *)
Lemma mask_round_trip_witness :
  ∃ st',
    setMask
      (string_of_list_ascii
         (base64Encode
            (rasterBytes (updateByPolygon square (1, 0, 5) FillAdd
                            (gmask editor4)))))
      editor4 = Ok st'
    ∧ rasterBytes (gmask st')
      = rasterBytes (updateByPolygon square (1, 0, 5) FillAdd (gmask editor4))
    ∧ getMask st'
      = string_of_list_ascii
          (base64Encode
             (rasterBytes (updateByPolygon square (1, 0, 5) FillAdd
                             (gmask editor4)))).
Proof.
  apply (mask_round_trip editor4).
  - refine (bool_decide_unpack _ _). vm_compute. exact I.
  - reflexivity.
Defined.

(** The other way round: the text [getMask] returns, handed back to
    [setMask], restores the pixels. *)
Lemma setMask_getMask (st : Editor) :
  Forall isByte (rasterBytes (gmask st)) →
  Z.of_nat (length (pixels (gmask st)))
  = canvasWidth (gmask st) * canvasHeight (gmask st) →
  ∃ st', setMask (getMask st) st = Ok st' ∧ pixels (gmask st') = pixels (gmask st).
Proof.
  intros Hb Hlen. unfold setMask, getMask, getBase64. cbn [gmask].
  rewrite (setBase64_encoded (gmask st) _ Hb).
  - cbn [bind]. eexists. split; [reflexivity |].
    cbn [gmask withMask pixels withPixels]. apply pixelsOfBytes_flatten.
  - unfold rasterBytes. rewrite <- Hlen.
    generalize (pixels (gmask st)). intros ps.
    induction ps as [| p ps IH]; [reflexivity |].
    cbn [flat_map app length] in *. lia.
Qed.

(** ** The small-blob filter *)

Lemma applyPaint_width (m : GraphicMask) (call : PaintCall) :
  canvasWidth (applyPaint m call) = canvasWidth m.
Proof. destruct call as [[arr id] ft]; reflexivity. Qed.

Lemma filterContour_applyPaint (targetId : Identity) (m : GraphicMask)
    (contour : Contour) :
  filterContour targetId m contour
  = applyPaint m
      (convertIndexToDict (points contour) (canvasWidth m + 1), targetId,
       match ctype contour with External => FillRemove | Internal => FillAdd end).
Proof. unfold filterContour, applyPaint. destruct (ctype contour); reflexivity. Qed.

(** The paints of one blob, one per contour in the order of the blob; the
    width of the canvas, which the conversion of the contour points reads
    before every paint, does not change on the way. *)
Lemma filterContours_calls (targetId : Identity) (cs : list Contour)
    (m : GraphicMask) :
  fold_left (filterContour targetId) cs m
  = fold_left applyPaint
      (map (fun contour =>
              (convertIndexToDict (points contour) (canvasWidth m + 1),
               targetId,
               match ctype contour with
               | External => FillRemove
               | Internal => FillAdd
               end)) cs) m.
Proof.
  revert m. induction cs as [| contour cs IH]; intros m; [reflexivity |].
  cbn [fold_left map]. rewrite IH, filterContour_applyPaint.
  rewrite applyPaint_width. reflexivity.
Qed.

Lemma fold_applyPaint_width (calls : list PaintCall) (m : GraphicMask) :
  canvasWidth (fold_left applyPaint calls m) = canvasWidth m.
Proof.
  revert m. induction calls as [| call calls IH]; intros m; [reflexivity |].
  cbn [fold_left]. rewrite IH. apply applyPaint_width.
Qed.

Lemma filterBlobs_calls (targetId : Identity) (blobMinSize : Z)
    (blobs : list (Z * Blob)) (m : GraphicMask) :
  fold_left
    (fun m '(_, blob) =>
       if nbPixels blob <? blobMinSize
       then fold_left (filterContour targetId) (contours blob) m
       else m)
    blobs m
  = fold_left applyPaint
      (filterPaintCalls (canvasWidth m) targetId blobMinSize blobs) m.
Proof.
  revert m. induction blobs as [| [k blob] blobs IH]; intros m; [reflexivity |].
  cbn [fold_left]. rewrite IH.
  change (filterPaintCalls (canvasWidth m) targetId blobMinSize
            ((k, blob) :: blobs))
    with (blobPaintCalls (canvasWidth m) targetId blobMinSize blob
          ++ filterPaintCalls (canvasWidth m) targetId blobMinSize blobs).
  rewrite fold_left_app. unfold blobPaintCalls.
  destruct (nbPixels blob <? blobMinSize).
  - rewrite filterContours_calls, fold_applyPaint_width. reflexivity.
  - reflexivity.
Qed.

Lemma filterId_calls (targetId : Identity) (blobMinSize : Z) (m : GraphicMask) :
  filterId targetId blobMinSize m
  = fold_left applyPaint
      (filterPaintCalls (canvasWidth m) targetId blobMinSize
         (getBlobs m targetId None)) m.
Proof. apply filterBlobs_calls. Qed.

(** C4, as the filter has it.  [filterId] paints, for every blob below the
    size and in the order in which the blob lists its contours, each
    external contour with ['remove'] and each other contour with ['add'],
    for the filtered identity; blobs of the size or above are not painted;
    nothing puts the holes before the removal. *)
Theorem filterId_paints_contours_in_order (targetId : Identity)
    (blobMinSize : Z) (m : GraphicMask) :
  filterId targetId blobMinSize m
  = fold_left applyPaint
      (filterPaintCalls (canvasWidth m) targetId blobMinSize
         (getBlobs m targetId None)) m
  ∧ ∀ blob,
      (blobMinSize <= nbPixels blob →
       blobPaintCalls (canvasWidth m) targetId blobMinSize blob = [])
      ∧ (nbPixels blob < blobMinSize →
         length (blobPaintCalls (canvasWidth m) targetId blobMinSize blob)
         = length (contours blob)
         ∧ ∀ k contour,
             contours blob !! k = Some contour →
             blobPaintCalls (canvasWidth m) targetId blobMinSize blob !! k
             = Some (convertIndexToDict (points contour) (canvasWidth m + 1),
                     targetId,
                     match ctype contour with
                     | External => FillRemove
                     | Internal => FillAdd
                     end)).
Proof.
  split; [apply filterId_calls |].
  intros blob. unfold blobPaintCalls. split; intros Hsize.
  - destruct (Z.ltb_spec (nbPixels blob) blobMinSize); [lia | reflexivity].
  - destruct (Z.ltb_spec (nbPixels blob) blobMinSize); [| lia].
    split; [apply length_map |].
    intros k contour Hk. rewrite list_lookup_fmap, Hk. reflexivity.
Qed.

Lemma filterId_paints_contours_in_order_witness :
  blobPaintCalls 5 (1, 0, 5) 10 ringBlob !! 0%nat
  = Some ([(1, 1); (4, 1); (4, 4); (1, 4)], (1, 0, 5), FillRemove)
  ∧ blobPaintCalls 5 (1, 0, 5) 10 ringBlob !! 1%nat
    = Some ([(3, 2); (2, 2); (2, 3); (3, 3)], (1, 0, 5), FillAdd)
  ∧ blobPaintCalls 5 (1, 0, 5) 8 ringBlob = [].
Proof.
  destruct (filterId_paints_contours_in_order (1, 0, 5) 10 ringMask)
    as [_ Hblob].
  destruct (filterId_paints_contours_in_order (1, 0, 5) 8 ringMask)
    as [_ Hblob8].
  split; [| split].
  - apply (proj2 (proj2 (Hblob ringBlob) ltac:(simpl; lia)) 0%nat
             (mkContour [7; 10; 28; 25] External) eq_refl).
  - apply (proj2 (proj2 (Hblob ringBlob) ltac:(simpl; lia)) 1%nat
             (mkContour [15; 14; 20; 21] Internal) eq_refl).
  - apply (proj1 (Hblob8 ringBlob)). simpl. lia.
Defined.

(** C4 as stated fails on the ring: the extractor lists the
    outer contour first, so the hole is painted after the removal; and the
    pixel of identity [(0, 0, 2)] that the hole encloses is overwritten,
    with [(1, 0, 5)], and with the background had the two paints been made
    the other way round. *)
Lemma hole_painted_after_removal :
  map snd (getBlobs ringMask (1, 0, 5) None) = [ringBlob]
  ∧ filterPaintCalls 5 (1, 0, 5) 10 (getBlobs ringMask (1, 0, 5) None)
    = [([(1, 1); (4, 1); (4, 4); (1, 4)], (1, 0, 5), FillRemove);
       ([(3, 2); (2, 2); (2, 3); (3, 3)], (1, 0, 5), FillAdd)]
  ∧ pixelAt ringMask 2 2 = Some (0, 0, 2)
  ∧ pixelAt (filterId (1, 0, 5) 10 ringMask) 2 2 = Some (1, 0, 5)
  ∧ pixelAt
      (fold_left applyPaint
         [([(3, 2); (2, 2); (2, 3); (3, 3)], (1, 0, 5), FillAdd);
          ([(1, 1); (4, 1); (4, 4); (1, 4)], (1, 0, 5), FillRemove)]
         ringMask) 2 2
    = Some (0, 0, 0).
Proof. repeat split; vm_compute; reflexivity. Qed.

(** Column and row determine the pixel. *)
Lemma col_row_inj (m : GraphicMask) (i j : nat) :
  colOf m i = colOf m j → rowOf m i = rowOf m j → i = j.
Proof.
  unfold colOf, rowOf. intros Hc Hr.
  destruct (Z.eq_dec (canvasWidth m) 0) as [Hw | Hw].
  - rewrite Hw, !Z.mod_0_r in Hc. lia.
  - pose proof (Z.div_mod (Z.of_nat i) (canvasWidth m) Hw).
    pose proof (Z.div_mod (Z.of_nat j) (canvasWidth m) Hw).
    apply Nat2Z.inj. congruence.
Qed.

(** In a raster of [canvasWidth * canvasHeight] pixels every pixel lies in
    the scan region of a search without box. *)
Lemma inScanRegion_whole (m : GraphicMask) (i : nat) (p : Pixel) :
  0 < canvasWidth m →
  Z.of_nat (length (pixels m)) = canvasWidth m * canvasHeight m →
  pixels m !! i = Some p →
  inScanRegion m None (colOf m i) (rowOf m i) = true.
Proof.
  intros Hw Hlen Hp. apply lookup_lt_Some in Hp.
  unfold inScanRegion, colOf, rowOf.
  assert (0 <= Z.of_nat i < canvasWidth m * canvasHeight m) as Hi by lia.
  pose proof (Z.mod_pos_bound (Z.of_nat i) (canvasWidth m) Hw).
  assert (0 <= Z.of_nat i / canvasWidth m) by (apply Z.div_pos; lia).
  assert (Z.of_nat i / canvasWidth m < canvasHeight m)
    by (apply Z.div_lt_upper_bound; lia).
  rewrite !andb_true_iff, !Z.leb_le, !Z.ltb_lt. lia.
Qed.

Lemma matchingPixels_elem (m : GraphicMask) (target : Identity)
    (extrema : option Extrema) (pt : Point) :
  pt ∈ matchingPixels m target extrema
  ↔ ∃ i p, pixels m !! i = Some p
           ∧ pt = (colOf m i, rowOf m i)
           ∧ inScanRegion m extrema (colOf m i) (rowOf m i) = true
           ∧ pixelIdentity p = target.
Proof.
  unfold matchingPixels. rewrite list_elem_of_omap. split.
  - intros [[i p] [Hin Hsome]].
    apply elem_of_lookup_imap in Hin as (i' & p' & [= -> ->] & Hp).
    destruct (inScanRegion _ _ _ _) eqn:Hreg; [| discriminate].
    destruct (arraysMatch _ _) eqn:Hmatch; [| discriminate].
    simpl in Hsome. injection Hsome as <-.
    exists i', p'. apply arraysMatch_eq in Hmatch. auto.
  - intros (i & p & Hp & -> & Hreg & Hid).
    exists (i, p). split.
    + apply elem_of_lookup_imap. exists i, p. auto.
    + rewrite Hreg, Hid, arraysMatch_refl. reflexivity.
Qed.

Section SmallBlob.
Variable m : GraphicMask.
Variable id : Identity.
Variable arr : list Point.

Hypothesis Hid : id ≠ background.
Hypothesis Hunlocked : fuseId id ∉ lockedInstances m.

(** What the removal of one outline does to a pixel. *)
Lemma remove_lookup (i : nat) (p : Pixel) :
  pixels m !! i = Some p →
  pixels (updateByPolygon arr id FillRemove m) !! i
  = Some (if polygonCovers arr (colOf m i) (rowOf m i)
             && arraysMatch (pixelIdentity p) id
          then withIdentity p background else p).
Proof.
  intros Hp. unfold updateByPolygon.
  rewrite paintWith_lookup, Hp. cbn [fmap option_fmap option_map].
  unfold paintedPixel, writeRule.
  destruct (polygonCovers arr _ _); [| reflexivity].
  destruct (arraysMatch (pixelIdentity p) id) eqn:Hmatch; [| reflexivity].
  apply arraysMatch_eq in Hmatch. unfold isLocked.
  rewrite Hmatch, bool_decide_eq_false_2 by assumption. reflexivity.
Qed.

Lemma remove_matching (pt : Point) :
  pt ∈ matchingPixels (updateByPolygon arr id FillRemove m) id None
  ↔ pt ∈ matchingPixels m id None ∧ polygonCovers arr pt.1 pt.2 = false.
Proof.
  rewrite !matchingPixels_elem. split.
  - intros (i & p' & Hp' & -> & Hreg & Hp'id).
    destruct (pixels m !! i) as [p |] eqn:Hp.
    + rewrite (remove_lookup i p Hp) in Hp'. injection Hp' as <-.
      change (colOf (updateByPolygon arr id FillRemove m) i)
      with (colOf m i) in *.
      change (rowOf (updateByPolygon arr id FillRemove m) i)
      with (rowOf m i) in *.
      destruct (polygonCovers arr _ _) eqn:Hcov; cbn [andb] in Hp'id.
      * destruct (arraysMatch (pixelIdentity p) id) eqn:Hmatch.
        -- rewrite pixelIdentity_withIdentity in Hp'id. congruence.
        -- apply arraysMatch_eq in Hp'id. congruence.
      * split; [| reflexivity]. exists i, p. auto.
    + apply lookup_ge_None in Hp. apply lookup_lt_Some in Hp'.
      unfold updateByPolygon, paintWith in Hp'. cbn [pixels] in Hp'.
      rewrite length_zip_with, length_imap in Hp'. lia.
  - intros [(i & p & Hp & -> & Hreg & Hpid) Hcov]. cbn [fst snd] in Hcov.
    exists i, p. split; [| auto].
    rewrite (remove_lookup i p Hp), Hcov. reflexivity.
Qed.
End SmallBlob.

(** The filter on a raster for which the extractor returns a blob of 3
    pixels and a blob of 50, the small one with a single external contour
    whose outline covers the pixels [S3] of the small blob and none of the
    pixels [S50] of the large one: the pixels of [S3] become background,
    every other pixel is as it was. *)
Lemma filterId_removes_outlined_blob (m : GraphicMask) (id : Identity)
    (S3 S50 : list Point) (b3 b50 : Blob) (c : Contour) :
  let outline := convertIndexToDict (points c) (canvasWidth m + 1) in
  0 < canvasWidth m →
  Z.of_nat (length (pixels m)) = canvasWidth m * canvasHeight m →
  matchingPixels m id None ≡ₚ S3 ++ S50 →
  length S3 = 3%nat → length S50 = 50%nat →
  fuseId id ∉ lockedInstances m →
  map snd (getBlobs m id None) ≡ₚ [b3; b50] →
  nbPixels b3 = 3 → nbPixels b50 = 50 →
  contours b3 = [c] → ctype c = External →
  Forall (fun pt => polygonCovers outline pt.1 pt.2 = true) S3 →
  Forall (fun pt => polygonCovers outline pt.1 pt.2 = false) S50 →
  (∀ pt, pt ∈ matchingPixels (filterId id 10 m) id None ↔ pt ∈ S50)
  ∧ (∀ i p, pixels m !! i = Some p → (colOf m i, rowOf m i) ∈ S3 →
       pixels (filterId id 10 m) !! i = Some (withIdentity p background))
  ∧ (∀ i p, pixels m !! i = Some p → (colOf m i, rowOf m i) ∉ S3 →
       pixels (filterId id 10 m) !! i = Some p).
Proof.
  intros outline Hw Hlen Hpix Hlen3 Hlen50 Hunlocked Hblobs Hn3 Hn50 Hcs
         Hext Hin Hout.
  assert (Hid : id ≠ background).
  { intros ->. apply Permutation_length in Hblobs. discriminate Hblobs. }
  assert (Hfilter : filterId id 10 m = updateByPolygon outline id FillRemove m).
  { rewrite filterId_calls.
    apply Permutation_sym, Permutation_length_2_inv in Hblobs.
    destruct (getBlobs m id None) as [| [k1 x1] [| [k2 x2] [| ? ?]]];
      cbn [map snd] in Hblobs; destruct Hblobs as [Hb | Hb]; try discriminate;
      injection Hb as -> ->;
      cbn [filterPaintCalls flat_map]; unfold blobPaintCalls;
      rewrite Hn3, Hn50, Hcs;
      change (3 <? 10) with true; change (50 <? 10) with false;
      cbn [map app]; rewrite Hext; reflexivity. }
  rewrite Hfilter.
  rewrite Forall_forall in Hin, Hout.
  assert (Hmem : ∀ pt, pt ∈ matchingPixels m id None ↔ pt ∈ S3 ∨ pt ∈ S50).
  { intros pt. rewrite Hpix. apply elem_of_app. }
  split; [| split].
  - intros pt. rewrite (remove_matching m id outline Hid Hunlocked), Hmem.
    split.
    + intros [[H3 | H50] Hcov]; [| exact H50].
      rewrite (Hin pt H3) in Hcov. discriminate.
    + intros H50. split; [right; exact H50 | apply Hout; exact H50].
  - intros i p Hp H3.
    rewrite (remove_lookup m id outline Hunlocked i p Hp).
    pose proof (Hin _ H3) as Hcov. cbn [fst snd] in Hcov.
    rewrite Hcov. cbn [andb].
    assert (Hheld : (colOf m i, rowOf m i) ∈ matchingPixels m id None)
      by (apply Hmem; left; exact H3).
    apply matchingPixels_elem in Hheld as (j & q & Hq & Hpt & _ & Hqid).
    injection Hpt as Hcol Hrow.
    rewrite <- (col_row_inj m i j Hcol Hrow) in Hq.
    assert (q = p) by congruence. subst q.
    rewrite Hqid, arraysMatch_refl. reflexivity.
  - intros i p Hp H3.
    rewrite (remove_lookup m id outline Hunlocked i p Hp).
    destruct (polygonCovers outline _ _) eqn:Hcov; [| reflexivity].
    destruct (arraysMatch (pixelIdentity p) id) eqn:Hmatch; [| reflexivity].
    exfalso. apply arraysMatch_eq in Hmatch.
    assert (Hheld : (colOf m i, rowOf m i) ∈ matchingPixels m id None).
    { apply matchingPixels_elem. exists i, p. repeat split; auto.
      eapply inScanRegion_whole; eassumption. }
    apply Hmem in Hheld as [H | H]; [contradiction |].
    specialize (Hout _ H). cbn [fst snd] in Hout. congruence.
Qed.

(** ** Connected components *)

Lemma adjacent4_sym (p q : Point) : adjacent4 p q = adjacent4 q p.
Proof. unfold adjacent4. f_equal. lia. Qed.

Lemma filter_split (f : Point → bool) (l : list Point) :
  List.filter f l ++ List.filter (fun q => negb (f q)) l ≡ₚ l.
Proof.
  induction l as [| x l IH]; [reflexivity |].
  cbn [List.filter]. destruct (f x); cbn [negb app].
  - constructor. exact IH.
  - rewrite <- Permutation_middle. constructor. exact IH.
Qed.

Lemma filter_length_le (f : Point → bool) (l : list Point) :
  (length (List.filter f l) ≤ length l)%nat.
Proof.
  induction l as [| x l IH]; [reflexivity |].
  cbn [List.filter]. destruct (f x); cbn [length]; lia.
Qed.

Lemma elem_of_List_filter (f : Point → bool) (l : list Point) (x : Point) :
  x ∈ List.filter f l ↔ x ∈ l ∧ f x = true.
Proof. rewrite !list_elem_of_In. apply filter_In. Qed.

Section Grow.
Variable ps : list Point.

(** What [growComponent] returns: the two lists hold the points it was
    given; the component extends the seed. *)
Lemma growComponent_perm (fuel : nat) (comp rest c r : list Point) :
  growComponent fuel comp rest = (c, r) → c ++ r ≡ₚ comp ++ rest.
Proof.
  revert comp rest. induction fuel as [| fuel IH]; intros comp rest.
  - intros [= <- <-]. reflexivity.
  - cbn [growComponent].
    destruct (List.filter (fun q => existsb (adjacent4 q) comp) rest)
      as [| n near] eqn:Hnear.
    + intros [= <- <-]. reflexivity.
    + intros H. rewrite (IH _ _ H), <- Hnear, <- app_assoc.
      apply Permutation_app_head, filter_split.
Qed.

Lemma growComponent_seed (fuel : nat) (comp rest c r : list Point) (x : Point) :
  growComponent fuel comp rest = (c, r) → x ∈ comp → x ∈ c.
Proof.
  revert comp rest. induction fuel as [| fuel IH]; intros comp rest.
  - intros [= <- <-]. auto.
  - cbn [growComponent].
    destruct (List.filter _ rest) as [| n near] eqn:Hnear.
    + intros [= <- <-]. auto.
    + intros H Hx. apply (IH _ _ H). apply elem_of_app. left. exact Hx.
Qed.

(** With fuel for every point, nothing that is left touches the
    component. *)
Lemma growComponent_closed (fuel : nat) (comp rest c r : list Point) :
  (length rest ≤ fuel)%nat →
  growComponent fuel comp rest = (c, r) →
  ∀ q p, q ∈ r → p ∈ c → adjacent4 q p = false.
Proof.
  revert comp rest. induction fuel as [| fuel IH]; intros comp rest Hfuel.
  - intros [= <- <-] q p Hq. destruct rest; [| simpl in Hfuel; lia].
    inversion Hq.
  - cbn [growComponent].
    destruct (List.filter (fun q => existsb (adjacent4 q) comp) rest)
      as [| n near] eqn:Hnear.
    + intros [= <- <-] q p Hq Hp.
      destruct (adjacent4 q p) eqn:Hadj; [| reflexivity].
      assert (Hin : q ∈ List.filter (fun q => existsb (adjacent4 q) comp) rest).
      { apply elem_of_List_filter. split; [exact Hq |].
        apply existsb_exists. exists p. split; [| exact Hadj].
        apply list_elem_of_In. exact Hp. }
      rewrite Hnear in Hin. inversion Hin.
    + intros H. eapply IH; [| exact H].
      pose proof (filter_split (fun q => existsb (adjacent4 q) comp) rest) as Hs.
      apply Permutation_length in Hs. rewrite length_app, Hnear in Hs.
      cbn [length] in Hs. lia.
Qed.

(** Every point of the component is joined to the seed by a chain of
    points of [ps] that touch by a side. *)
Lemma growComponent_linked (fuel : nat) (comp rest c r : list Point) :
  (∀ x, x ∈ rest → x ∈ ps) →
  growComponent fuel comp rest = (c, r) →
  ∀ x, x ∈ c → ∃ s, s ∈ comp ∧ rtc (linked ps) s x.
Proof.
  revert comp rest. induction fuel as [| fuel IH]; intros comp rest HS.
  - intros [= <- <-] x Hx. exists x. split; [exact Hx | constructor].
  - cbn [growComponent].
    destruct (List.filter (fun q => existsb (adjacent4 q) comp) rest)
      as [| n near] eqn:Hnear.
    + intros [= <- <-] x Hx. exists x. split; [exact Hx | constructor].
    + intros H x Hx.
      edestruct IH as (s & Hs & Hrtc); [| exact H | exact Hx |].
      * intros y Hy. apply elem_of_List_filter in Hy as [Hy _]. auto.
      * apply elem_of_app in Hs as [Hs | Hs]; [exists s; auto |].
        rewrite <- Hnear in Hs.
        apply elem_of_List_filter in Hs as [Hs Hadj].
        apply existsb_exists in Hadj as (p & Hp & Hadj).
        exists p. split; [apply list_elem_of_In; exact Hp |].
        eapply rtc_l; [| exact Hrtc]. split; [auto |].
        rewrite adjacent4_sym. exact Hadj.
Qed.

(** The component stays within any set that holds the seed and every
    point that touches it. *)
Lemma growComponent_within (A : list Point) (fuel : nat)
    (comp rest c r : list Point) :
  (∀ x, x ∈ comp → x ∈ A) →
  (∀ x a, x ∈ rest → a ∈ A → adjacent4 x a = true → x ∈ A) →
  growComponent fuel comp rest = (c, r) →
  ∀ x, x ∈ c → x ∈ A.
Proof.
  revert comp rest. induction fuel as [| fuel IH]; intros comp rest Hcomp Hrest.
  - intros [= <- <-]. exact Hcomp.
  - cbn [growComponent].
    destruct (List.filter (fun q => existsb (adjacent4 q) comp) rest)
      as [| n near] eqn:Hnear.
    + intros [= <- <-]. exact Hcomp.
    + intros H. eapply IH; [| | exact H].
      * intros x Hx. apply elem_of_app in Hx as [Hx | Hx]; [auto |].
        rewrite <- Hnear in Hx.
        apply elem_of_List_filter in Hx as [Hx Hadj].
        apply existsb_exists in Hadj as (p & Hp & Hadj).
        apply (Hrest x p Hx); [| exact Hadj].
        apply Hcomp, list_elem_of_In, Hp.
      * intros x a Hx. apply elem_of_List_filter in Hx as [Hx _]. eauto.
Qed.
End Grow.

Lemma separated_sym (A B : list Point) : separated A B → separated B A.
Proof. intros H p q Hp Hq. rewrite adjacent4_sym. apply H; assumption. Qed.

(** Flood fill from a point of a connected set [A] that touches nothing
    of the other points [R] returns [A] and leaves [R]. *)
Lemma component_of_seed (A R : list Point) (p : Point) (rest c r : list Point) :
  NoDup (p :: rest) → p :: rest ≡ₚ A ++ R → p ∈ A →
  connected4 A → separated A R →
  growComponent (length rest) [p] rest = (c, r) →
  c ≡ₚ A ∧ r ≡ₚ R.
Proof.
  intros Hnd Hperm Hp Hconn Hsep Hgrow.
  pose proof (growComponent_perm _ _ _ _ _ Hgrow) as Hcr. cbn [app] in Hcr.
  assert (HndA : NoDup (A ++ R)) by (rewrite <- Hperm; exact Hnd).
  assert (Hndcr : NoDup (c ++ r)) by (rewrite Hcr; exact Hnd).
  apply NoDup_app in HndA as (HndA & _ & _).
  apply NoDup_app in Hndcr as (Hndc & _ & _).
  assert (Hc : c ≡ₚ A).
  { apply NoDup_Permutation; [assumption | assumption |]. intros x. split.
    - eapply (growComponent_within A); [| | exact Hgrow].
      + intros y Hy. apply list_elem_of_singleton in Hy as ->. exact Hp.
      + intros y a Hy Ha Hadj.
        assert (Hin : y ∈ A ++ R) by (rewrite <- Hperm; right; exact Hy).
        apply elem_of_app in Hin as [Hin | Hin]; [exact Hin |].
        rewrite adjacent4_sym, (Hsep a y Ha Hin) in Hadj. discriminate.
    - intros Hx. specialize (Hconn p x Hp Hx). revert x Hconn Hx.
      apply (rtc_ind_r (fun z => z ∈ A → z ∈ c)).
      + intros _. apply (growComponent_seed _ _ _ _ _ _ Hgrow).
        apply list_elem_of_singleton. reflexivity.
      + intros y z Hpy [Hz Hadj] IH _.
        assert (Hy : y ∈ c).
        { apply IH. destruct (rtc_inv_r _ _ Hpy) as [<- | (w & _ & [Hy _])];
            assumption. }
        assert (Hin : z ∈ c ++ r).
        { rewrite Hcr, Hperm. apply elem_of_app. left. exact Hz. }
        apply elem_of_app in Hin as [Hin | Hin]; [exact Hin |].
        rewrite adjacent4_sym in Hadj.
        rewrite (growComponent_closed _ _ _ _ _ (Nat.le_refl _) Hgrow z y Hin Hy)
          in Hadj. discriminate. }
  split; [exact Hc |].
  rewrite Hc, Hperm in Hcr. apply Permutation_app_inv_l in Hcr. exact Hcr.
Qed.

Lemma components_nil (fuel : nat) : components fuel [] = [].
Proof. destruct fuel; reflexivity. Qed.

(** Two connected sets that do not touch are the two components of their
    union; the one that holds the first point comes first. *)
Lemma components_first (A B : list Point) (p : Point) (rest : list Point) :
  NoDup (p :: rest) → p :: rest ≡ₚ A ++ B → p ∈ A → B ≠ [] →
  connected4 A → connected4 B → separated A B →
  ∃ cA cB, cA ≡ₚ A ∧ cB ≡ₚ B
    ∧ components (length (p :: rest)) (p :: rest) = [cA; cB].
Proof.
  intros Hnd Hperm Hp HB HconnA HconnB Hsep.
  cbn [length components].
  destruct (growComponent (length rest) [p] rest) as [c r] eqn:Hgrow.
  destruct (component_of_seed A B p rest c r Hnd Hperm Hp HconnA Hsep Hgrow)
    as [Hc Hr].
  pose proof (growComponent_perm _ _ _ _ _ Hgrow) as Hcr. cbn [app] in Hcr.
  assert (Hndr : NoDup r).
  { assert (H : NoDup (c ++ r)) by (rewrite Hcr; exact Hnd).
    apply NoDup_app in H as (_ & _ & H). exact H. }
  destruct r as [| q rest2].
  { apply Permutation_nil_l in Hr. congruence. }
  assert (Hlen : (length rest = length c + length rest2)%nat).
  { apply Permutation_length in Hcr. rewrite length_app in Hcr.
    cbn [length] in Hcr. lia. }
  assert (Hc1 : (1 ≤ length c)%nat).
  { destruct c; [| cbn [length]; lia].
    pose proof (growComponent_seed _ _ _ _ _ p Hgrow) as H.
    specialize (H ltac:(apply list_elem_of_singleton; reflexivity)).
    inversion H. }
  destruct (length rest) as [| fuel] eqn:Hfuel; [lia |].
  cbn [components].
  destruct (growComponent (length rest2) [q] rest2) as [c2 r2] eqn:Hgrow2.
  assert (Hq : q ∈ B) by (rewrite <- Hr; left).
  destruct (component_of_seed B [] q rest2 c2 r2 Hndr) as [Hc2 Hr2];
    try assumption.
  - rewrite app_nil_r. exact Hr.
  - intros x y _ Hy. inversion Hy.
  - apply Permutation_nil_r in Hr2. subst r2.
    rewrite components_nil. exists c, c2. auto.
Qed.

Lemma components_two (pts A B : list Point) :
  NoDup pts → pts ≡ₚ A ++ B → A ≠ [] → B ≠ [] →
  connected4 A → connected4 B → separated A B →
  ∃ cA cB, cA ≡ₚ A ∧ cB ≡ₚ B
    ∧ (components (length pts) pts = [cA; cB]
       ∨ components (length pts) pts = [cB; cA]).
Proof.
  intros Hnd Hperm HA HB HconnA HconnB Hsep.
  destruct pts as [| p rest].
  { apply Permutation_nil_l in Hperm. destruct A; [congruence | discriminate]. }
  assert (Hp : p ∈ A ++ B) by (rewrite <- Hperm; left).
  apply elem_of_app in Hp as [Hp | Hp].
  - destruct (components_first A B p rest) as (cA & cB & ? & ? & ?);
      try assumption.
    exists cA, cB. auto.
  - destruct (components_first B A p rest) as (cB & cA & ? & ? & ?);
      try assumption.
    + rewrite Hperm. apply Permutation_app_comm.
    + apply separated_sym. exact Hsep.
    + exists cA, cB. auto.
Qed.

Lemma linked_rtc_sym (ps : list Point) (x y : Point) :
  x ∈ ps → rtc (linked ps) x y → rtc (linked ps) y x.
Proof.
  intros Hx Hrtc. induction Hrtc as [| x x' y [Hx' Hadj] _ IH]; [constructor |].
  eapply rtc_r; [apply IH; exact Hx' |].
  split; [exact Hx | rewrite adjacent4_sym; exact Hadj].
Qed.

Lemma connectedb_sound (ps : list Point) : connectedb ps = true → connected4 ps.
Proof.
  destruct ps as [| p rest]; [intros _ x y Hx; inversion Hx |].
  cbn [connectedb].
  destruct (growComponent (length rest) [p] rest) as [c r] eqn:Hgrow.
  destruct r; [intros _ | discriminate].
  pose proof (growComponent_perm _ _ _ _ _ Hgrow) as Hc.
  rewrite app_nil_r in Hc. cbn [app] in Hc.
  assert (Hfrom : ∀ x, x ∈ p :: rest → rtc (linked (p :: rest)) p x).
  { intros x Hx. rewrite <- Hc in Hx.
    destruct (growComponent_linked (p :: rest) _ _ _ _ _
                (fun y Hy => list_elem_of_further y p rest Hy) Hgrow x Hx)
      as (s & Hs & Hrtc).
    apply list_elem_of_singleton in Hs as ->. exact Hrtc. }
  intros x y Hx Hy. etransitivity; [| apply Hfrom; exact Hy].
  apply linked_rtc_sym; [left | apply Hfrom; exact Hx].
Qed.

(** ** The extractor under translation *)

Lemma filter_map_comm {A B : Type} (f : B → bool) (g : A → B) (l : list A) :
  List.filter f (map g l) = map g (List.filter (fun x => f (g x)) l).
Proof.
  induction l as [| x l IH]; [reflexivity |].
  cbn [map List.filter]. destruct (f (g x)); cbn [map]; rewrite IH; reflexivity.
Qed.

Lemma find_map_comm {A B : Type} (f : B → bool) (g : A → B) (l : list A) :
  List.find f (map g l) = option_map g (List.find (fun x => f (g x)) l).
Proof.
  induction l as [| x l IH]; [reflexivity |].
  cbn [map List.find]. destruct (f (g x)); [reflexivity | exact IH].
Qed.

Lemma filter_ext_bool {A : Type} (f g : A → bool) (l : list A) :
  (∀ x, f x = g x) → List.filter f l = List.filter g l.
Proof.
  intros H. induction l as [| x l IH]; [reflexivity |].
  cbn [List.filter]. rewrite H, IH. reflexivity.
Qed.

Lemma find_ext_bool {A : Type} (f g : A → bool) (l : list A) :
  (∀ x, f x = g x) → List.find f l = List.find g l.
Proof.
  intros H. induction l as [| x l IH]; [reflexivity |].
  cbn [List.find]. rewrite H, IH. reflexivity.
Qed.

Section Shift.
Variable d : Point.

Lemma pointEqb_shift (p q : Point) :
  pointEqb (shiftP d p) (shiftP d q) = pointEqb p q.
Proof.
  unfold pointEqb, shiftP; cbn [fst snd].
  f_equal; apply eq_iff_eq_true; rewrite !Z.eqb_eq; lia.
Qed.

Lemma edgeEqb_shift (e f : Edge) :
  edgeEqb (shiftE d e) (shiftE d f) = edgeEqb e f.
Proof. unfold edgeEqb, shiftE; cbn [fst snd]. rewrite !pointEqb_shift. reflexivity. Qed.

Lemma memPoint_shift (p : Point) (c : list Point) :
  memPoint (shiftP d p) (map (shiftP d) c) = memPoint p c.
Proof.
  unfold memPoint. induction c as [| q c IH]; [reflexivity |].
  cbn [map existsb]. rewrite pointEqb_shift, IH. reflexivity.
Qed.

Lemma pixelEdges_shift (c : list Point) (p : Point) :
  pixelEdges (map (shiftP d) c) (shiftP d p) = map (shiftE d) (pixelEdges c p).
Proof.
  destruct p as [x y]. unfold pixelEdges, shiftP at 1; cbn [fst snd].
  replace (x + d.1, y + d.2 - 1) with (shiftP d (x, y - 1))
    by (unfold shiftP; cbn [fst snd]; f_equal; lia).
  replace (x + d.1 + 1, y + d.2) with (shiftP d (x + 1, y))
    by (unfold shiftP; cbn [fst snd]; f_equal; lia).
  replace (x + d.1, y + d.2 + 1) with (shiftP d (x, y + 1))
    by (unfold shiftP; cbn [fst snd]; f_equal; lia).
  replace (x + d.1 - 1, y + d.2) with (shiftP d (x - 1, y))
    by (unfold shiftP; cbn [fst snd]; f_equal; lia).
  rewrite !memPoint_shift.
  destruct (memPoint (x, y - 1) c), (memPoint (x + 1, y) c),
    (memPoint (x, y + 1) c), (memPoint (x - 1, y) c);
    cbn [app map]; unfold shiftE, shiftP; cbn [fst snd];
    repeat (f_equal; try lia).
Qed.

Lemma boundaryEdges_shift (c : list Point) :
  boundaryEdges (map (shiftP d) c) = map (shiftE d) (boundaryEdges c).
Proof.
  unfold boundaryEdges. generalize c at 1 3. intros c'.
  induction c as [| p c IH]; [reflexivity |].
  cbn [map flat_map]. rewrite map_app, pixelEdges_shift, IH. reflexivity.
Qed.

Lemma edgeDir_shift (e : Edge) : edgeDir (shiftE d e) = edgeDir e.
Proof. unfold edgeDir, shiftE, shiftP; cbn [fst snd]. f_equal; lia. Qed.

Lemma nextEdge_shift (cur : Edge) (pool : list Edge) :
  nextEdge (shiftE d cur) (map (shiftE d) pool)
  = option_map (shiftE d) (nextEdge cur pool).
Proof.
  unfold nextEdge. rewrite edgeDir_shift, filter_map_comm.
  rewrite (filter_ext_bool
             (fun x => pointEqb (shiftE d x).1 (shiftE d cur).2)
             (fun e => pointEqb e.1 cur.2))
    by (intros e; apply pointEqb_shift).
  set (cands := List.filter (fun e => pointEqb e.1 cur.2) pool).
  assert (Hfind : ∀ dir,
    List.find (fun e => pointEqb (edgeDir e) dir) (map (shiftE d) cands)
    = option_map (shiftE d)
        (List.find (fun e => pointEqb (edgeDir e) dir) cands)).
  { intros dir. rewrite find_map_comm. f_equal.
    apply find_ext_bool. intros e. rewrite edgeDir_shift. reflexivity. }
  rewrite !Hfind.
  repeat match goal with
         | |- context [List.find ?f cands] =>
             destruct (List.find f cands); cbn [option_map]; try reflexivity
         end.
Qed.

Lemma removeEdge_shift (e : Edge) (pool : list Edge) :
  removeEdge (shiftE d e) (map (shiftE d) pool)
  = map (shiftE d) (removeEdge e pool).
Proof.
  unfold removeEdge. rewrite filter_map_comm. f_equal.
  apply filter_ext_bool. intros f. rewrite edgeEqb_shift. reflexivity.
Qed.

Lemma traceLoop_shift (fuel : nat) (e0 cur : Edge) (pool acc : list Edge) :
  traceLoop fuel (shiftE d e0) (shiftE d cur) (map (shiftE d) pool)
            (map (shiftE d) acc)
  = (map (shiftE d) (traceLoop fuel e0 cur pool acc).1,
     map (shiftE d) (traceLoop fuel e0 cur pool acc).2).
Proof.
  revert cur pool acc. induction fuel as [| fuel IH]; intros cur pool acc.
  - cbn [traceLoop fst snd]. rewrite map_rev. reflexivity.
  - cbn [traceLoop].
    change (shiftE d e0 :: map (shiftE d) pool)
      with (map (shiftE d) (e0 :: pool)).
    rewrite nextEdge_shift.
    destruct (nextEdge cur (e0 :: pool)) as [e |]; cbn [option_map].
    + rewrite edgeEqb_shift. destruct (edgeEqb e e0).
      * cbn [fst snd]. rewrite map_rev. reflexivity.
      * rewrite removeEdge_shift.
        change (shiftE d e :: map (shiftE d) acc)
          with (map (shiftE d) (e :: acc)).
        apply IH.
    + cbn [fst snd]. rewrite map_rev. reflexivity.
Qed.

Lemma boundaryLoops_shift (fuel : nat) (edges : list Edge) :
  boundaryLoops fuel (map (shiftE d) edges)
  = map (map (shiftE d)) (boundaryLoops fuel edges).
Proof.
  revert edges. induction fuel as [| fuel IH]; intros edges;
    [destruct edges; reflexivity |].
  destruct edges as [| e0 pool]; [reflexivity |].
  cbn [map boundaryLoops]. rewrite length_map.
  change [shiftE d e0] with (map (shiftE d) [e0]).
  rewrite traceLoop_shift.
  destruct (traceLoop (length pool) e0 e0 pool [e0]) as [lp pool'].
  cbn [fst snd map]. rewrite IH. reflexivity.
Qed.

Lemma last_map_shift (lp : list Edge) (e : Edge) :
  List.last (map (shiftE d) lp) (shiftE d e) = shiftE d (List.last lp e).
Proof.
  induction lp as [| x lp IH]; [reflexivity |].
  destruct lp as [| y lp]; [reflexivity |]. exact IH.
Qed.

Lemma removelast_map_shift (lp : list Edge) :
  removelast (map (shiftE d) lp) = map (shiftE d) (removelast lp).
Proof.
  induction lp as [| x lp IH]; [reflexivity |].
  destruct lp as [| y lp]; [reflexivity |].
  cbn [map removelast] in *. rewrite IH. reflexivity.
Qed.

Lemma zip_map {A B : Type} (f : A → B) (l k : list A) :
  zip (map f l) (map f k) = map (fun '(x, y) => (f x, f y)) (zip l k).
Proof.
  revert k. induction l as [| x l IH]; intros [| y k]; try reflexivity.
  cbn [map zip zip_with]. f_equal. apply IH.
Qed.

Lemma loopVertices_shift (lp : list Edge) :
  loopVertices (map (shiftE d) lp) = map (shiftP d) (loopVertices lp).
Proof.
  unfold loopVertices. destruct lp as [| e lp']; [reflexivity |].
  change (map (shiftE d) (e :: lp')) with (shiftE d e :: map (shiftE d) lp').
  cbv iota.
  change (shiftE d e :: map (shiftE d) lp') with (map (shiftE d) (e :: lp')).
  rewrite last_map_shift, removelast_map_shift.
  change (shiftE d (List.last (e :: lp') e) :: map (shiftE d) (removelast (e :: lp')))
    with (map (shiftE d) (List.last (e :: lp') e :: removelast (e :: lp'))).
  rewrite zip_map.
  generalize (zip (List.last (e :: lp') e :: removelast (e :: lp')) (e :: lp')).
  intros l. induction l as [| [before here] l IH]; [reflexivity |].
  cbn [map flat_map]. rewrite map_app, IH, !edgeDir_shift.
  destruct (pointEqb (edgeDir before) (edgeDir here)); reflexivity.
Qed.

Lemma polygonEdges_shift (vs : list Point) :
  polygonEdges (map (shiftP d) vs) = map (shiftE d) (polygonEdges vs).
Proof.
  destruct vs as [| v0 rest]; [reflexivity |].
  unfold polygonEdges. cbn [map].
  change (shiftP d v0 :: map (shiftP d) rest) with (map (shiftP d) (v0 :: rest)).
  change [shiftP d v0] with (map (shiftP d) [v0]).
  rewrite <- map_app, zip_map.
  apply map_ext. intros [a b]. reflexivity.
Qed.
End Shift.

Lemma crossSum_shift (d : Point) (es : list Edge) :
  crossSum (map (shiftE d) es) = crossSum es + d.1 * sumDy es - d.2 * sumDx es.
Proof.
  induction es as [| [[ax ay] [bx by_]] es IH]; [cbn; ring |].
  change (crossSum (map (shiftE d) (((ax, ay), (bx, by_)) :: es)))
    with ((ax + d.1) * (by_ + d.2) - (bx + d.1) * (ay + d.2)
          + crossSum (map (shiftE d) es)).
  change (crossSum (((ax, ay), (bx, by_)) :: es))
    with (ax * by_ - bx * ay + crossSum es).
  change (sumDx (((ax, ay), (bx, by_)) :: es)) with (bx - ax + sumDx es).
  change (sumDy (((ax, ay), (bx, by_)) :: es)) with (by_ - ay + sumDy es).
  rewrite IH. ring.
Qed.

Lemma chain_displacement (u w : Point) (l : list Point) :
  sumDx (zip (u :: l) (l ++ [w])) = w.1 - u.1
  ∧ sumDy (zip (u :: l) (l ++ [w])) = w.2 - u.2.
Proof.
  revert u. induction l as [| x l IH]; intros [ux uy]; destruct w as [wx wy].
  - cbn. lia.
  - destruct x as [xx xy]. specialize (IH (xx, xy)).
    cbn [app zip zip_with sumDx sumDy fold_right fst snd] in *. lia.
Qed.

Lemma signedArea2_shift (d : Point) (vs : list Point) :
  signedArea2 (map (shiftP d) vs) = signedArea2 vs.
Proof.
  change (signedArea2 (map (shiftP d) vs))
    with (crossSum (polygonEdges (map (shiftP d) vs))).
  change (signedArea2 vs) with (crossSum (polygonEdges vs)).
  rewrite polygonEdges_shift, crossSum_shift.
  destruct vs as [| v0 rest]; [cbn; ring |].
  unfold polygonEdges.
  destruct (chain_displacement v0 v0 rest) as [-> ->]. ring.
Qed.

Section ShiftCover.
Variable d : Point.

Lemma crossesRay_shift (x y : Z) (a b : Point) :
  crossesRay (x + d.1) (y + d.2) (shiftP d a) (shiftP d b) = crossesRay x y a b.
Proof.
  destruct a as [ax ay], b as [bx by_], d as [dx dy].
  unfold crossesRay, shiftP; cbn [fst snd].
  replace (2 * (y + dy) + 1 <? 2 * (ay + dy)) with (2 * y + 1 <? 2 * ay)
    by (apply eq_iff_eq_true; rewrite !Z.ltb_lt; lia).
  replace (2 * (y + dy) + 1 <? 2 * (by_ + dy)) with (2 * y + 1 <? 2 * by_)
    by (apply eq_iff_eq_true; rewrite !Z.ltb_lt; lia).
  replace (by_ + dy - (ay + dy)) with (by_ - ay) by lia.
  replace (bx + dx - (ax + dx)) with (bx - ax) by lia.
  replace (2 * (x + dx) + 1 - 2 * (ax + dx)) with (2 * x + 1 - 2 * ax) by lia.
  replace (2 * (y + dy) + 1 - 2 * (ay + dy)) with (2 * y + 1 - 2 * ay) by lia.
  reflexivity.
Qed.

Lemma isInside_shift (vs : list Point) (x y : Z) :
  isInside (map (shiftP d) vs) (x + d.1) (y + d.2) = isInside vs x y.
Proof.
  unfold isInside. rewrite polygonEdges_shift.
  induction (polygonEdges vs) as [| [a b] es IH]; [reflexivity |].
  cbn [map fold_right]. rewrite IH.
  change (shiftE d (a, b)) with (shiftP d a, shiftP d b).
  cbv beta iota. rewrite crossesRay_shift. reflexivity.
Qed.

Lemma extrema_fold_shift (rest : list Point) (acc : Extrema) :
  fold_left
    (fun '(xm, ym, xM, yM) '(x, y) =>
       (Z.min xm x, Z.min ym y, Z.max xM x, Z.max yM y))
    (map (shiftP d) rest) (shiftBox d acc)
  = shiftBox d
      (fold_left
         (fun '(xm, ym, xM, yM) '(x, y) =>
            (Z.min xm x, Z.min ym y, Z.max xM x, Z.max yM y))
         rest acc).
Proof.
  revert acc. induction rest as [| [x y] rest IH]; intros acc; [reflexivity |].
  cbn [map fold_left]. rewrite <- IH. f_equal.
  destruct acc as [[[xm ym] xM] yM]. unfold shiftBox, shiftP; cbn [fst snd].
  repeat f_equal; lia.
Qed.

Lemma getPolygonExtrema_shift (vs : list Point) :
  getPolygonExtrema (map (shiftP d) vs)
  = option_map (shiftBox d) (getPolygonExtrema vs).
Proof.
  destruct vs as [| [x0 y0] rest]; [reflexivity |].
  unfold getPolygonExtrema. cbn [map option_map].
  change (shiftP d (x0, y0)) with (x0 + d.1, y0 + d.2). cbv iota beta.
  f_equal. apply (extrema_fold_shift rest (x0, y0, x0, y0)).
Qed.

Lemma inExtrema_shift (e : option Extrema) (x y : Z) :
  inExtrema (option_map (shiftBox d) e) (x + d.1) (y + d.2) = inExtrema e x y.
Proof.
  destruct e as [[[[xm ym] xM] yM] |]; [| reflexivity].
  cbn [option_map shiftBox inExtrema].
  replace (xm + d.1 <=? x + d.1) with (xm <=? x)
    by (apply eq_iff_eq_true; rewrite !Z.leb_le; lia).
  replace (x + d.1 <=? xM + d.1) with (x <=? xM)
    by (apply eq_iff_eq_true; rewrite !Z.leb_le; lia).
  replace (ym + d.2 <=? y + d.2) with (ym <=? y)
    by (apply eq_iff_eq_true; rewrite !Z.leb_le; lia).
  replace (y + d.2 <=? yM + d.2) with (y <=? yM)
    by (apply eq_iff_eq_true; rewrite !Z.leb_le; lia).
  reflexivity.
Qed.

Lemma polygonCovers_shift (vs : list Point) (x y : Z) :
  polygonCovers (map (shiftP d) vs) (x + d.1) (y + d.2) = polygonCovers vs x y.
Proof.
  unfold polygonCovers.
  rewrite length_map, getPolygonExtrema_shift, inExtrema_shift, isInside_shift.
  reflexivity.
Qed.
End ShiftCover.

(** ** Blobs of three pixels *)

Lemma triominoesOk_true : triominoesOk = true.
Proof. vm_compute. reflexivity. Qed.

Lemma elem_of_squareOf (lo n x y : Z) :
  (x, y) ∈ squareOf lo n ↔ (lo <= x < lo + n) ∧ (lo <= y < lo + n).
Proof.
  unfold squareOf. rewrite list_elem_of_In, in_flat_map. split.
  - intros (x' & Hx' & Hy). apply in_map_iff in Hy as (y' & [= -> ->] & Hy').
    apply list_elem_of_In, elem_of_seqZ in Hx'.
    apply list_elem_of_In, elem_of_seqZ in Hy'. lia.
  - intros [Hx Hy]. exists x. split.
    + apply list_elem_of_In, elem_of_seqZ. lia.
    + apply in_map_iff. exists y. split; [reflexivity |].
      apply list_elem_of_In, elem_of_seqZ. lia.
Qed.

Lemma adjacent4_bound (p q : Point) :
  adjacent4 p q = true →
  -1 <= q.1 - p.1 <= 1 ∧ -1 <= q.2 - p.2 <= 1.
Proof. unfold adjacent4. rewrite Z.eqb_eq. lia. Qed.

Lemma triomino_outlineOk (d2 d3 : Point) :
  chain3 (0, 0) d2 d3 = true → distinct3 (0, 0) d2 d3 = true →
  outlineOk [(0, 0); d2; d3] = true.
Proof.
  intros Hchain Hdist.
  assert (Hrange : d2 ∈ squareOf (-2) 5 ∧ d3 ∈ squareOf (-2) 5).
  { destruct d2 as [x2 y2], d3 as [x3 y3]. rewrite !elem_of_squareOf.
    unfold chain3 in Hchain.
    rewrite !orb_true_iff, !andb_true_iff in Hchain.
    destruct Hchain as [[[H1 H2] | [H1 H2]] | [H1 H2]];
      apply adjacent4_bound in H1, H2; cbn [fst snd] in *; lia. }
  destruct Hrange as [H2 H3].
  pose proof triominoesOk_true as Hall. unfold triominoesOk in Hall.
  rewrite forallb_forall in Hall.
  specialize (Hall d2 ltac:(apply list_elem_of_In; exact H2)).
  rewrite forallb_forall in Hall.
  specialize (Hall d3 ltac:(apply list_elem_of_In; exact H3)).
  rewrite Hchain, Hdist in Hall. exact Hall.
Qed.

Lemma pointEqb_eq (p q : Point) : pointEqb p q = true ↔ p = q.
Proof.
  destruct p as [a b], q as [c e]. unfold pointEqb; cbn [fst snd].
  rewrite andb_true_iff, !Z.eqb_eq. split; [intros [-> ->] | intros [= -> ->]]; auto.
Qed.

Lemma memPoint_elem (p : Point) (c : list Point) : memPoint p c = true ↔ p ∈ c.
Proof.
  unfold memPoint. rewrite existsb_exists, list_elem_of_In. split.
  - intros (q & Hq & Heq). apply pointEqb_eq in Heq as ->. exact Hq.
  - intros Hp. exists p. split; [exact Hp | apply pointEqb_eq; reflexivity].
Qed.

Lemma adjacent4_irrefl (p : Point) : adjacent4 p p = false.
Proof. unfold adjacent4. apply Z.eqb_neq. lia. Qed.

(** In a connected set of more than one point every point touches
    another one. *)
Lemma connected4_neighbour (ps : list Point) (p q : Point) :
  connected4 ps → p ∈ ps → q ∈ ps → p ≠ q →
  ∃ y, y ∈ ps ∧ adjacent4 p y = true.
Proof.
  intros Hconn Hp Hq Hne.
  destruct (rtc_inv _ _ (Hconn p q Hp Hq)) as [-> | (y & [Hy Hadj] & _)];
    [contradiction | eauto].
Qed.

Lemma connected3_chain (p1 p2 p3 : Point) :
  NoDup [p1; p2; p3] → connected4 [p1; p2; p3] →
  chain3 p1 p2 p3 = true ∧ distinct3 p1 p2 p3 = true.
Proof.
  intros Hnd Hconn.
  assert (H12 : p1 ≠ p2 ∧ p1 ≠ p3 ∧ p2 ≠ p3).
  { apply NoDup_cons in Hnd as [H1 Hnd]. apply NoDup_cons in Hnd as [H2 _].
    apply not_elem_of_cons in H1 as [? H1]. apply not_elem_of_cons in H1 as [? _].
    apply not_elem_of_cons in H2 as [? _]. auto. }
  destruct H12 as (H12 & H13 & H23).
  assert (Hin : ∀ y, y ∈ [p1; p2; p3] ↔ y = p1 ∨ y = p2 ∨ y = p3).
  { intros y. rewrite !elem_of_cons, elem_of_nil. tauto. }
  split.
  - destruct (connected4_neighbour _ p1 p2 Hconn) as (y1 & Hy1 & Ha1);
      [apply Hin; auto | apply Hin; auto | assumption |].
    destruct (connected4_neighbour _ p2 p1 Hconn) as (y2 & Hy2 & Ha2);
      [apply Hin; auto | apply Hin; auto | congruence |].
    destruct (connected4_neighbour _ p3 p1 Hconn) as (y3 & Hy3 & Ha3);
      [apply Hin; auto | apply Hin; auto | congruence |].
    apply Hin in Hy1, Hy2, Hy3. unfold chain3.
    destruct Hy1 as [-> | [-> | ->]], Hy2 as [-> | [-> | ->]],
      Hy3 as [-> | [-> | ->]];
      repeat match goal with
             | H : adjacent4 ?p ?p = true |- _ =>
                 rewrite adjacent4_irrefl in H; discriminate H
             | H : adjacent4 p2 p1 = true |- _ =>
                 rewrite (adjacent4_sym p2 p1) in H
             | H : adjacent4 p3 p1 = true |- _ =>
                 rewrite (adjacent4_sym p3 p1) in H
             | H : adjacent4 p3 p2 = true |- _ =>
                 rewrite (adjacent4_sym p3 p2) in H
             end;
      repeat match goal with
             | H : adjacent4 _ _ = true |- _ => rewrite H; clear H
             end;
      repeat match goal with
             | |- context [adjacent4 ?a ?b] => destruct (adjacent4 a b)
             end;
      reflexivity.
  - unfold distinct3. rewrite !andb_true_iff, !negb_true_iff.
    repeat split; apply not_true_iff_false; rewrite pointEqb_eq; assumption.
Qed.

Lemma index_round_trip (stride : Z) (vs : list Point) :
  (∀ v, v ∈ vs → 0 <= v.1 < stride) →
  convertIndexToDict (map (fun '(x, y) => x + y * stride) vs) stride = vs.
Proof.
  intros Hvs. unfold convertIndexToDict. rewrite map_map.
  rewrite <- (map_id vs) at 2. apply map_ext_in.
  intros [x y] Hin. apply list_elem_of_In, Hvs in Hin. cbn [fst] in Hin.
  f_equal.
  - rewrite Z.mod_add by lia. apply Z.mod_small. lia.
  - rewrite Z.div_add by lia. rewrite Z.div_small by lia. lia.
Qed.

Lemma outline_covers_origin (c0 : list Point) :
  (∀ q, q ∈ c0 → -2 <= q.1 <= 2 ∧ -2 <= q.2 <= 2) →
  outlineOk c0 = true →
  ∃ lp, boundaryLoops (length (boundaryEdges c0)) (boundaryEdges c0) = [lp]
    ∧ 0 < signedArea2 (loopVertices lp)
    ∧ (∀ v, v ∈ loopVertices lp → ∃ q, q ∈ c0 ∧ (v.1 = q.1 ∨ v.1 = q.1 + 1))
    ∧ ∀ x y, polygonCovers (loopVertices lp) x y = memPoint (x, y) c0.
Proof.
  intros Hrange. unfold outlineOk.
  destruct (boundaryLoops _ _) as [| lp [| ? ?]]; try discriminate.
  rewrite !andb_true_iff. intros [[[Harea Hcorner] Hbox] Hgrid].
  exists lp. split; [reflexivity |]. split; [apply Z.ltb_lt; exact Harea |].
  split.
  - intros v Hv. rewrite forallb_forall in Hcorner.
    specialize (Hcorner v ltac:(apply list_elem_of_In; exact Hv)).
    apply existsb_exists in Hcorner as (q & Hq & Hvq).
    exists q. split; [apply list_elem_of_In; exact Hq |].
    rewrite orb_true_iff, !Z.eqb_eq in Hvq. exact Hvq.
  - intros x y.
    destruct (decide ((-2 <= x < -2 + 6) ∧ (-2 <= y < -2 + 6))) as [Hin | Hout].
    + rewrite forallb_forall in Hgrid.
      specialize (Hgrid (x, y)
                    ltac:(apply list_elem_of_In, elem_of_squareOf; exact Hin)).
      apply eqb_prop in Hgrid. exact Hgrid.
    + assert (Hmem : memPoint (x, y) c0 = false).
      { apply not_true_iff_false. rewrite memPoint_elem. intros Hq.
        apply Hrange in Hq. cbn [fst snd] in Hq. lia. }
      rewrite Hmem. unfold polygonCovers.
      destruct (inExtrema (getPolygonExtrema (loopVertices lp)) x y) eqn:Hex;
        [| rewrite andb_false_r; reflexivity].
      exfalso.
      destruct (getPolygonExtrema (loopVertices lp)) as [[[[xm ym] xM] yM] |];
        [| discriminate].
      cbn [inExtrema] in Hex.
      rewrite !andb_true_iff, !Z.leb_le in Hbox, Hex. lia.
Qed.

(** A connected component of three pixels has one contour, an external
    one, and its outline covers the three pixels and no other. *)
Lemma small_blob_outline (stride : Z) (c : list Point) :
  length c = 3%nat → NoDup c → connected4 c →
  (∀ q, q ∈ c → 0 <= q.1 < stride - 1) →
  ∃ contour,
    blobOfComponent stride c = mkBlob [contour] 3
    ∧ ctype contour = External
    ∧ ∀ x y, polygonCovers (convertIndexToDict (points contour) stride) x y
             = memPoint (x, y) c.
Proof.
  intros Hlen Hnd Hconn Hcols.
  destruct c as [| p1 [| p2 [| p3 [| ? ?]]]]; try discriminate.
  destruct (connected3_chain p1 p2 p3 Hnd Hconn) as [Hchain Hdist].
  set (d2 := (p2.1 - p1.1, p2.2 - p1.2)).
  set (d3 := (p3.1 - p1.1, p3.2 - p1.2)).
  assert (Hc : [p1; p2; p3] = map (shiftP p1) [(0, 0); d2; d3]).
  { destruct p1 as [x1 y1], p2 as [x2 y2], p3 as [x3 y3].
    unfold d2, d3, shiftP; cbn [map fst snd]. repeat f_equal; lia. }
  assert (Hadj : ∀ a b : Point,
            adjacent4 (a.1 - p1.1, a.2 - p1.2) (b.1 - p1.1, b.2 - p1.2)
            = adjacent4 a b).
  { intros a b. unfold adjacent4; cbn [fst snd]. f_equal. lia. }
  assert (Hchain0 : chain3 (0, 0) d2 d3 = true).
  { rewrite <- Hchain. unfold chain3, d2, d3.
    replace (0, 0) with (p1.1 - p1.1, p1.2 - p1.2) by (f_equal; lia).
    rewrite !Hadj. reflexivity. }
  assert (Hdist0 : distinct3 (0, 0) d2 d3 = true).
  { rewrite <- Hdist. unfold distinct3, d2, d3.
    replace (0, 0) with (p1.1 - p1.1, p1.2 - p1.2) by (f_equal; lia).
    assert (Heq : ∀ a b : Point,
              pointEqb (a.1 - p1.1, a.2 - p1.2) (b.1 - p1.1, b.2 - p1.2)
              = pointEqb a b).
    { intros a b. unfold pointEqb; cbn [fst snd].
      f_equal; apply eq_iff_eq_true; rewrite !Z.eqb_eq; lia. }
    rewrite !Heq. reflexivity. }
  assert (Hrange : ∀ q, q ∈ [(0, 0); d2; d3] → -2 <= q.1 <= 2 ∧ -2 <= q.2 <= 2).
  { intros q Hq.
    unfold chain3 in Hchain0.
    rewrite !orb_true_iff, !andb_true_iff in Hchain0.
    rewrite !elem_of_cons, elem_of_nil in Hq.
    destruct Hchain0 as [[[H1 H2] | [H1 H2]] | [H1 H2]];
      apply adjacent4_bound in H1, H2; cbn [fst snd] in *;
      destruct Hq as [-> | [-> | [-> | []]]]; cbn [fst snd]; lia. }
  destruct (outline_covers_origin _ Hrange
              (triomino_outlineOk d2 d3 Hchain0 Hdist0))
    as (lp & Hloops & Harea & Hcorner & Hcover).
  exists (traceContour stride (map (shiftE p1) lp)).
  assert (Hvs : convertIndexToDict
                  (points (traceContour stride (map (shiftE p1) lp))) stride
                = map (shiftP p1) (loopVertices lp)).
  { unfold traceContour; cbn [points]. rewrite loopVertices_shift.
    apply index_round_trip. intros v Hv.
    apply list_elem_of_fmap in Hv as (v0 & -> & Hv0).
    destruct (Hcorner v0 Hv0) as (q0 & Hq0 & Hvq).
    assert (Hq : shiftP p1 q0 ∈ [p1; p2; p3]).
    { rewrite Hc. apply list_elem_of_fmap. eauto. }
    apply Hcols in Hq. unfold shiftP in *; cbn [fst snd] in *. lia. }
  split; [| split].
  - unfold blobOfComponent. rewrite Hc, boundaryEdges_shift, length_map.
    rewrite boundaryLoops_shift, Hloops. reflexivity.
  - unfold traceContour; cbn [ctype].
    rewrite loopVertices_shift, signedArea2_shift.
    destruct (Z.ltb_spec 0 (signedArea2 (loopVertices lp))); [reflexivity | lia].
  - intros x y. rewrite Hvs, Hc.
    replace x with (x - p1.1 + p1.1) at 1 by lia.
    replace y with (y - p1.2 + p1.2) at 1 by lia.
    rewrite polygonCovers_shift, Hcover.
    replace (x, y) with (shiftP p1 (x - p1.1, y - p1.2))
      by (unfold shiftP; cbn [fst snd]; f_equal; lia).
    rewrite memPoint_shift. reflexivity.
Qed.

Lemma omap_imap_NoDup {A B : Type} (F : nat * A → option B) (l : list A)
    (g : nat → nat) :
  (∀ i j p q pt, F (g i, p) = Some pt → F (g j, q) = Some pt → i = j) →
  NoDup (omap F (imap (fun i p => (g i, p)) l)).
Proof.
  revert g. induction l as [| x l IH]; intros g Hinj; [constructor |].
  rewrite imap_cons. cbn [omap list_omap].
  specialize (IH (fun i => g (S i))
                 (fun i j p q pt Hi Hj => eq_add_S _ _ (Hinj _ _ p q pt Hi Hj))).
  destruct (F (g 0%nat, x)) as [pt |] eqn:HF; [| exact IH].
  constructor; [| exact IH].
  intros Hin. apply list_elem_of_omap in Hin as ([k q] & Hin & HFk).
  apply elem_of_lookup_imap in Hin as (j & q' & [= -> ->] & _).
  discriminate (Hinj _ _ _ _ _ HF HFk).
Qed.

Lemma matchingPixels_NoDup (m : GraphicMask) (target : Identity)
    (extrema : option Extrema) :
  NoDup (matchingPixels m target extrema).
Proof.
  unfold matchingPixels. apply (omap_imap_NoDup _ _ (fun i => i)).
  intros i j p q pt Hi Hj.
  destruct (inScanRegion _ _ _ _ && _); [| discriminate].
  destruct (inScanRegion _ _ _ _ && _); [| discriminate].
  injection Hi as <-. injection Hj as Hc Hr.
  symmetry. apply (col_row_inj m); assumption.
Qed.

Lemma connected4_perm (A B : list Point) :
  A ≡ₚ B → connected4 A → connected4 B.
Proof.
  intros Hperm Hconn p q Hp Hq. rewrite <- Hperm in Hp, Hq.
  eapply rtc_subrel; [| apply Hconn; assumption].
  intros x y [Hy Hadj]. split; [rewrite <- Hperm; exact Hy | exact Hadj].
Qed.

Lemma getBlobs_components (m : GraphicMask) (id : Identity) :
  id ≠ background →
  getBlobs m id None
  = imap (fun i c => (Z.of_nat i + 1, blobOfComponent (canvasWidth m + 1) c))
         (components (length (matchingPixels m id None))
                     (matchingPixels m id None)).
Proof.
  intros Hid. unfold getBlobs.
  destruct (arraysMatch id background) eqn:Hbg; [| reflexivity].
  apply arraysMatch_eq in Hbg. contradiction.
Qed.

(** With the identity locked, a removal writes no pixel: the only pixels
    it could clear hold the locked identity. *)
Lemma remove_locked_target (cov : Z → Z → bool) (m : GraphicMask)
    (id : Identity) :
  fuseId id ∈ lockedInstances m → paintWith cov m id FillRemove = m.
Proof.
  intros Hlocked.
  assert (Hnone : ∀ i p, paintedPixel cov m id FillRemove i p = None).
  { intros i p. unfold paintedPixel, writeRule.
    destruct (cov _ _); [| reflexivity].
    destruct (arraysMatch (pixelIdentity p) id) eqn:Hmatch; [| reflexivity].
    apply arraysMatch_eq in Hmatch. unfold isLocked.
    rewrite Hmatch, bool_decide_eq_true_2 by exact Hlocked. reflexivity. }
  assert (Hw : imap (paintedPixel cov m id FillRemove) (pixels m)
               = (fun _ => None) <$> pixels m).
  { apply list_eq. intros i. rewrite list_lookup_imap, list_lookup_fmap.
    destruct (pixels m !! i); cbn [fmap option_fmap option_map];
      [rewrite Hnone |]; reflexivity. }
  unfold paintWith. rewrite Hw.
  assert (Hz : ∀ l : list Pixel,
            zip_with (fun p (w : option Pixel) => default p w) l
                     ((fun _ => None) <$> l) = l).
  { induction l as [| p l IH]; [reflexivity |].
    cbn [fmap list_fmap zip_with]. cbn [fmap] in IH. rewrite IH. reflexivity. }
  assert (He : ∀ l : list Pixel,
            existsb (fun w : option Pixel => bool_decide (is_Some w))
                    ((fun _ => None) <$> l) = false).
  { induction l as [| p l IH]; [reflexivity |].
    cbn [fmap list_fmap existsb]. cbn [fmap] in IH. rewrite IH.
    rewrite bool_decide_eq_false_2; [reflexivity |].
    intros [? ?]; discriminate. }
  rewrite Hz, He. destruct m; reflexivity.
Qed.

(** On a raster for which the extractor returns a blob of 3 pixels with a
    single external contour and a blob of 50, the filter of size 10 makes
    one paint: the removal of the outline of the small blob. *)
Lemma filterId_one_small_blob (m : GraphicMask) (id : Identity)
    (b3 b50 : Blob) (c : Contour) :
  map snd (getBlobs m id None) ≡ₚ [b3; b50] →
  nbPixels b3 = 3 → nbPixels b50 = 50 →
  contours b3 = [c] → ctype c = External →
  filterId id 10 m
  = updateByPolygon (convertIndexToDict (points c) (canvasWidth m + 1)) id
                    FillRemove m.
Proof.
  intros Hblobs Hn3 Hn50 Hcs Hext.
  rewrite filterId_calls.
  apply Permutation_sym, Permutation_length_2_inv in Hblobs.
  destruct (getBlobs m id None) as [| [k1 x1] [| [k2 x2] [| ? ?]]];
    cbn [map snd] in Hblobs; destruct Hblobs as [Hb | Hb]; try discriminate;
    injection Hb as -> ->;
    cbn [filterPaintCalls flat_map]; unfold blobPaintCalls;
    rewrite Hn3, Hn50, Hcs;
    change (3 <? 10) with true; change (50 <? 10) with false;
    cbn [map app]; rewrite Hext; reflexivity.
Qed.

(** C1, with the lock it depends on.  Take a raster of
    [canvasWidth * canvasHeight] pixels whose pixels of identity [id], not
    the background, are those of two blobs: [S3], three pixels, and [S50],
    fifty pixels, each connected by sides and the two not touching by a
    side.  When [id] is not locked, after [filterId id 10] the pixels of
    identity [id] are exactly those of [S50]: every pixel of [S3] is
    background and every other pixel is as it was.  When [id] is locked,
    [filterId id 10] leaves this raster as it is, both blobs included. *)
Theorem filterId_leaves_large_blob (m : GraphicMask) (id : Identity)
    (S3 S50 : list Point) :
  0 < canvasWidth m →
  Z.of_nat (length (pixels m)) = canvasWidth m * canvasHeight m →
  matchingPixels m id None ≡ₚ S3 ++ S50 →
  length S3 = 3%nat → length S50 = 50%nat →
  connected4 S3 → connected4 S50 → separated S3 S50 →
  id ≠ background →
  (fuseId id ∉ lockedInstances m →
     (∀ pt, pt ∈ matchingPixels (filterId id 10 m) id None ↔ pt ∈ S50)
     ∧ (∀ i p, pixels m !! i = Some p → (colOf m i, rowOf m i) ∈ S3 →
          pixels (filterId id 10 m) !! i = Some (withIdentity p background))
     ∧ (∀ i p, pixels m !! i = Some p → (colOf m i, rowOf m i) ∉ S3 →
          pixels (filterId id 10 m) !! i = Some p))
  ∧ (fuseId id ∈ lockedInstances m → filterId id 10 m = m).
Proof.
  intros Hw Hlen Hpix Hlen3 Hlen50 Hconn3 Hconn50 Hsep Hid.
  pose proof (matchingPixels_NoDup m id None) as Hnd.
  assert (Hnd' : NoDup (S3 ++ S50)) by (rewrite <- Hpix; exact Hnd).
  apply NoDup_app in Hnd' as (Hnd3 & Hdisj & Hnd50).
  destruct (components_two _ S3 S50 Hnd Hpix) as (c3 & c50 & Hc3 & Hc50 & Hcomp);
    try assumption.
  { destruct S3; [discriminate | discriminate]. }
  { destruct S50; [discriminate | discriminate]. }
  destruct (small_blob_outline (canvasWidth m + 1) c3)
    as (contour & Hblob & Hext & Hcover).
  { rewrite Hc3. exact Hlen3. }
  { rewrite Hc3. exact Hnd3. }
  { apply (connected4_perm S3); [symmetry; exact Hc3 | exact Hconn3]. }
  { intros q Hq. rewrite Hc3 in Hq.
    assert (Hin : q ∈ matchingPixels m id None)
      by (rewrite Hpix; apply elem_of_app; left; exact Hq).
    apply matchingPixels_elem in Hin as (i & p & _ & -> & Hreg & _).
    unfold inScanRegion in Hreg.
    rewrite !andb_true_iff, !Z.leb_le, !Z.ltb_lt in Hreg. cbn [fst]. lia. }
  assert (Hblobs : map snd (getBlobs m id None)
                   ≡ₚ [mkBlob [contour] 3;
                       blobOfComponent (canvasWidth m + 1) c50]).
  { rewrite (getBlobs_components m id Hid).
    assert (Himap : ∀ (f : nat → list Point → Z * Blob) a b,
              imap f [a; b] = [f 0%nat a; f 1%nat b]) by reflexivity.
    destruct Hcomp as [-> | ->]; rewrite Himap; cbn [map snd]; rewrite Hblob;
      [reflexivity | apply perm_swap]. }
  assert (Hn50 : nbPixels (blobOfComponent (canvasWidth m + 1) c50) = 50).
  { unfold blobOfComponent; cbn [nbPixels]. rewrite Hc50, Hlen50. reflexivity. }
  split.
  - intros Hunlocked.
    apply (filterId_removes_outlined_blob m id S3 S50 (mkBlob [contour] 3)
             (blobOfComponent (canvasWidth m + 1) c50) contour);
      try assumption; try reflexivity.
    + apply Forall_forall. intros pt Hpt. rewrite Hcover.
      destruct pt as [x y]. apply memPoint_elem. rewrite Hc3. exact Hpt.
    + apply Forall_forall. intros pt Hpt. rewrite Hcover.
      destruct pt as [x y]. apply not_true_iff_false. rewrite memPoint_elem, Hc3.
      intros H3. exact (Hdisj _ H3 Hpt).
  - intros Hlocked.
    rewrite (filterId_one_small_blob m id (mkBlob [contour] 3)
               (blobOfComponent (canvasWidth m + 1) c50) contour Hblobs
               eq_refl Hn50 eq_refl Hext).
    apply remove_locked_target, Hlocked.
Qed.

Lemma filterId_leaves_large_blob_witness :
  ((∀ pt, pt ∈ matchingPixels (filterId (1, 0, 5) 10 twoBlobs) (1, 0, 5) None
          ↔ pt ∈ largePixels)
   ∧ (∀ i p, pixels twoBlobs !! i = Some p →
        (colOf twoBlobs i, rowOf twoBlobs i) ∈ smallPixels →
        pixels (filterId (1, 0, 5) 10 twoBlobs) !! i
        = Some (withIdentity p background))
   ∧ (∀ i p, pixels twoBlobs !! i = Some p →
        (colOf twoBlobs i, rowOf twoBlobs i) ∉ smallPixels →
        pixels (filterId (1, 0, 5) 10 twoBlobs) !! i = Some p))
  ∧ filterId (1, 0, 5) 10 twoBlobsLocked = twoBlobsLocked.
Proof.
  split.
  - refine (proj1 (filterId_leaves_large_blob twoBlobs (1, 0, 5) smallPixels
                     largePixels _ _ _ _ _ _ _ _ _) _).
    + reflexivity.
    + reflexivity.
    + vm_compute. reflexivity.
    + reflexivity.
    + reflexivity.
    + apply connectedb_sound. vm_compute. reflexivity.
    + apply connectedb_sound. vm_compute. reflexivity.
    + intros p q Hp Hq. revert q Hq. apply Forall_forall.
      revert p Hp. apply Forall_forall.
      refine (bool_decide_unpack _ _). vm_compute. exact I.
    + discriminate.
    + refine (bool_decide_unpack _ _). vm_compute. exact I.
  - refine (proj2 (filterId_leaves_large_blob twoBlobsLocked (1, 0, 5)
                     smallPixels largePixels _ _ _ _ _ _ _ _ _) _).
    + reflexivity.
    + reflexivity.
    + vm_compute. reflexivity.
    + reflexivity.
    + reflexivity.
    + apply connectedb_sound. vm_compute. reflexivity.
    + apply connectedb_sound. vm_compute. reflexivity.
    + intros p q Hp Hq. revert q Hq. apply Forall_forall.
      revert p Hp. apply Forall_forall.
      refine (bool_decide_unpack _ _). vm_compute. exact I.
    + discriminate.
    + refine (bool_decide_unpack _ _). vm_compute. exact I.
Defined.

(** C1 as stated fails when the identity is locked: the same
    raster, the same two blobs, and the filter leaves the raster as it is;
    the blob of three pixels is still there. *)
Lemma locked_small_blob_survives_filter :
  matchingPixels twoBlobsLocked (1, 0, 5) None = smallPixels ++ largePixels
  ∧ map snd (getBlobs twoBlobsLocked (1, 0, 5) None) = [smallBlob; largeBlob]
  ∧ filterId (1, 0, 5) 10 twoBlobsLocked = twoBlobsLocked
  ∧ matchingPixels (filterId (1, 0, 5) 10 twoBlobsLocked) (1, 0, 5) None
    = smallPixels ++ largePixels.
Proof. repeat split; vm_compute; reflexivity. Qed.

(** * Further properties of the controllers and of the element *)

(** ** The lock controller *)

Lemma editor_eta (st : Editor) : withMask st (gmask st) = st.
Proof. destruct st; reflexivity. Qed.

Lemma withLocked_eta (m : GraphicMask) (L : gset Z) :
  L = lockedInstances m → withLocked m L = m.
Proof. intros ->. destruct m; reflexivity. Qed.

Lemma withMask_withMask (st : Editor) (m1 m2 : GraphicMask) :
  withMask (withMask st m1) m2 = withMask st m2.
Proof. reflexivity. Qed.

Lemma withLocked_withLocked (m : GraphicMask) (L1 L2 : gset Z) :
  withLocked (withLocked m L1) L2 = withLocked m L2.
Proof. reflexivity. Qed.

Lemma classIsLocked_spec (cls : Z) (m : GraphicMask) :
  classIsLocked cls m = true
  ↔ ∃ fId, fId ∈ lockedInstances m ∧ idClass (unfuseId fId) = cls.
Proof.
  unfold classIsLocked. rewrite existsb_exists. split.
  - intros (f & Hin & Heq). exists f. split.
    + apply elem_of_elements, list_elem_of_In, Hin.
    + apply Z.eqb_eq, Heq.
  - intros (f & Hin & Heq). exists f. split.
    + apply list_elem_of_In, elem_of_elements, Hin.
    + apply Z.eqb_eq, Heq.
Qed.

(** X1. A click of the lock controller in instance mode flips the lock of
    the fused id of the pixel under the pointer and of no other id; a
    second click on the same pixel gives back the editor as it was. *)
Theorem lock_instance_click_toggles (x y : Z) (st : Editor) (id : Identity) :
  pixelId (gmask st) (x + y * canvasWidth (gmask st)) = Some id →
  ∃ st1,
    onPointerDownLock LockInstance x y st = Ok st1
    ∧ (fuseId id ∈ lockedInstances (gmask st1)
       ↔ fuseId id ∉ lockedInstances (gmask st))
    ∧ (∀ fId, fId ≠ fuseId id →
         fId ∈ lockedInstances (gmask st1) ↔ fId ∈ lockedInstances (gmask st))
    ∧ onPointerDownLock LockInstance x y st1 = Ok st.
Proof.
  intros Hpix. unfold onPointerDownLock. rewrite Hpix.
  eexists. split; [reflexivity |].
  unfold toggleLock.
  destruct (decide (fuseId id ∈ lockedInstances (gmask st))) as [Hin | Hout].
  - rewrite (bool_decide_eq_true_2 _ Hin).
    cbn [gmask withMask lockedInstances withLocked canvasWidth pixelId].
    split; [set_solver |]. split; [set_solver |].
    change (pixelId (withLocked (gmask st) _) ?i) with (pixelId (gmask st) i).
    change (canvasWidth (withLocked (gmask st) _)) with (canvasWidth (gmask st)).
    rewrite Hpix. cbn [lockedInstances withLocked].
    rewrite bool_decide_eq_false_2 by set_solver.
    cbn [lockedInstances withLocked].
    rewrite withMask_withMask, withLocked_withLocked, withLocked_eta, editor_eta;
      [reflexivity |].
    apply set_eq. intros f. rewrite elem_of_union, elem_of_singleton,
      elem_of_difference, elem_of_singleton.
    destruct (decide (f = fuseId id)); subst; tauto.
  - rewrite (bool_decide_eq_false_2 _ Hout).
    split; [cbn [gmask withMask lockedInstances withLocked]; set_solver |].
    split; [cbn [gmask withMask lockedInstances withLocked]; set_solver |].
    cbn [gmask withMask].
    change (pixelId (withLocked (gmask st) ?L) ?i) with (pixelId (gmask st) i).
    change (canvasWidth (withLocked (gmask st) ?L)) with (canvasWidth (gmask st)).
    rewrite Hpix. cbn [lockedInstances withLocked].
    rewrite bool_decide_eq_true_2 by set_solver.
    cbn [lockedInstances withLocked].
    rewrite withMask_withMask, withLocked_withLocked, withLocked_eta, editor_eta;
      [reflexivity |].
    apply set_eq. intros f. rewrite elem_of_difference, elem_of_union, elem_of_singleton.
    split; [intros [[-> | H] Hne]; [congruence | exact H] |].
    intros H. split; [right; exact H |]. intros ->. contradiction.
Qed.

Lemma knownOfClass_withLocked (cls : Z) (m : GraphicMask) (L : gset Z) :
  knownOfClass cls (withLocked m L) = knownOfClass cls m.
Proof. reflexivity. Qed.

Lemma elem_of_knownOfClass (cls : Z) (m : GraphicMask) (fId : Z) :
  fId ∈ knownOfClass cls m ↔ idClass (unfuseId fId) = cls ∧ fId ∈ fusedIds m.
Proof. unfold knownOfClass. rewrite elem_of_filter. reflexivity. Qed.

(** X2. In class mode, a click on a pixel whose class has no locked id
    adds the known ids of that class to the locked set, and a second click
    on the same pixel gives back the editor as it was, whether or not the
    class has known ids. *)
Theorem lock_class_click_twice (x y : Z) (st : Editor) (id : Identity) :
  pixelId (gmask st) (x + y * canvasWidth (gmask st)) = Some id →
  classIsLocked (idClass id) (gmask st) = false →
  ∃ st1,
    onPointerDownLock LockClass x y st = Ok st1
    ∧ lockedInstances (gmask st1)
      = lockedInstances (gmask st) ∪ knownOfClass (idClass id) (gmask st)
    ∧ onPointerDownLock LockClass x y st1 = Ok st.
Proof.
  intros Hpix Hfree.
  assert (Hdisj : ∀ f, f ∈ lockedInstances (gmask st) →
                       idClass (unfuseId f) ≠ idClass id).
  { intros f Hf Hcls.
    assert (classIsLocked (idClass id) (gmask st) = true) as Ht
      by (apply classIsLocked_spec; eauto).
    congruence. }
  rewrite (onPointerDownLock_class x y st id Hpix), Hfree.
  eexists. split; [reflexivity |].
  cbn [gmask withMask]. split; [apply lockAllOfClass_locked |].
  set (m1 := lockAllOfClass (idClass id) (gmask st)).
  assert (Hpix1 : pixelId (gmask (withMask st m1))
                    (x + y * canvasWidth (gmask (withMask st m1))) = Some id)
    by exact Hpix.
  rewrite (onPointerDownLock_class x y _ id Hpix1).
  cbn [gmask withMask]. f_equal. rewrite withMask_withMask.
  assert (HL1 : lockedInstances m1
                = lockedInstances (gmask st) ∪ knownOfClass (idClass id) (gmask st))
    by apply lockAllOfClass_locked.
  assert (HK1 : knownOfClass (idClass id) m1 = knownOfClass (idClass id) (gmask st))
    by reflexivity.
  destruct (classIsLocked (idClass id) m1) eqn:Hl1.
  - (* some known id has the class: the second click unlocks them *)
    replace (withMask st (unlockAllOfClass (idClass id) m1))
      with (withMask st (gmask st)); [apply editor_eta |].
    f_equal. symmetry. apply mask_eq; try reflexivity.
    rewrite unlockAllOfClass_locked, HK1, HL1.
    apply set_eq. intros f.
    rewrite elem_of_difference, elem_of_union, elem_of_knownOfClass.
    split.
    + intros [[H | H] Hn]; [exact H | contradiction].
    + intros H. split; [left; exact H |].
      intros [Hc _]. exact (Hdisj f H Hc).
  - (* no known id has the class: neither click changes anything *)
    assert (HK : knownOfClass (idClass id) (gmask st) = ∅).
    { apply set_eq. intros f. split; [| set_solver].
      intros Hf. exfalso.
      assert (classIsLocked (idClass id) m1 = true) as Ht.
      { apply classIsLocked_spec. exists f. split.
        - rewrite HL1. set_solver.
        - apply elem_of_knownOfClass in Hf. tauto. }
      congruence. }
    replace (withMask st (lockAllOfClass (idClass id) m1))
      with (withMask st (gmask st)); [apply editor_eta |].
    f_equal. symmetry. apply mask_eq; try reflexivity.
    rewrite lockAllOfClass_locked, HK1, HL1, HK. set_solver.
Qed.

(** X3. A click of the lock controller changes nothing but the locked
    set: pixels, known ids, class table, selection, mode and events stay.
    In instance mode only the fused id of the pixel can change its lock;
    in class mode only known ids of the class of the pixel can. *)
Theorem lock_click_changes_only_locks (lockType : LockType) (x y : Z)
    (st st1 : Editor) (id : Identity) :
  pixelId (gmask st) (x + y * canvasWidth (gmask st)) = Some id →
  onPointerDownLock lockType x y st = Ok st1 →
  st1 = withMask st (withLocked (gmask st) (lockedInstances (gmask st1)))
  ∧ (∀ fId, (fId ∈ lockedInstances (gmask st1) ↔ fId ∈ lockedInstances (gmask st))
            ∨ match lockType with
              | LockInstance => fId = fuseId id
              | LockClass =>
                  idClass (unfuseId fId) = idClass id ∧ fId ∈ fusedIds (gmask st)
              end).
Proof.
  intros Hpix Hrun. destruct lockType.
  - unfold onPointerDownLock in Hrun. rewrite Hpix in Hrun.
    injection Hrun as <-. unfold toggleLock.
    destruct (bool_decide _); cbn [gmask withMask lockedInstances withLocked].
    + split; [reflexivity |]. intros f.
      destruct (decide (f = fuseId id)); [right; assumption | left; set_solver].
    + split; [reflexivity |]. intros f.
      destruct (decide (f = fuseId id)); [right; assumption | left; set_solver].
  - rewrite (onPointerDownLock_class x y st id Hpix) in Hrun.
    injection Hrun as <-. cbn [gmask withMask].
    destruct (classIsLocked _ _).
    + split; [reflexivity |]. intros f.
      rewrite unlockAllOfClass_locked.
      destruct (decide (f ∈ knownOfClass (idClass id) (gmask st))) as [Hk | Hk].
      * right. apply elem_of_knownOfClass, Hk.
      * left. set_solver.
    + split; [reflexivity |]. intros f.
      rewrite lockAllOfClass_locked.
      destruct (decide (f ∈ knownOfClass (idClass id) (gmask st))) as [Hk | Hk].
      * right. apply elem_of_knownOfClass, Hk.
      * left. set_solver.
Qed.

Lemma lock_instance_click_toggles_witness :
  ∃ st1,
    onPointerDownLock LockInstance 1 3 blobsEditor = Ok st1
    ∧ (fuseId (1, 0, 5) ∈ lockedInstances (gmask st1)
       ↔ fuseId (1, 0, 5) ∉ lockedInstances (gmask blobsEditor))
    ∧ (∀ fId, fId ≠ fuseId (1, 0, 5) →
         fId ∈ lockedInstances (gmask st1)
         ↔ fId ∈ lockedInstances (gmask blobsEditor))
    ∧ onPointerDownLock LockInstance 1 3 st1 = Ok blobsEditor.
Proof.
  apply (lock_instance_click_toggles 1 3 blobsEditor (1, 0, 5)).
  vm_compute. reflexivity.
Defined.

Lemma lock_class_click_twice_witness :
  ∃ st1,
    onPointerDownLock LockClass 1 3 blobsEditor = Ok st1
    ∧ lockedInstances (gmask st1)
      = lockedInstances (gmask blobsEditor) ∪ knownOfClass 5 (gmask blobsEditor)
    ∧ onPointerDownLock LockClass 1 3 st1 = Ok blobsEditor.
Proof.
  apply (lock_class_click_twice 1 3 blobsEditor (1, 0, 5)).
  - vm_compute. reflexivity.
  - vm_compute. reflexivity.
Defined.

Lemma lock_click_changes_only_locks_witness :
  withMask blobsEditor (lockAllOfClass 5 (gmask blobsEditor))
  = withMask blobsEditor
      (withLocked (gmask blobsEditor)
         (lockedInstances
            (gmask (withMask blobsEditor (lockAllOfClass 5 (gmask blobsEditor))))))
  ∧ (∀ fId,
       (fId ∈ lockedInstances
                (gmask (withMask blobsEditor
                          (lockAllOfClass 5 (gmask blobsEditor))))
        ↔ fId ∈ lockedInstances (gmask blobsEditor))
       ∨ (idClass (unfuseId fId) = idClass (1, 0, 5)
          ∧ fId ∈ fusedIds (gmask blobsEditor))).
Proof.
  apply (lock_click_changes_only_locks LockClass 1 3 blobsEditor
           (withMask blobsEditor (lockAllOfClass 5 (gmask blobsEditor)))
           (1, 0, 5)).
  - vm_compute. reflexivity.
  - vm_compute. reflexivity.
Defined.

(** ** Reassigning the class of the selection *)

Lemma getNextId_no_TypeError (m : GraphicMask) : getNextId m ≠ Throw TypeError.
Proof.
  unfold getNextId. destruct (List.find _ _); [| discriminate].
  destruct (_ <? _); discriminate.
Qed.

Lemma truthy_true (n : Z) : truthy n = true ↔ n ≠ 0.
Proof.
  unfold truthy. rewrite negb_true_iff, Z.eqb_neq. reflexivity.
Qed.

(** X4. [fillSelectionWithClass] throws a TypeError exactly when
    something is selected and either the new class has no entry in the class
    table, or the new class is instantiable and the class of the selection
    has no entry.  In particular a reassignment to a class that is not
    instantiable does not look at the class of the selection. *)
Theorem fillSelectionWithClass_throws (newClass : Z) (st : Editor) :
  fillSelectionWithClass newClass st = Throw TypeError
  ↔ ∃ sel, selectedId st = Some sel
           ∧ (clsMap (gmask st) !! newClass = None
              ∨ (∃ r g b isInstance,
                   clsMap (gmask st) !! newClass = Some (r, g, b, isInstance)
                   ∧ isInstance ≠ 0
                   ∧ clsMap (gmask st) !! idClass sel = None)).
Proof.
  unfold fillSelectionWithClass, isInstanceOf.
  destruct (selectedId st) as [sel |]; [| split; [discriminate | intros (? & ? & _); discriminate]].
  destruct (clsMap (gmask st) !! newClass) as [[[[r g] b] i] |] eqn:Hnew; cbn [bind].
  - destruct (truthy i) eqn:Hi.
    + destruct (clsMap (gmask st) !! idClass sel) as [[[[r' g'] b'] i'] |] eqn:Hcur;
        cbn [bind].
      * split.
        -- intros H. exfalso.
           destruct (truthy i'); cbn [negb] in H.
           ++ discriminate.
           ++ destruct (getNextId (gmask st)) eqn:Hn; cbn [bind] in H;
                [discriminate |].
              apply (getNextId_no_TypeError (gmask st)). congruence.
        -- intros (s & [= <-] & [H | (? & ? & ? & ? & _ & _ & H)]); congruence.
      * split; [intros _ | reflexivity].
        exists sel. split; [reflexivity |]. right.
        exists r, g, b, i. split; [first [reflexivity | exact Hnew] |].
        split; [apply truthy_true, Hi | first [reflexivity | exact Hcur]].
    + cbn [bind negb]. split; [discriminate |].
      intros (s & _ & [H | (r' & g' & b' & i' & [= _ _ _ <-] & Hne & _)]);
        [discriminate |].
      apply truthy_true in Hne. congruence.
  - split; [intros _ | reflexivity].
    exists sel. split; [reflexivity |]. left. first [reflexivity | exact Hnew].
Qed.

(** X5. When [fillSelectionWithClass] succeeds on a selection, the region
    is recoloured with [replaceValue] to an identity of the new class, which
    becomes the selection.  It is [(0, 0, class)] for a class that is not
    instantiable; it keeps the instance number of the selection when both
    classes are instantiable; it takes the number of [getNextId] when only
    the new class is. *)
Theorem fillSelectionWithClass_identity (newClass : Z) (st st' : Editor)
    (sel : Identity) :
  selectedId st = Some sel →
  fillSelectionWithClass newClass st = Ok st' →
  ∃ r g b newIsInstance newId,
    clsMap (gmask st) !! newClass = Some (r, g, b, newIsInstance)
    ∧ st' = withSelected (withMask st (replaceValue sel newId (gmask st)))
                         (Some newId)
    ∧ idClass newId = newClass
    ∧ (newIsInstance = 0 → newId = (0, 0, newClass))
    ∧ (newIsInstance ≠ 0 →
         ∃ r' g' b' currIsInstance,
           clsMap (gmask st) !! idClass sel = Some (r', g', b', currIsInstance)
           ∧ (currIsInstance ≠ 0 → newId = (idLow sel, idHigh sel, newClass))
           ∧ (currIsInstance = 0 →
                ∃ n, getNextId (gmask st) = Ok n ∧ newId = (n.1, n.2, newClass))).
Proof.
  intros Hsel. unfold fillSelectionWithClass, isInstanceOf, fillSelection.
  rewrite Hsel.
  destruct (clsMap (gmask st) !! newClass) as [[[[r g] b] i] |] eqn:Hnew;
    cbn [bind]; [| discriminate].
  destruct (truthy i) eqn:Hi.
  - destruct (clsMap (gmask st) !! idClass sel) as [[[[r' g'] b'] i'] |] eqn:Hcur;
      cbn [bind]; [| discriminate].
    apply truthy_true in Hi.
    destruct (truthy i') eqn:Hi'; cbn [negb].
    + apply truthy_true in Hi'.
      intros [= <-]. exists r, g, b, i, (idLow sel, idHigh sel, newClass).
      split; [reflexivity |]. split; [reflexivity |]. split; [reflexivity |].
      split; [intros; contradiction |]. intros _.
      exists r', g', b', i'. split; [reflexivity |].
      split; [reflexivity | intros; contradiction].
    + assert (i' = 0) as Hz.
      { destruct (Z.eq_dec i' 0) as [e | n]; [exact e |].
        apply truthy_true in n. congruence. }
      destruct (getNextId (gmask st)) as [n | e] eqn:Hn; cbn [bind];
        [| discriminate].
      intros [= <-]. exists r, g, b, i, (n.1, n.2, newClass).
      split; [reflexivity |]. split; [reflexivity |]. split; [reflexivity |].
      split; [intros; contradiction |]. intros _.
      exists r', g', b', i'. split; [reflexivity |].
      split; [intros; contradiction |]. intros _. exists n. split; reflexivity.
  - cbn [bind negb].
    assert (i = 0) as Hz.
    { destruct (Z.eq_dec i 0) as [e | n]; [exact e |].
      apply truthy_true in n. congruence. }
    intros [= <-]. exists r, g, b, i, (0, 0, newClass).
    split; [reflexivity |]. split; [reflexivity |]. split; [reflexivity |].
    split; [reflexivity | intros; contradiction].
Qed.

Lemma fillSelectionWithClass_identity_witness :
  ∃ r g b newIsInstance newId,
    clsMap (gmask blobsEditorSelected) !! 2 = Some (r, g, b, newIsInstance)
    ∧ fillSelection (0, 0, 2) blobsEditorSelected
      = withSelected
          (withMask blobsEditorSelected
             (replaceValue (1, 0, 5) newId (gmask blobsEditorSelected)))
          (Some newId)
    ∧ idClass newId = 2
    ∧ (newIsInstance = 0 → newId = (0, 0, 2))
    ∧ (newIsInstance ≠ 0 →
         ∃ r' g' b' currIsInstance,
           clsMap (gmask blobsEditorSelected) !! idClass (1, 0, 5)
           = Some (r', g', b', currIsInstance)
           ∧ (currIsInstance ≠ 0 → newId = (idLow (1, 0, 5), idHigh (1, 0, 5), 2))
           ∧ (currIsInstance = 0 →
                ∃ n, getNextId (gmask blobsEditorSelected) = Ok n
                     ∧ newId = (n.1, n.2, 2))).
Proof.
  apply (fillSelectionWithClass_identity 2 blobsEditorSelected
           (fillSelection (0, 0, 2) blobsEditorSelected) (1, 0, 5)).
  - reflexivity.
  - vm_compute. reflexivity.
Defined.

(** ** The brush *)

Lemma flat_map_rows_length {A B : Type} (g : A → list B) (n : nat) (l : list A) :
  (∀ a, length (g a) = n) → length (flat_map g l) = (n * length l)%nat.
Proof.
  intros Hg. induction l as [| a l IH]; cbn [flat_map length]; [lia |].
  rewrite length_app, Hg, IH. lia.
Qed.

Lemma flat_map_rows_lookup {A B : Type} (g : A → list B) (n : nat) (l : list A)
    (j x : nat) (a : A) :
  (∀ a, length (g a) = n) → l !! j = Some a → (x < n)%nat →
  flat_map g l !! (x + n * j)%nat = g a !! x.
Proof.
  intros Hg. revert j. induction l as [| a0 l IH]; intros j Hj Hx; [discriminate |].
  cbn [flat_map]. destruct j as [| j].
  - injection Hj as ->. rewrite lookup_app_l by (rewrite Hg; lia).
    f_equal. lia.
  - cbn in Hj. rewrite lookup_app_r by (rewrite Hg; lia).
    rewrite Hg. replace (x + n * S j - n)%nat with (x + n * j)%nat by lia.
    apply IH; assumption.
Qed.

Lemma roiMatrixOf_length (r : Z) :
  0 ≤ r → Z.of_nat (length (roiMatrixOf r)) = (2 * r) * (2 * r).
Proof.
  intros Hr. unfold roiMatrixOf.
  rewrite (flat_map_rows_length _ (Z.to_nat (2 * r))).
  - rewrite length_seqZ. lia.
  - intros y. rewrite length_map, length_seqZ. reflexivity.
Qed.

Lemma roiMatrixOf_lookup (r x y : Z) :
  0 ≤ x < 2 * r → 0 ≤ y < 2 * r →
  roiMatrixOf r !! Z.to_nat (x + 2 * r * y) = Some (roiCell r x y).
Proof.
  intros Hx Hy. unfold roiMatrixOf.
  replace (Z.to_nat (x + 2 * r * y))
    with (Z.to_nat x + Z.to_nat (2 * r) * Z.to_nat y)%nat by nia.
  rewrite (flat_map_rows_lookup _ (Z.to_nat (2 * r)) _ _ _ y).
  - change (map ?f ?l) with (f <$> l).
    rewrite list_lookup_fmap, lookup_seqZ_lt by lia. cbn [fmap option_fmap option_map].
    unfold roiCell. rewrite Z.add_0_l, Z2Nat.id by lia. reflexivity.
  - intros a. rewrite length_map, length_seqZ. reflexivity.
  - rewrite lookup_seqZ_lt by lia. f_equal. lia.
  - lia.
Qed.

(** X9. The matrix that [initRoi] computes for radius [r] has
    [(2r) * (2r)] cells; the cell of column [x] and row [y] is at index
    [x + 2r * y] and is set when the centre of the cell is within [r] of
    the centre of the matrix; the matrix is its own mirror image from left
    to right and from top to bottom, and its own transpose. *)
Theorem brush_disc_symmetric (r x y : Z) :
  0 ≤ x < 2 * r → 0 ≤ y < 2 * r →
  Z.of_nat (length (roiMatrixOf r)) = (2 * r) * (2 * r)
  ∧ roiMatrixOf r !! Z.to_nat (x + 2 * r * y)
    = Some ((2 * r - 2 * x - 1) * (2 * r - 2 * x - 1)
            + (2 * r - 2 * y - 1) * (2 * r - 2 * y - 1) <=? 4 * r * r)
  ∧ roiMatrixOf r !! Z.to_nat ((2 * r - 1 - x) + 2 * r * y)
    = roiMatrixOf r !! Z.to_nat (x + 2 * r * y)
  ∧ roiMatrixOf r !! Z.to_nat (x + 2 * r * (2 * r - 1 - y))
    = roiMatrixOf r !! Z.to_nat (x + 2 * r * y)
  ∧ roiMatrixOf r !! Z.to_nat (y + 2 * r * x)
    = roiMatrixOf r !! Z.to_nat (x + 2 * r * y).
Proof.
  intros Hx Hy.
  split; [apply roiMatrixOf_length; lia |].
  rewrite !roiMatrixOf_lookup by lia.
  unfold roiCell.
  split; [reflexivity |].
  split; [| split]; f_equal; f_equal; ring.
Qed.

(** X8. Whatever keys are pressed over a brush whose radius is at least
    1 and whose matrix is the one of its radius, the radius stays at least
    1, the matrix stays the one of the radius, with [(2r) * (2r)] cells,
    and the radius has moved by at most one per key. *)
Theorem brush_keys_keep_radius (keys : list (Brush.Key * Z * Z))
    (c : BrushController) :
  1 ≤ roiRadius c → roiMatrix c = roiMatrixOf (roiRadius c) →
  1 ≤ roiRadius (brushKeys keys c)
  ∧ roiMatrix (brushKeys keys c) = roiMatrixOf (roiRadius (brushKeys keys c))
  ∧ Z.of_nat (length (roiMatrix (brushKeys keys c)))
    = (2 * roiRadius (brushKeys keys c)) * (2 * roiRadius (brushKeys keys c))
  ∧ roiRadius c - Z.of_nat (length keys) ≤ roiRadius (brushKeys keys c)
    ≤ roiRadius c + Z.of_nat (length keys).
Proof.
  revert c. induction keys as [| [[k mx] my] keys IH]; intros c Hr Hm.
  - cbn [brushKeys fold_left length]. split; [exact Hr |]. split; [exact Hm |].
    split; [| lia]. rewrite Hm. apply roiMatrixOf_length. lia.
  - change (brushKeys (((k, mx), my) :: keys) c)
      with (brushKeys keys (Brush.onKeyDown k mx my c)).
    assert (Hstep : 1 ≤ roiRadius (Brush.onKeyDown k mx my c)
                    ∧ roiMatrix (Brush.onKeyDown k mx my c)
                      = roiMatrixOf (roiRadius (Brush.onKeyDown k mx my c))
                    ∧ roiRadius c - 1 ≤ roiRadius (Brush.onKeyDown k mx my c)
                      ≤ roiRadius c + 1).
    { destruct k; cbn [Brush.onKeyDown Brush.initRoi roiRadius roiMatrix].
      - split; [lia |]. split; [reflexivity | lia].
      - split; [lia |]. split; [reflexivity | lia].
      - split; [exact Hr |]. split; [exact Hm | lia]. }
    destruct Hstep as (Hr1 & Hm1 & Hb).
    destruct (IH _ Hr1 Hm1) as (H1 & H2 & H3 & H4).
    split; [exact H1 |]. split; [exact H2 |]. split; [exact H3 |].
    cbn [length]. lia.
Qed.

(** X6. A press of the brush that is not a plain left click, made when
    nothing is selected, does not change the edition mode: it stamps the
    background identity [(0, 0, 0)] in the mode left by the stroke before
    (add or remove), selects nothing, and the release that ends this stroke
    throws a TypeError. *)
Theorem brush_press_without_selection (button : Z) (ctrlKey shiftKey : bool)
    (mouseX mouseY : Z) (c : BrushController) (st : Editor) :
  selectedId st = None → button ≠ 1 →
  button ≠ 0 ∨ ctrlKey = true ∨ shiftKey = true →
  brushEditionMode c ≠ NEW_INSTANCE →
  ∃ c' st',
    onPointerDownBrush button ctrlKey shiftKey mouseX mouseY c st = Ok (c', st')
    ∧ brushEditionMode c' = brushEditionMode c
    ∧ isActive c' = true
    ∧ st' = withMask st
              (updateByMaskInRoi (roiMatrix c)
                 (roiBox (roiRadius c) mouseX mouseY) (0, 0, 0)
                 (fillTypeOf (brushEditionMode c)) (gmask st))
    ∧ onPointerUpBrush c' st' = Throw TypeError.
Proof.
  intros Hsel Hb Hmod Hmode. unfold onPointerDownBrush.
  destruct (Z.eqb_spec button 1) as [| _]; [contradiction |].
  rewrite Hsel.
  rewrite (bool_decide_eq_false_2 (is_Some None)) by (intros [? ?]; discriminate).
  rewrite !andb_false_r.
  assert ((button =? 0) && negb ctrlKey && negb shiftKey = false) as ->.
  { destruct Hmod as [H | [-> | ->]].
    - apply Z.eqb_neq in H. rewrite H. reflexivity.
    - rewrite andb_false_r. reflexivity.
    - apply andb_false_r. }
  unfold getTargetValue. rewrite Hsel.
  destruct (brushEditionMode c) eqn:Hm; [| | contradiction];
    cbn [bind]; eexists _, _; (split; [reflexivity |]);
    cbn [brushEditionMode isActive];
    (split; [reflexivity |]); (split; [reflexivity |]); (split; [reflexivity |]);
    unfold onPointerUpBrush; cbn [isActive selectedId withMask]; rewrite Hsel;
    reflexivity.
Qed.

(** X7. A release ends the stroke only when it does not throw.
    [onPointerUpBrush] throws, a TypeError, exactly when the brush is
    active and nothing is selected.  When it does not throw, the brush is
    inactive afterwards: a pointer move only moves the brush, a second
    release dispatches nothing and a press of the middle button starts no
    stroke; all three leave the editor as it is.  When it throws, the
    brush and the editor are as before the release, the brush still
    active: in add or remove mode the next pointer move stamps the
    background identity and paints the strip between the two positions
    with it. *)
Theorem brush_release_ends_stroke (c : BrushController) (st : Editor) :
  (onPointerUpBrush c st = Throw TypeError
   ↔ isActive c = true ∧ selectedId st = None)
  ∧ (∀ c1 st1,
       onPointerUpBrush c st = Ok (c1, st1) →
       afterPointerUpBrush c st = (c1, st1)
       ∧ isActive c1 = false
       ∧ (∀ newX newY dx dy,
            onPointerMoveBrush newX newY dx dy c1 st1
            = Ok (mkBrush (brushEditionMode c) false (roiRadius c) (roiMatrix c)
                          newX newY, st1))
       ∧ onPointerUpBrush c1 st1 = Ok (c1, st1)
       ∧ (∀ ctrlKey shiftKey mouseX mouseY,
            onPointerDownBrush 1 ctrlKey shiftKey mouseX mouseY c1 st1
            = Ok (c1, st1)))
  ∧ (isActive c = true → selectedId st = None →
       afterPointerUpBrush c st = (c, st)
       ∧ (brushEditionMode c ≠ NEW_INSTANCE →
          ∀ newX newY dx dy,
            onPointerMoveBrush newX newY dx dy c st
            = Ok (mkBrush (brushEditionMode c) true (roiRadius c) (roiMatrix c)
                          newX newY,
                  withMask st
                    (updateByPolygon
                       [(roiX c + dx, roiY c + dy); (roiX c - dx, roiY c - dy);
                        (newX - dx, newY - dy); (newX + dx, newY + dy)]
                       (0, 0, 0) (fillTypeOf (brushEditionMode c))
                       (updateByMaskInRoi (roiMatrix c)
                          (roiBox (roiRadius c) newX newY) (0, 0, 0)
                          (fillTypeOf (brushEditionMode c)) (gmask st)))))).
Proof.
  split; [| split].
  - unfold onPointerUpBrush. destruct (isActive c).
    + destruct (selectedId st).
      * split; [discriminate | intros [_ H]; discriminate].
      * split; [intros _; split; reflexivity | reflexivity].
    + split; [discriminate | intros [H _]; discriminate].
  - intros c1 st1 Hup.
    assert (Hc1 : c1 = mkBrush (brushEditionMode c) false (roiRadius c)
                               (roiMatrix c) (roiX c) (roiY c)).
    { unfold onPointerUpBrush in Hup. destruct (isActive c).
      - destruct (selectedId st); [| discriminate].
        injection Hup as <- _. reflexivity.
      - injection Hup as <- _. reflexivity. }
    split; [unfold afterPointerUpBrush; rewrite Hup; reflexivity |].
    subst c1. split; [reflexivity |]. split; [reflexivity |].
    split; reflexivity.
  - intros Hactive Hsel. split.
    + unfold afterPointerUpBrush, onPointerUpBrush. rewrite Hactive, Hsel.
      reflexivity.
    + intros Hmode newX newY dx dy. unfold onPointerMoveBrush.
      rewrite Hactive.
      assert (Hget : ∀ st0, selectedId st0 = None →
                getTargetValue (brushEditionMode c) st0 = Ok ((0, 0, 0), st0)).
      { intros st0 H0. unfold getTargetValue. rewrite H0.
        destruct (brushEditionMode c); [reflexivity | reflexivity | contradiction]. }
      rewrite (Hget st Hsel). cbn [bind].
      rewrite Hget by exact Hsel. cbn [bind]. reflexivity.
Qed.

Lemma brush_disc_symmetric_witness :
  Z.of_nat (length (roiMatrixOf 5)) = (2 * 5) * (2 * 5)
  ∧ roiMatrixOf 5 !! Z.to_nat (1 + 2 * 5 * 3)
    = Some ((2 * 5 - 2 * 1 - 1) * (2 * 5 - 2 * 1 - 1)
            + (2 * 5 - 2 * 3 - 1) * (2 * 5 - 2 * 3 - 1) <=? 4 * 5 * 5)
  ∧ roiMatrixOf 5 !! Z.to_nat ((2 * 5 - 1 - 1) + 2 * 5 * 3)
    = roiMatrixOf 5 !! Z.to_nat (1 + 2 * 5 * 3)
  ∧ roiMatrixOf 5 !! Z.to_nat (1 + 2 * 5 * (2 * 5 - 1 - 3))
    = roiMatrixOf 5 !! Z.to_nat (1 + 2 * 5 * 3)
  ∧ roiMatrixOf 5 !! Z.to_nat (3 + 2 * 5 * 1)
    = roiMatrixOf 5 !! Z.to_nat (1 + 2 * 5 * 3).
Proof. apply (brush_disc_symmetric 5 1 3); lia. Defined.

Lemma brush_keys_keep_radius_witness :
  1 ≤ roiRadius (brushKeys (replicate 6 (Brush.KeyMinus, 0, 0)) brush5)
  ∧ roiMatrix (brushKeys (replicate 6 (Brush.KeyMinus, 0, 0)) brush5)
    = roiMatrixOf (roiRadius (brushKeys (replicate 6 (Brush.KeyMinus, 0, 0)) brush5))
  ∧ Z.of_nat (length (roiMatrix (brushKeys (replicate 6 (Brush.KeyMinus, 0, 0)) brush5)))
    = (2 * roiRadius (brushKeys (replicate 6 (Brush.KeyMinus, 0, 0)) brush5))
      * (2 * roiRadius (brushKeys (replicate 6 (Brush.KeyMinus, 0, 0)) brush5))
  ∧ roiRadius brush5 - Z.of_nat (length (replicate 6 (Brush.KeyMinus, 0, 0)))
    ≤ roiRadius (brushKeys (replicate 6 (Brush.KeyMinus, 0, 0)) brush5)
    ≤ roiRadius brush5 + Z.of_nat (length (replicate 6 (Brush.KeyMinus, 0, 0))).
Proof.
  apply (brush_keys_keep_radius (replicate 6 (Brush.KeyMinus, 0, 0)) brush5).
  - simpl. lia.
  - reflexivity.
Defined.

Lemma brush_press_without_selection_witness :
  ∃ c' st',
    onPointerDownBrush 0 true false 2 2 brushAdding editor4' = Ok (c', st')
    ∧ brushEditionMode c' = brushEditionMode brushAdding
    ∧ isActive c' = true
    ∧ st' = withMask editor4'
              (updateByMaskInRoi (roiMatrix brushAdding)
                 (roiBox (roiRadius brushAdding) 2 2) (0, 0, 0)
                 (fillTypeOf (brushEditionMode brushAdding)) (gmask editor4'))
    ∧ onPointerUpBrush c' st' = Throw TypeError.
Proof.
  apply (brush_press_without_selection 0 true false 2 2 brushAdding editor4').
  - reflexivity.
  - lia.
  - right. left. reflexivity.
  - discriminate.
Defined.

Lemma brush_release_ends_stroke_witness :
  afterPointerUpBrush brushAdding editor4' = (brushAdding, editor4')
  ∧ onPointerMoveBrush 3 2 0 (-1) brushAdding editor4'
    = Ok (mkBrush ADD_TO_INSTANCE true 1 (roiMatrixOf 1) 3 2,
          withMask editor4'
            (updateByPolygon [(2, 1); (2, 3); (3, 3); (3, 1)] (0, 0, 0) FillAdd
               (updateByMaskInRoi (roiMatrixOf 1) (roiBox 1 3 2) (0, 0, 0)
                  FillAdd (gmask editor4')))).
Proof.
  destruct (proj2 (proj2 (brush_release_ends_stroke brushAdding editor4'))
              eq_refl eq_refl) as [Hleft Hmove].
  split; [exact Hleft |].
  apply (Hmove ltac:(discriminate) 3 2 0 (-1)).
Defined.

(** ** Drawing a polygon *)

Lemma removelast_snoc {A : Type} (l : list A) (a : A) : removelast (l ++ [a]) = l.
Proof. apply removelast_last. Qed.

Lemma pointerStep_mode (c : PolygonController) (ev : PointerEvent) :
  polygonEditionMode (pointerStep c ev) = polygonEditionMode c.
Proof.
  destruct ev; cbn [pointerStep];
    unfold onPointerDownSelectionPolygon, onPointerMoveTempPolygon;
    destruct (tempPolygon c); reflexivity.
Qed.

Lemma draw_mode (evs : list PointerEvent) (c : PolygonController) :
  polygonEditionMode (draw evs c) = polygonEditionMode c.
Proof.
  revert c. induction evs as [| ev evs IH]; intros c; [reflexivity |].
  change (draw (ev :: evs) c) with (draw evs (pointerStep c ev)).
  rewrite IH. apply pointerStep_mode.
Qed.

(** While a polygon is drawn its nodes are the points clicked so far and
    one more node, which follows the pointer. *)
Lemma draw_nodes (evs : list PointerEvent) (c : PolygonController)
    (pts : list Point) (p : Point) :
  tempPolygon c = Some (pts ++ [p]) →
  ∃ q, tempPolygon (draw evs c) = Some ((pts ++ clicked evs) ++ [q]).
Proof.
  revert c pts p. induction evs as [| ev evs IH]; intros c pts p Hc.
  - exists p. cbn [draw fold_left clicked omap list_omap]. rewrite app_nil_r. exact Hc.
  - change (draw (ev :: evs) c) with (draw evs (pointerStep c ev)).
    destruct ev as [x y | x y].
    + assert (H1 : tempPolygon (pointerStep c (PointerDown x y))
                   = Some ((pts ++ [(x, y)]) ++ [(x, y)])).
      { cbn [pointerStep]. unfold onPointerDownSelectionPolygon. rewrite Hc.
        cbn [tempPolygon]. rewrite removelast_snoc. reflexivity. }
      destruct (IH _ _ _ H1) as [q Hq]. exists q. rewrite Hq.
      change (clicked (PointerDown x y :: evs)) with ((x, y) :: clicked evs).
      f_equal. f_equal. rewrite <- app_assoc. reflexivity.
    + assert (H1 : tempPolygon (pointerStep c (PointerMove x y))
                   = Some (pts ++ [(x, y)])).
      { cbn [pointerStep]. unfold onPointerMoveTempPolygon. rewrite Hc.
        cbn [tempPolygon]. rewrite removelast_snoc. reflexivity. }
      destruct (IH _ _ _ H1) as [q Hq]. exists q. rewrite Hq. reflexivity.
Qed.

Lemma draw_from_nothing (evs : list PointerEvent) (c : PolygonController) :
  tempPolygon c = None →
  match clicked evs with
  | [] => draw evs c = c
  | _ => ∃ q, tempPolygon (draw evs c) = Some (clicked evs ++ [q])
  end.
Proof.
  revert c. induction evs as [| ev evs IH]; intros c Hc; [reflexivity |].
  change (draw (ev :: evs) c) with (draw evs (pointerStep c ev)).
  destruct ev as [x y | x y].
  - change (clicked (PointerDown x y :: evs)) with ((x, y) :: clicked evs).
    assert (H1 : tempPolygon (pointerStep c (PointerDown x y))
                 = Some ([(x, y)] ++ [(x, y)])).
    { cbn [pointerStep]. unfold onPointerDownSelectionPolygon. rewrite Hc.
      reflexivity. }
    destruct (draw_nodes evs _ _ _ H1) as [q Hq]. exists q. exact Hq.
  - change (clicked (PointerMove x y :: evs)) with (clicked evs).
    assert (H1 : pointerStep c (PointerMove x y) = c).
    { cbn [pointerStep]. unfold onPointerMoveTempPolygon. rewrite Hc. reflexivity. }
    rewrite H1. apply IH, Hc.
Qed.

(** X10. A polygon drawn from nothing by presses and moves of the pointer
    and committed with Enter is painted with the points pressed as its
    vertices, in the order of the presses, whatever the moves in between,
    when at least three points were pressed: the target identity joins the
    known ids, the polygon is painted in the fill mode of the controller
    and [update] is dispatched. *)
Theorem drawn_polygon_is_committed (evs : list PointerEvent)
    (c : PolygonController) (st st1 : Editor) (newValue : Identity) :
  tempPolygon c = None →
  2 < Z.of_nat (length (clicked evs)) →
  getTargetValue (polygonEditionMode c) st = Ok (newValue, st1) →
  onKeyDown KeyEnter (draw evs c) st
  = Ok (mkPolygon (polygonEditionMode c) None,
        dispatchEvent EvUpdate
          (withMask st1
             (updateByPolygon (clicked evs) newValue
                (fillTypeOf (polygonEditionMode c))
                (withFusedIds (gmask st1)
                   ({[ fuseId newValue ]} ∪ fusedIds (gmask st1)))))).
Proof.
  intros Hc Hlen Hget.
  pose proof (draw_from_nothing evs c Hc) as Hd.
  destruct (clicked evs) as [| p0 pts] eqn:Hcl; [cbn in Hlen; lia |].
  destruct Hd as [q Hq].
  rewrite (onKeyDown_commit (draw evs c) st st1 _ newValue Hq).
  - rewrite draw_mode, removelast_snoc. reflexivity.
  - rewrite removelast_snoc. exact Hlen.
  - rewrite draw_mode. exact Hget.
Qed.

(** X11. Enter on a drawing of at most two pressed points, Escape, and
    Enter after the controller has been deactivated all leave the editor as
    it is (no pixel, no known id, no event) and drop the drawing. *)
Theorem short_polygon_paints_nothing (evs : list PointerEvent)
    (c : PolygonController) (st : Editor) :
  tempPolygon c = None →
  (Z.of_nat (length (clicked evs)) ≤ 2 →
     ∃ c', onKeyDown KeyEnter (draw evs c) st = Ok (c', st)
           ∧ tempPolygon c' = None)
  ∧ onKeyDown KeyEscape (draw evs c) st
    = Ok (mkPolygon (polygonEditionMode c) None, st)
  ∧ onKeyDown KeyEnter (Polygon.deactivate (draw evs c)) st
    = Ok (mkPolygon (polygonEditionMode c) None, st).
Proof.
  intros Hc. split; [| split].
  - intros Hlen.
    pose proof (draw_from_nothing evs c Hc) as Hd.
    destruct (clicked evs) as [| p0 pts] eqn:Hcl.
    + rewrite Hd. exists c. split; [| exact Hc].
      unfold onKeyDown. rewrite Hc. reflexivity.
    + destruct Hd as [q Hq]. unfold onKeyDown. rewrite Hq, removelast_snoc.
      destruct (Z.ltb_spec 2 (Z.of_nat (length (p0 :: pts)))); [lia |].
      eexists. split; reflexivity.
  - unfold onKeyDown. rewrite draw_mode. reflexivity.
  - unfold onKeyDown, Polygon.deactivate. cbn [tempPolygon polygonEditionMode].
    rewrite draw_mode. reflexivity.
Qed.

Lemma drawn_polygon_is_committed_witness :
  onKeyDown KeyEnter (draw squareDrawing (mkPolygon REMOVE_FROM_INSTANCE None))
            editorWithSelection
  = Ok (mkPolygon REMOVE_FROM_INSTANCE None,
        dispatchEvent EvUpdate
          (withMask editorWithSelection
             (updateByPolygon (clicked squareDrawing) (1, 0, 5)
                (fillTypeOf REMOVE_FROM_INSTANCE)
                (withFusedIds (gmask editorWithSelection)
                   ({[ fuseId (1, 0, 5) ]}
                    ∪ fusedIds (gmask editorWithSelection)))))).
Proof.
  apply (drawn_polygon_is_committed squareDrawing
           (mkPolygon REMOVE_FROM_INSTANCE None)
           editorWithSelection editorWithSelection (1, 0, 5)).
  - reflexivity.
  - simpl. lia.
  - reflexivity.
Defined.

Lemma short_polygon_paints_nothing_witness :
  (Z.of_nat (length (clicked [PointerDown 1 1; PointerMove 3 1; PointerDown 3 3]))
   ≤ 2 →
     ∃ c', onKeyDown KeyEnter
             (draw [PointerDown 1 1; PointerMove 3 1; PointerDown 3 3]
                   (mkPolygon NEW_INSTANCE None)) editor4
           = Ok (c', editor4)
           ∧ tempPolygon c' = None)
  ∧ onKeyDown KeyEscape
      (draw [PointerDown 1 1; PointerMove 3 1; PointerDown 3 3]
            (mkPolygon NEW_INSTANCE None)) editor4
    = Ok (mkPolygon NEW_INSTANCE None, editor4)
  ∧ onKeyDown KeyEnter
      (Polygon.deactivate
         (draw [PointerDown 1 1; PointerMove 3 1; PointerDown 3 3]
               (mkPolygon NEW_INSTANCE None))) editor4
    = Ok (mkPolygon NEW_INSTANCE None, editor4).
Proof.
  apply (short_polygon_paints_nothing
           [PointerDown 1 1; PointerMove 3 1; PointerDown 3 3]
           (mkPolygon NEW_INSTANCE None) editor4).
  reflexivity.
Defined.

(** ** Selecting *)

Lemma background_test (id : Identity) :
  (idLow id =? 0) && (idHigh id =? 0) && (idClass id =? 0) = true ↔ id = (0, 0, 0).
Proof.
  destruct id as [[a b] c]. unfold idLow, idHigh, idClass; cbn [fst snd].
  rewrite !andb_true_iff, !Z.eqb_eq. split.
  - intros [[-> ->] ->]. reflexivity.
  - intros [= -> -> ->]. auto.
Qed.

(** X12. A click of the select controller never touches the mask and
    never selects the background.  On a background pixel it deselects, and
    dispatches [selection] with [null] only if something was selected; on
    any other pixel it selects the identity of the pixel, dispatches
    [selection] with it and shows its outline. *)
Theorem select_click (x y : Z) (c : SelectController) (st : Editor)
    (id : Identity) :
  pixelId (gmask st) (x + y * canvasWidth (gmask st)) = Some id →
  ∃ c' st',
    onPointerDownSelectInstance x y c st = Ok (c', st')
    ∧ gmask st' = gmask st
    ∧ selectedId st' ≠ Some (0, 0, 0)
    ∧ (id = (0, 0, 0) →
         selectedId st' = None
         ∧ events st'
           = match selectedId st with
             | Some _ => EvSelection None :: events st
             | None => events st
             end)
    ∧ (id ≠ (0, 0, 0) →
         selectedId st' = Some id
         ∧ events st' = EvSelection (Some id) :: events st
         ∧ densePolygons c' = getPolygons (gmask st) id None).
Proof.
  intros Hpix. unfold onPointerDownSelectInstance. rewrite Hpix.
  destruct ((idLow id =? 0) && (idHigh id =? 0) && (idClass id =? 0)) eqn:Hbg.
  - apply background_test in Hbg. subst id.
    unfold deselect. destruct (selectedId st) eqn:Hsel.
    + eexists _, _. split; [reflexivity |]. split; [reflexivity |].
      split; [discriminate |]. split; [| congruence].
      intros _. split; reflexivity.
    + eexists _, _. split; [reflexivity |]. split; [reflexivity |].
      split; [congruence |]. split; [| congruence].
      intros _. split; [exact Hsel | reflexivity].
  - assert (Hne : id ≠ (0, 0, 0)).
    { intros Heq. apply background_test in Heq. congruence. }
    eexists _, _. split; [reflexivity |]. split; [reflexivity |].
    cbn [selectedId dispatchEvent withSelected events densePolygons gmask].
    split; [congruence |]. split; [contradiction |].
    intros _. split; [reflexivity |]. split; reflexivity.
Qed.

(** X13. After [deselect] nothing is selected and the mask is as before;
    a second [deselect], or Escape, changes nothing more and dispatches
    nothing.  With nothing selected [deselect] does nothing at all;
    otherwise it dispatches one [selection] event and clears the outline. *)
Theorem deselect_once (c : SelectController) (st : Editor) :
  selectedId (deselect c st).2 = None
  ∧ gmask (deselect c st).2 = gmask st
  ∧ deselect (deselect c st).1 (deselect c st).2 = deselect c st
  ∧ onKeySelectionDown true (deselect c st).1 (deselect c st).2 = deselect c st
  ∧ (selectedId st = None → deselect c st = (c, st))
  ∧ (is_Some (selectedId st) →
       events (deselect c st).2 = EvSelection None :: events st
       ∧ densePolygons (deselect c st).1 = []).
Proof.
  unfold onKeySelectionDown, deselect.
  destruct (selectedId st) eqn:Hsel; cbn [fst snd selectedId withSelected dispatchEvent].
  - split; [reflexivity |]. split; [reflexivity |]. split; [reflexivity |].
    split; [reflexivity |]. split; [discriminate |].
    intros _. split; reflexivity.
  - rewrite ?Hsel. split; [first [reflexivity | exact Hsel] |]. split; [reflexivity |].
    split; [reflexivity |]. split; [reflexivity |]. split; [reflexivity |].
    intros [? ?]; discriminate.
Qed.

(** ** Image changes *)

(** X14. Once [setMask] has succeeded, a change of image leaves the editor
    as it is: the loaded mask is not emptied.  Before any mask has been
    loaded, a change of image is [setEmpty]. *)
Theorem image_change_keeps_loaded_mask (buffer : string) (st st' : Editor) :
  setMask buffer st = Ok st' →
  onImageChanged st' = st'
  ∧ (newMaskLoaded st = false → onImageChanged st = setEmpty st).
Proof.
  intros Hset. unfold setMask in Hset. cbn [gmask] in Hset.
  destruct (setBase64 buffer (gmask st)) as [m | e]; cbn [bind] in Hset;
    [| discriminate].
  injection Hset as <-. split.
  - reflexivity.
  - intros Hnew. unfold onImageChanged. rewrite Hnew. reflexivity.
Qed.

(** ** Modes *)

Lemma filter_ne_self (k : string) : filter (fun k' => k' ≠ k) [k] = [].
Proof.
  rewrite filter_cons. destruct (decide (k ≠ k)); [contradiction | reflexivity].
Qed.

(** X15. Take an editor in which the controller registered for [prevMode]
    alone is active (none when the mode table registers none).
    [setMode(prevMode, newMode)] throws, a TypeError, exactly when the two
    modes differ and one of them is not registered but names a member of
    [Object.prototype].  When it does not throw, the controller registered
    for [newMode] alone is active afterwards (none when none is
    registered), and [mode] is [newMode] if the modes differ.  When it
    throws, no controller is active afterwards, and [mode] and the events
    are as before. *)
Theorem one_controller_active (prevMode : option string) (newMode : string)
    (st : Editor) :
  activeControllers (calls st) = controllerOf prevMode st →
  ((setMode prevMode newMode st).2 = Some TypeError
   ↔ prevMode ≠ Some newMode
     ∧ (modeEntry (modeKey prevMode) st = Inherited
        ∨ modeEntry newMode st = Inherited))
  ∧ ((setMode prevMode newMode st).2 = None →
       activeControllers (calls (setMode prevMode newMode st).1)
       = controllerOf (Some newMode) (setMode prevMode newMode st).1
       ∧ (prevMode ≠ Some newMode →
            mode (setMode prevMode newMode st).1 = newMode))
  ∧ ((setMode prevMode newMode st).2 ≠ None →
       (setMode prevMode newMode st).2 = Some TypeError
       ∧ activeControllers (calls (setMode prevMode newMode st).1) = []
       ∧ mode (setMode prevMode newMode st).1 = mode st
       ∧ events (setMode prevMode newMode st).1 = events st).
Proof.
  intros Hact. unfold setMode.
  destruct (decide (prevMode = Some newMode)) as [Heq | Hne].
  - rewrite (bool_decide_eq_true_2 _ Heq). cbn [fst snd].
    split; [split; [discriminate | intros [H _]; contradiction] |].
    split; [| intros H; contradiction].
    intros _. split; [| intros H; contradiction].
    rewrite Hact, Heq. reflexivity.
  - rewrite (bool_decide_eq_false_2 _ Hne).
    assert (Hsame : ∀ k st', modes st' = modes st →
                             controllerOf k st' = controllerOf k st).
    { intros k st' Hm. unfold controllerOf, modeEntry. rewrite Hm. reflexivity. }
    assert (Hactivate : ∀ k log,
              activeControllers (Activate k :: log)
              = k :: filter (fun k' => k' ≠ k) (activeControllers log))
      by reflexivity.
    unfold controllerOf in Hact.
    destruct (modeEntry (modeKey prevMode) st) eqn:Hprev.
    + (* the controller of prevMode is deactivated *)
      assert (Hoff : activeControllers (Deactivate (modeKey prevMode) :: calls st)
                     = []).
      { cbn [activeControllers]. rewrite Hact. apply filter_ne_self. }
      destruct (modeEntry newMode st) eqn:Hnw; cbn [fst snd].
      * split; [split; [discriminate | intros [_ [H | H]]; discriminate] |].
        split; [| intros H; contradiction].
        intros _. split; [| reflexivity].
        rewrite Hsame by reflexivity. unfold controllerOf.
        change (modeKey (Some newMode)) with newMode. cbn [calls]. rewrite Hnw.
        rewrite Hactivate, Hoff. reflexivity.
      * split; [split; [intros _; split; [exact Hne | right; reflexivity]
                       | reflexivity] |].
        split; [discriminate |].
        intros _. split; [reflexivity |]. split; [exact Hoff |].
        split; reflexivity.
      * split; [split; [discriminate | intros [_ [H | H]]; discriminate] |].
        split; [| intros H; contradiction].
        intros _. split; [| reflexivity].
        rewrite Hsame by reflexivity. unfold controllerOf.
        change (modeKey (Some newMode)) with newMode. cbn [calls]. rewrite Hnw. exact Hoff.
    + (* prevMode names a member of the prototype *)
      cbn [fst snd].
      split; [split; [intros _; split; [exact Hne | left; reflexivity]
                     | reflexivity] |].
      split; [discriminate |].
      intros _. split; [reflexivity |]. split; [exact Hact |].
      split; reflexivity.
    + (* prevMode has no controller *)
      destruct (modeEntry newMode st) eqn:Hnw; cbn [fst snd].
      * split; [split; [discriminate | intros [_ [H | H]]; discriminate] |].
        split; [| intros H; contradiction].
        intros _. split; [| reflexivity].
        rewrite Hsame by reflexivity. unfold controllerOf.
        change (modeKey (Some newMode)) with newMode. cbn [calls]. rewrite Hnw.
        rewrite Hactivate, Hact. reflexivity.
      * split; [split; [intros _; split; [exact Hne | right; reflexivity]
                       | reflexivity] |].
        split; [discriminate |].
        intros _. split; [reflexivity |]. split; [exact Hact |].
        split; reflexivity.
      * split; [split; [discriminate | intros [_ [H | H]]; discriminate] |].
        split; [| intros H; contradiction].
        intros _. split; [| reflexivity].
        rewrite Hsame by reflexivity. unfold controllerOf.
        change (modeKey (Some newMode)) with newMode. cbn [calls]. rewrite Hnw. exact Hact.
Qed.

Lemma select_click_witness :
  ∃ c' st',
    onPointerDownSelectInstance 1 3 (mkSelect [] true) blobsEditor = Ok (c', st')
    ∧ gmask st' = gmask blobsEditor
    ∧ selectedId st' ≠ Some (0, 0, 0)
    ∧ ((1, 0, 5) = (0, 0, 0) →
         selectedId st' = None
         ∧ events st'
           = match selectedId blobsEditor with
             | Some _ => EvSelection None :: events blobsEditor
             | None => events blobsEditor
             end)
    ∧ ((1, 0, 5) ≠ (0, 0, 0) →
         selectedId st' = Some (1, 0, 5)
         ∧ events st' = EvSelection (Some (1, 0, 5)) :: events blobsEditor
         ∧ densePolygons c' = getPolygons (gmask blobsEditor) (1, 0, 5) None).
Proof.
  apply (select_click 1 3 (mkSelect [] true) blobsEditor (1, 0, 5)).
  vm_compute. reflexivity.
Defined.

Lemma image_change_keeps_loaded_mask_witness :
  onImageChanged loadedEditor = loadedEditor
  ∧ (newMaskLoaded editor4 = false → onImageChanged editor4 = setEmpty editor4).
Proof.
  apply (image_change_keeps_loaded_mask (getMask editor4) editor4 loadedEditor).
  vm_compute. reflexivity.
Defined.

Lemma one_controller_active_witness :
  ((setMode (Some "select"%string) "create" selectEditor).2 = Some TypeError
   ↔ Some "select"%string ≠ Some "create"%string
     ∧ (modeEntry (modeKey (Some "select"%string)) selectEditor = Inherited
        ∨ modeEntry "create" selectEditor = Inherited))
  ∧ ((setMode (Some "select"%string) "create" selectEditor).2 = None →
       activeControllers
         (calls (setMode (Some "select"%string) "create" selectEditor).1)
       = controllerOf (Some "create"%string)
                      (setMode (Some "select"%string) "create" selectEditor).1
       ∧ (Some "select"%string ≠ Some "create"%string →
            mode (setMode (Some "select"%string) "create" selectEditor).1
            = "create"%string))
  ∧ ((setMode (Some "select"%string) "create" selectEditor).2 ≠ None →
       (setMode (Some "select"%string) "create" selectEditor).2 = Some TypeError
       ∧ activeControllers
           (calls (setMode (Some "select"%string) "create" selectEditor).1) = []
       ∧ mode (setMode (Some "select"%string) "create" selectEditor).1
         = mode selectEditor
       ∧ events (setMode (Some "select"%string) "create" selectEditor).1
         = events selectEditor).
Proof.
  apply (one_controller_active (Some "select"%string) "create" selectEditor).
  vm_compute. reflexivity.
Defined.

(** ** Showing and hiding the mask *)

Lemma Qeq_bool_false (a b : Q) : ¬ Qeq a b → Qeq_bool a b = false.
Proof.
  intros H. destruct (Qeq_bool a b) eqn:E; [| reflexivity].
  exfalso. apply H, Qeq_bool_iff, E.
Qed.

Lemma Qeq_bool_refl (a : Q) : Qeq_bool a a = true.
Proof. apply Qeq_bool_iff. reflexivity. Qed.

(** X16. With an opacity other than 0 and 1, [toggleMask] goes round three
    views: from the mask at the opacity over the image, to the mask alone
    (alpha 1, image hidden), to the image alone (alpha 0), and back. *)
Theorem toggleMask_cycles (v : Layers) :
  ¬ Qeq (opacity v) 0 → ¬ Qeq (opacity v) 1 →
  labelAlpha v = opacity v → backgroundVisible v = true →
  toggleMask v = mkLayers 1 false (opacity v)
  ∧ toggleMask (toggleMask v) = mkLayers 0 true (opacity v)
  ∧ toggleMask (toggleMask (toggleMask v)) = v.
Proof.
  intros H0 H1 Ha Hb.
  assert (E1 : toggleMask v = mkLayers 1 false (opacity v)).
  { unfold toggleMask. rewrite Ha, Qeq_bool_refl. reflexivity. }
  assert (E2 : toggleMask (mkLayers 1 false (opacity v))
               = mkLayers 0 true (opacity v)).
  { unfold toggleMask. cbn [labelAlpha opacity].
    rewrite (Qeq_bool_false 1 (opacity v))
      by (intros E; apply H1; symmetry; exact E).
    rewrite Qeq_bool_refl. reflexivity. }
  assert (E3 : toggleMask (mkLayers 0 true (opacity v)) = v).
  { unfold toggleMask. cbn [labelAlpha opacity].
    rewrite (Qeq_bool_false 0 (opacity v))
      by (intros E; apply H0; symmetry; exact E).
    rewrite (Qeq_bool_false 0 1) by discriminate.
    destruct v as [a b o]. cbn in *. subst. reflexivity. }
  rewrite E1, E2, E3. auto.
Qed.

(** X17. [setOpacity] sets the alpha of the mask layer but not the
    [opacity] of the element: the next [toggleMask] puts the alpha back to
    [opacity], with the image visible, whenever the value set was neither
    [opacity] nor 1. *)
Theorem setOpacity_is_lost_on_toggle (o : Q) (v : Layers) :
  ¬ Qeq o (opacity v) → ¬ Qeq o 1 →
  labelAlpha (setOpacity o v) = o
  ∧ opacity (setOpacity o v) = opacity v
  ∧ toggleMask (setOpacity o v) = mkLayers (opacity v) true (opacity v).
Proof.
  intros Ho H1. split; [reflexivity |]. split; [reflexivity |].
  unfold toggleMask, setOpacity. cbn [labelAlpha opacity].
  rewrite (Qeq_bool_false _ _ Ho), (Qeq_bool_false _ _ H1). reflexivity.
Qed.

(** ** Switching modes *)

Lemma withMode_eta (st : Editor) : withMode st (mode st) = st.
Proof. destruct st; reflexivity. Qed.

Lemma findIndexFrom_lookup (s : Z) (k : string) (keys : list string) (i : nat) :
  NoDup keys → keys !! i = Some k → findIndexFrom s k keys = s + Z.of_nat i.
Proof.
  revert s i. induction keys as [| k0 keys IH]; intros s i Hnd Hi; [discriminate |].
  apply NoDup_cons in Hnd as [Hnotin Hnd]. cbn [findIndexFrom].
  destruct i as [| i].
  - injection Hi as ->. rewrite bool_decide_eq_true_2 by reflexivity. lia.
  - cbn in Hi. rewrite bool_decide_eq_false_2.
    + rewrite (IH (s + 1) i Hnd Hi). lia.
    + intros ->. apply Hnotin. eapply list_elem_of_lookup_2, Hi.
Qed.

Lemma findIndexFrom_absent (s : Z) (k : string) (keys : list string) :
  k ∉ keys → findIndexFrom s k keys = -1.
Proof.
  revert s. induction keys as [| k0 keys IH]; intros s Hk; [reflexivity |].
  apply not_elem_of_cons in Hk as [Hne Hk]. cbn [findIndexFrom].
  rewrite bool_decide_eq_false_2 by congruence. apply IH, Hk.
Qed.

Lemma switchMode_next (st : Editor) (i : nat) :
  NoDup (modes st) → modes st !! i = Some (mode st) →
  ∃ k, modes st !! ((i + 1) mod length (modes st))%nat = Some k
       ∧ switchMode st = Some (withMode st k, "mode"%string).
Proof.
  intros Hnd Hi. unfold switchMode, findIndex.
  rewrite (findIndexFrom_lookup 0 _ _ i Hnd Hi).
  assert (Hlen : (i < length (modes st))%nat) by (eapply lookup_lt_Some, Hi).
  assert (Hidx : Z.to_nat ((0 + Z.of_nat i + 1) mod Z.of_nat (length (modes st)))
                 = ((i + 1) mod length (modes st))%nat).
  { replace (0 + Z.of_nat i + 1) with (Z.of_nat (i + 1)) by lia.
    rewrite <- Nat2Z.inj_mod. apply Nat2Z.id. }
  rewrite Hidx.
  destruct (lookup_lt_is_Some_2 (modes st) ((i + 1) mod length (modes st))%nat)
    as [k Hk]; [apply Nat.mod_upper_bound; lia |].
  exists k. rewrite Hk. split; reflexivity.
Qed.

Lemma switchModes_steps (n : nat) (st : Editor) (i : nat) :
  NoDup (modes st) → modes st !! i = Some (mode st) →
  ∃ k, modes st !! ((i + n) mod length (modes st))%nat = Some k
       ∧ switchModes n st = Some (withMode st k).
Proof.
  revert st i. induction n as [| n IH]; intros st i Hnd Hi.
  - assert (Hlen : (i < length (modes st))%nat) by (eapply lookup_lt_Some, Hi).
    exists (mode st). rewrite Nat.add_0_r, Nat.mod_small by exact Hlen.
    split; [exact Hi |]. cbn [switchModes]. rewrite withMode_eta. reflexivity.
  - destruct (switchMode_next st i Hnd Hi) as (k & Hk & Hsw).
    cbn [switchModes]. rewrite Hsw.
    destruct (IH (withMode st k) ((i + 1) mod length (modes st))%nat) as (k' & Hk' & Hrun).
    + exact Hnd.
    + exact Hk.
    + exists k'. cbn [modes withMode] in Hk'. split.
      * rewrite <- Hk'. f_equal.
        rewrite Nat.Div0.add_mod_idemp_l. f_equal. lia.
      * rewrite Hrun. destruct st; reflexivity.
Qed.

(** X18. For a mode table with distinct keys: [switchMode] moves to a key
    of the table whenever the table has one, to the first key when the
    current mode is not a key, and as many calls as the table has keys lead
    back to the editor as it was when the current mode is a key. *)
Theorem switchMode_goes_round (st : Editor) :
  NoDup (modes st) →
  (modes st ≠ [] →
     ∃ k, switchMode st = Some (withMode st k, "mode"%string) ∧ k ∈ modes st)
  ∧ (mode st ∉ modes st →
     ∀ k, head (modes st) = Some k →
          switchMode st = Some (withMode st k, "mode"%string))
  ∧ (mode st ∈ modes st → switchModes (length (modes st)) st = Some st).
Proof.
  intros Hnd. split; [| split].
  - intros Hne. unfold switchMode.
    destruct (lookup_lt_is_Some_2 (modes st)
                (Z.to_nat ((findIndex (mode st) (modes st) + 1)
                           mod Z.of_nat (length (modes st))))) as [k Hk].
    + destruct (modes st) as [| k0 l]; [contradiction |].
      cbn [length].
      pose proof (Z.mod_pos_bound (findIndex (mode st) (k0 :: l) + 1)
                    (Z.of_nat (S (length l)))) as Hb.
      lia.
    + exists k. rewrite Hk. split; [reflexivity |].
      eapply list_elem_of_lookup_2, Hk.
  - intros Hout k Hk. unfold switchMode, findIndex.
    rewrite (findIndexFrom_absent 0 _ _ Hout).
    destruct (modes st) as [| k0 l]; [discriminate |].
    injection Hk as ->.
    change (-1 + 1) with 0. rewrite Z.mod_0_l by (cbn [length]; lia).
    reflexivity.
  - intros Hin. apply list_elem_of_lookup_1 in Hin as [i Hi].
    destruct (switchModes_steps (length (modes st)) st i Hnd Hi) as (k & Hk & Hrun).
    assert (Hlen : (i < length (modes st))%nat) by (eapply lookup_lt_Some, Hi).
    replace ((i + length (modes st)) mod length (modes st))%nat with i in Hk.
    + rewrite Hrun. f_equal. assert (k = mode st) as -> by congruence.
      apply withMode_eta.
    + rewrite <- (Nat.mul_1_l (length (modes st))) at 1.
      rewrite Nat.Div0.mod_add, Nat.mod_small by exact Hlen. reflexivity.
Qed.

Lemma toggleMask_cycles_witness :
  toggleMask defaultLayers = mkLayers 1 false (opacity defaultLayers)
  ∧ toggleMask (toggleMask defaultLayers) = mkLayers 0 true (opacity defaultLayers)
  ∧ toggleMask (toggleMask (toggleMask defaultLayers)) = defaultLayers.
Proof.
  apply (toggleMask_cycles defaultLayers).
  - unfold Qeq. simpl. lia.
  - unfold Qeq. simpl. lia.
  - reflexivity.
  - reflexivity.
Defined.

Lemma setOpacity_is_lost_on_toggle_witness :
  labelAlpha (setOpacity (3 # 10) defaultLayers) = (3 # 10)%Q
  ∧ opacity (setOpacity (3 # 10) defaultLayers) = opacity defaultLayers
  ∧ toggleMask (setOpacity (3 # 10) defaultLayers)
    = mkLayers (opacity defaultLayers) true (opacity defaultLayers).
Proof.
  apply (setOpacity_is_lost_on_toggle (3 # 10) defaultLayers).
  - unfold Qeq. simpl. lia.
  - unfold Qeq. simpl. lia.
Defined.

Lemma switchMode_goes_round_witness :
  (modes blankEditor ≠ [] →
     ∃ k, switchMode blankEditor = Some (withMode blankEditor k, "mode"%string)
          ∧ k ∈ modes blankEditor)
  ∧ (mode blankEditor ∉ modes blankEditor →
     ∀ k, head (modes blankEditor) = Some k →
          switchMode blankEditor = Some (withMode blankEditor k, "mode"%string))
  ∧ (mode blankEditor ∈ modes blankEditor →
     switchModes (length (modes blankEditor)) blankEditor = Some blankEditor).
Proof.
  apply (switchMode_goes_round blankEditor).
  refine (bool_decide_unpack _ _). vm_compute. exact I.
Defined.

(** ** Creating a graph *)

(** X19. After a press that is not a right click, the graph controller is
    creating, and every edge of the graph it works on (the temporary graph,
    or the graph just added to the shapes with its new id and all its
    nodes) is an edge of the settings with both ends below the number of
    nodes of the graph.  This holds whatever [pushNode] does. *)
Theorem graph_edges_join_nodes {Coord : Type}
    (pushNode : @Graph.ShapeData Coord → Coord → Coord → @Graph.ShapeData Coord)
    (settings : Graph.IGraphSettings) (buttons : Z) (x y : Coord)
    (newId : string) (c c' : Graph.CreateController) :
  buttons ≠ 2 →
  Graph.onRootDown pushNode settings buttons x y newId c = Ok c' →
  Graph.isCreating c' = true
  ∧ match Graph.tmpShape c' with
    | Some s => Graph.shapes c' = Graph.shapes c ∧ Graph.edgesInRange settings s
    | None =>
        ∃ s, Graph.shapes c' = Graph.shapes c ++ [s]
             ∧ Graph.edgesInRange settings s
             ∧ Graph.id s = newId
             ∧ Z.of_nat (length (Graph.vertices s))
               = Z.of_nat (length (Graph.vertexNames settings)) * 2
    end.
Proof.
  intros Hb. unfold Graph.onRootDown.
  destruct (Z.eqb_spec buttons 2) as [| _]; [contradiction |].
  set (shape' := match Graph.tmpShape c with Some _ => _ | None => _ end).
  assert (Hrange : Graph.edgesInRange settings shape').
  { subst shape'. destruct (Graph.tmpShape c) as [shape |].
    - intros e He. cbn [Graph.edges Graph.vertices] in *.
      apply list_elem_of_In, filter_In in He as [He Ht].
      apply andb_true_iff in Ht as [H1 H2].
      apply Z.ltb_lt in H1, H2. apply list_elem_of_In in He. auto.
    - intros e He. cbn [Graph.edges] in He. inversion He. }
  destruct (Z.eqb_spec (Z.of_nat (length (Graph.vertices shape')))
                       (Z.of_nat (length (Graph.vertexNames settings)) * 2))
    as [Hfull | Hpart].
  - unfold Graph.createGraph. cbn [Graph.tmpShape Graph.shapes Graph.isCreating].
    intros [= <-]. cbn [Graph.tmpShape Graph.shapes Graph.isCreating].
    split; [reflexivity |]. eexists. split; [reflexivity |].
    split; [exact Hrange |]. split; [reflexivity | exact Hfull].
  - intros [= <-]. cbn [Graph.tmpShape Graph.shapes Graph.isCreating].
    split; [reflexivity |]. split; [reflexivity | exact Hrange].
Qed.

Section GraphPresses.
Context {Coord : Type}.
Variable pushNode :
  @Graph.ShapeData Coord → Coord → Coord → @Graph.ShapeData Coord.
Variable settings : Graph.IGraphSettings.
Hypothesis pushNode_vertices :
  ∀ s x y, Graph.vertices (pushNode s x y) = Graph.vertices s ++ [x; y].

(** Presses on a graph that is being created: the positions are appended
    until the graph has all its nodes. *)
Lemma presses_on_graph (ps : list (Graph.Press (Coord := Coord)))
    (c : Graph.CreateController) (s0 : Graph.ShapeData) :
  Graph.tmpShape c = Some s0 →
  Forall (fun p => p.1.1.1 ≠ 2) ps →
  Z.of_nat (length (Graph.vertices s0)) + 2 * Z.of_nat (length ps) ≤ 2 * Z.of_nat (length (Graph.vertexNames settings)) →
  ∃ c', Graph.presses pushNode settings ps c = Ok c'
        ∧ (Z.of_nat (length (Graph.vertices s0)) + 2 * Z.of_nat (length ps) < 2 * Z.of_nat (length (Graph.vertexNames settings))
           ∨ ps = [] →
           Graph.shapes c' = Graph.shapes c
           ∧ ∃ s, Graph.tmpShape c' = Some s
                  ∧ Graph.vertices s = Graph.vertices s0 ++ Graph.pressed ps)
        ∧ (Z.of_nat (length (Graph.vertices s0)) + 2 * Z.of_nat (length ps) = 2 * Z.of_nat (length (Graph.vertexNames settings))
           → ps ≠ [] →
           Graph.tmpShape c' = None
           ∧ ∃ s, Graph.shapes c' = Graph.shapes c ++ [s]
                  ∧ Graph.vertices s = Graph.vertices s0 ++ Graph.pressed ps
                  ∧ Some (Graph.id s) = snd <$> last ps).
Proof.
  revert c s0. induction ps as [| [[[b x] y] newId] ps IH]; intros c s0 Hc Hnr Hlen.
  - exists c. cbn [Graph.presses]. split; [reflexivity |]. split.
    + intros _. split; [reflexivity |]. exists s0. split; [exact Hc |].
      cbn [Graph.pressed flat_map]. rewrite app_nil_r. reflexivity.
    + intros _ Hne. contradiction.
  - apply Forall_cons in Hnr as [Hb Hnr]. cbn [fst snd] in Hb.
    cbn [Graph.presses]. unfold Graph.onRootDown.
    destruct (Z.eqb_spec b 2) as [| _]; [contradiction |].
    rewrite Hc. cbn [Graph.vertices Graph.id Graph.edges Graph.visibles].
    rewrite pushNode_vertices.
    set (shape' := Graph.mkShape _ _ _ _).
    assert (Hv : Graph.vertices shape' = Graph.vertices s0 ++ [x; y]) by reflexivity.
    assert (Hl : Z.of_nat (length (Graph.vertices s0 ++ [x; y]))
                 = Z.of_nat (length (Graph.vertices s0)) + 2)
      by (rewrite length_app; cbn [length]; lia).
    cbn [length] in Hlen.
    destruct (Z.eqb_spec (Z.of_nat (length (Graph.vertices s0 ++ [x; y])))
                         (Z.of_nat (length (Graph.vertexNames settings)) * 2))
      as [Hfull | Hpart].
    + (* the graph is complete: no press is left *)
      assert (ps = []) as -> by (destruct ps; [reflexivity | cbn [length] in Hlen; lia]).
      unfold Graph.createGraph. cbn [Graph.tmpShape Graph.shapes Graph.isCreating bind Graph.presses].
      eexists. split; [reflexivity |].
      cbn [Graph.tmpShape Graph.shapes length]. split.
      * intros [H | H]; [lia | discriminate].
      * intros _ _. split; [reflexivity |]. eexists. split; [reflexivity |].
        cbn [Graph.vertices Graph.id Graph.pressed flat_map last fmap option_fmap option_map fst snd].
        rewrite app_nil_r. split; reflexivity.
    + cbn [bind].
      edestruct (IH (Graph.mkCreate (Some shape') (Graph.shapes c) true) shape')
        as (c' & Hrun & Hless & Hall).
      * reflexivity.
      * exact Hnr.
      * rewrite Hv, Hl. lia.
      * exists c'. split; [exact Hrun |].
        rewrite Hv, Hl in Hless, Hall. cbn [Graph.shapes] in Hless, Hall.
        assert (Hpr : ∀ l : list Coord,
                   (l ++ [x; y]) ++ Graph.pressed ps
                   = l ++ Graph.pressed ((b, x, y, newId) :: ps)).
        { intros l. rewrite <- app_assoc. reflexivity. }
        split.
        -- intros [Hlt | Hnil]; [| discriminate].
           destruct Hless as [Hs (s & Hs1 & Hs2)].
           { destruct ps; [right; reflexivity | left; cbn [length] in *; lia]. }
           split; [exact Hs |]. exists s. split; [exact Hs1 |].
           rewrite Hs2. apply Hpr.
        -- intros Heq _.
           destruct ps as [| p ps'].
           { exfalso. cbn [length] in Heq. lia. }
           destruct Hall as [Ht (s & Hs1 & Hs2 & Hs3)];
             [cbn [length] in *; lia | discriminate |].
           split; [exact Ht |]. exists s. split; [exact Hs1 |].
           split; [rewrite Hs2; apply Hpr |].
           rewrite Hs3. reflexivity.
Qed.
End GraphPresses.

(** X20. If [pushNode] appends the two coordinates of a node: from no
    temporary graph, presses that are not right clicks, fewer than the
    settings have vertex names, leave the shapes as they are and a temporary
    graph whose vertices are the positions pressed, in order; as many
    presses as vertex names add one graph to the shapes, with these
    vertices and the id drawn at the last press, and leave no temporary
    graph. *)
Theorem graph_created_after_all_nodes {Coord : Type}
    (pushNode : @Graph.ShapeData Coord → Coord → Coord → @Graph.ShapeData Coord)
    (settings : Graph.IGraphSettings) (ps : list (Graph.Press (Coord := Coord)))
    (c : Graph.CreateController) :
  (∀ s x y, Graph.vertices (pushNode s x y) = Graph.vertices s ++ [x; y]) →
  Graph.tmpShape c = None →
  Forall (fun p => p.1.1.1 ≠ 2) ps →
  ps ≠ [] →
  Z.of_nat (length ps) ≤ Z.of_nat (length (Graph.vertexNames settings)) →
  ∃ c',
    Graph.presses pushNode settings ps c = Ok c'
    ∧ (Z.of_nat (length ps) < Z.of_nat (length (Graph.vertexNames settings)) →
         Graph.shapes c' = Graph.shapes c
         ∧ ∃ s, Graph.tmpShape c' = Some s
                ∧ Graph.vertices s = Graph.pressed ps)
    ∧ (Z.of_nat (length ps) = Z.of_nat (length (Graph.vertexNames settings)) →
         Graph.tmpShape c' = None
         ∧ ∃ s, Graph.shapes c' = Graph.shapes c ++ [s]
                ∧ Graph.vertices s = Graph.pressed ps
                ∧ Some (Graph.id s) = snd <$> last ps).
Proof.
  intros Hpush Hc Hnr Hne Hlen.
  destruct ps as [| [[[b x] y] newId] ps]; [contradiction |]. clear Hne.
  apply Forall_cons in Hnr as [Hb Hnr]. cbn [fst snd] in Hb.
  cbn [Graph.presses length] in *. unfold Graph.onRootDown.
  destruct (Z.eqb_spec b 2) as [| _]; [contradiction |].
  rewrite Hc. cbn [Graph.vertices length].
  set (shape' := Graph.mkShape "tmp" [x; y] [] [negb (b =? 4)]).
  destruct (Z.eqb_spec (Z.of_nat 2)
                       (Z.of_nat (length (Graph.vertexNames settings)) * 2))
    as [Hfull | Hpart].
  - assert (ps = []) as -> by (destruct ps; [reflexivity | cbn [length] in Hlen; lia]).
    unfold Graph.createGraph.
    cbn [Graph.tmpShape Graph.shapes Graph.isCreating bind Graph.presses].
    eexists. split; [reflexivity |].
    cbn [Graph.tmpShape Graph.shapes length]. split; [lia |].
    intros _. split; [reflexivity |]. eexists. split; [reflexivity |].
    split; reflexivity.
  - cbn [bind].
    destruct (presses_on_graph pushNode settings Hpush ps
                (Graph.mkCreate (Some shape') (Graph.shapes c) true) shape')
      as (c' & Hrun & Hless & Hall).
    + reflexivity.
    + exact Hnr.
    + cbn [Graph.vertices shape' length]. lia.
    + exists c'. split; [exact Hrun |].
      cbn [Graph.vertices shape' length Graph.shapes] in Hless, Hall.
      split.
      * intros Hlt. apply Hless. left. lia.
      * intros Heq.
        destruct ps as [| p ps']; [cbn [length] in *; lia |].
        destruct Hall as [Ht (s & Hs1 & Hs2 & Hs3)];
          [cbn [length] in *; lia | discriminate |].
        split; [exact Ht |]. exists s. split; [exact Hs1 |].
        split; [exact Hs2 |]. rewrite Hs3. reflexivity.
Qed.

Lemma graph_edges_join_nodes_witness :
  Graph.isCreating
    (Graph.mkCreate
       (Some (Graph.mkShape "tmp" [10; 10; 20; 10] [(0, 1)] [true; true]))
       [] true) = true
  ∧ match Graph.tmpShape
            (Graph.mkCreate
               (Some (Graph.mkShape "tmp" [10; 10; 20; 10] [(0, 1)] [true; true]))
               [] true) with
    | Some s =>
        Graph.shapes
          (Graph.mkCreate
             (Some (Graph.mkShape "tmp" [10; 10; 20; 10] [(0, 1)] [true; true]))
             [] true)
        = Graph.shapes
            (Graph.mkCreate (Some (Graph.mkShape "tmp" [10; 10] [] [true]))
                            [] true)
        ∧ Graph.edgesInRange triangleSettings s
    | None =>
        ∃ s, Graph.shapes
               (Graph.mkCreate
                  (Some (Graph.mkShape "tmp" [10; 10; 20; 10] [(0, 1)]
                                       [true; true]))
                  [] true)
             = Graph.shapes
                 (Graph.mkCreate (Some (Graph.mkShape "tmp" [10; 10] [] [true]))
                                 [] true) ++ [s]
             ∧ Graph.edgesInRange triangleSettings s
             ∧ Graph.id s = "g2"%string
             ∧ Z.of_nat (length (Graph.vertices s))
               = Z.of_nat (length (Graph.vertexNames triangleSettings)) * 2
    end.
Proof.
  apply (graph_edges_join_nodes appendNode triangleSettings 1 20 10 "g2"
           (Graph.mkCreate (Some (Graph.mkShape "tmp" [10; 10] [] [true])) [] true)
           (Graph.mkCreate
              (Some (Graph.mkShape "tmp" [10; 10; 20; 10] [(0, 1)] [true; true]))
              [] true)).
  - lia.
  - reflexivity.
Defined.

Lemma graph_created_after_all_nodes_witness :
  ∃ c',
    Graph.presses appendNode triangleSettings trianglePresses noGraph = Ok c'
    ∧ (Z.of_nat (length trianglePresses)
       < Z.of_nat (length (Graph.vertexNames triangleSettings)) →
         Graph.shapes c' = Graph.shapes noGraph
         ∧ ∃ s, Graph.tmpShape c' = Some s
                ∧ Graph.vertices s = Graph.pressed trianglePresses)
    ∧ (Z.of_nat (length trianglePresses)
       = Z.of_nat (length (Graph.vertexNames triangleSettings)) →
         Graph.tmpShape c' = None
         ∧ ∃ s, Graph.shapes c' = Graph.shapes noGraph ++ [s]
                ∧ Graph.vertices s = Graph.pressed trianglePresses
                ∧ Some (Graph.id s) = snd <$> last trianglePresses).
Proof.
  apply (graph_created_after_all_nodes appendNode triangleSettings
           trianglePresses noGraph).
  - reflexivity.
  - reflexivity.
  - refine (bool_decide_unpack _ _). vm_compute. exact I.
  - discriminate.
  - simpl. lia.
Defined.

(** ** The filter at its bounds *)

Lemma getBlobs_nbPixels (m : GraphicMask) (id : Identity) (e : option Extrema) :
  Forall (fun lb => 0 ≤ nbPixels lb.2) (getBlobs m id e).
Proof.
  unfold getBlobs. destruct (arraysMatch id background); [constructor |].
  apply Forall_forall. intros [l b] Hin.
  apply elem_of_lookup_imap in Hin as (i & c & Heq & _).
  injection Heq as _ ->. cbn [snd blobOfComponent nbPixels]. lia.
Qed.

Lemma filterId_no_threshold (id : Identity) (n : Z) (m : GraphicMask) :
  n ≤ 0 → filterId id n m = m.
Proof.
  intros Hn. unfold filterId.
  pose proof (getBlobs_nbPixels m id None) as Hall.
  induction Hall as [| [l b] blobs Hb _ IH]; [reflexivity |].
  cbn [fold_left]. cbn [snd] in Hb.
  destruct (Z.ltb_spec (nbPixels b) n); [lia |]. exact IH.
Qed.

(** X21. [filterLittle] with a threshold of 0 or less, or on a mask with no
    known id, changes no pixel and nothing else of the editor; it still
    dispatches [update]. *)
Theorem filterLittle_at_bounds (numPixels : Z) (st : Editor) :
  numPixels ≤ 0 ∨ fusedIds (gmask st) = ∅ →
  filterLittle numPixels st = dispatchEvent EvUpdate st.
Proof.
  intros Hb. unfold filterLittle.
  assert (Hfold : fold_left (fun m id => filterId (unfuseId id) numPixels m)
                    (elements (fusedIds (gmask st))) (gmask st) = gmask st).
  { destruct Hb as [Hn | Hempty].
    - induction (elements (fusedIds (gmask st))) as [| fId l IH]; [reflexivity |].
      cbn [fold_left]. rewrite filterId_no_threshold by exact Hn. exact IH.
    - rewrite Hempty, elements_empty. reflexivity. }
  rewrite Hfold, editor_eta. reflexivity.
Qed.

Lemma filterLittle_at_bounds_witness :
  filterLittle 0 blobsEditor = dispatchEvent EvUpdate blobsEditor.
Proof. apply (filterLittle_at_bounds 0 blobsEditor). left. lia. Defined.

(** ** Replacing a controller *)

Lemma controllerOf_ext (k : option string) (st1 st2 : Editor) :
  (modeKey k ∈ modes st1 ↔ modeKey k ∈ modes st2) →
  controllerOf k st1 = controllerOf k st2.
Proof.
  intros Hiff. unfold controllerOf, modeEntry.
  destruct (decide (modeKey k ∈ modes st1)) as [H | H].
  - rewrite (bool_decide_eq_true_2 _ H).
    rewrite (bool_decide_eq_true_2 (modeKey k ∈ modes st2)) by (apply Hiff, H).
    reflexivity.
  - rewrite (bool_decide_eq_false_2 _ H).
    rewrite (bool_decide_eq_false_2 (modeKey k ∈ modes st2))
      by (rewrite <- Hiff; exact H).
    reflexivity.
Qed.

Lemma elem_of_insertIndex (n : Z) (k x : string) (keys : list string) :
  x ∈ insertIndex n k keys ↔ x = k ∨ x ∈ keys.
Proof.
  induction keys as [| k0 keys IH]; cbn [insertIndex].
  - rewrite list_elem_of_singleton. set_solver.
  - destruct (arrayIndex k0) as [n0 |].
    + destruct (n0 <? n).
      * rewrite !elem_of_cons, IH. tauto.
      * rewrite !elem_of_cons. tauto.
    + rewrite !elem_of_cons. tauto.
Qed.

Lemma elem_of_addKey (k x : string) (keys : list string) :
  x ∈ addKey k keys ↔ x = k ∨ x ∈ keys.
Proof.
  unfold addKey. destruct (decide (k ∈ keys)) as [H | H].
  - rewrite (bool_decide_eq_true_2 _ H). split; [tauto |].
    intros [-> | Hx]; assumption.
  - rewrite (bool_decide_eq_false_2 _ H).
    destruct (arrayIndex k) as [n |].
    + apply elem_of_insertIndex.
    + rewrite elem_of_app, list_elem_of_singleton. tauto.
Qed.

(** X22. Take an editor in which the controller registered for the
    current mode alone is active (none when none is registered), and a
    call of [setController] on a key (any key but ["__proto__"] where the
    assignment would replace the prototype of the table).  The mode is
    kept.  The call throws, a TypeError, exactly when the key is the
    current mode and names a member of [Object.prototype] that the table
    does not register; the editor is then as before.  Otherwise the key is
    registered afterwards and no other key is added; the controller
    registered for the current mode alone is still active, a replaced one
    having been deactivated and its replacement activated; except when the
    key is the current mode and nothing was found under it: then the new
    controller is registered for the current mode and not activated. *)
Theorem setController_keeps_active (k : string) (st st' : Editor)
    (err : option Error) :
  activeControllers (calls st) = controllerOf (Some (mode st)) st →
  setController k st = Some (st', err) →
  mode st' = mode st
  ∧ (err = Some TypeError ↔ k = mode st ∧ modeEntry k st = Inherited)
  ∧ (err ≠ None → st' = st)
  ∧ (err = None →
       (∀ k', k' ∈ modes st' ↔ k' = k ∨ k' ∈ modes st)
       ∧ (k = mode st → modeEntry k st = Registered →
            calls st' = Activate k :: Deactivate k :: calls st)
       ∧ (k ≠ mode st ∨ modeEntry k st = Registered →
            activeControllers (calls st') = controllerOf (Some (mode st')) st')
       ∧ (k = mode st → modeEntry k st = Undefined →
            activeControllers (calls st') = []
            ∧ controllerOf (Some (mode st')) st' = [k])).
Proof.
  intros Hact Hrun. unfold setController in Hrun.
  assert (Hreg : ∀ st0 k0, modeEntry k0 st0 = Registered ↔ k0 ∈ modes st0).
  { intros st0 k0. unfold modeEntry.
    destruct (decide (k0 ∈ modes st0)) as [H | H].
    - rewrite (bool_decide_eq_true_2 _ H). tauto.
    - rewrite (bool_decide_eq_false_2 _ H).
      destruct (bool_decide (k0 ∈ objectPrototypeKeys)); split;
        first [discriminate | contradiction]. }
  assert (Hassigned :
    ∀ st1 : Editor,
      mode st1 = mode st → modes st1 = addKey k (modes st) →
      calls st1 = calls st →
      (k = mode st → modeEntry k st = Undefined) →
      (∀ k', k' ∈ modes st1 ↔ k' = k ∨ k' ∈ modes st)
      ∧ (k = mode st → modeEntry k st = Registered →
           calls st1 = Activate k :: Deactivate k :: calls st)
      ∧ (k ≠ mode st ∨ modeEntry k st = Registered →
           activeControllers (calls st1) = controllerOf (Some (mode st1)) st1)
      ∧ (k = mode st → modeEntry k st = Undefined →
           activeControllers (calls st1) = []
           ∧ controllerOf (Some (mode st1)) st1 = [k])).
  { intros st1 Hmode Hmodes Hcalls Hundef.
    assert (Hin : ∀ k', k' ∈ modes st1 ↔ k' = k ∨ k' ∈ modes st)
      by (intros k'; rewrite Hmodes; apply elem_of_addKey).
    split; [exact Hin |].
    split; [intros H1 H2; rewrite (Hundef H1) in H2; discriminate |].
    split.
    - intros [Hne | Hr]; [| destruct (decide (k = mode st)) as [He | Hne]].
      + rewrite Hcalls, Hact, Hmode. apply controllerOf_ext.
        change (modeKey (Some (mode st))) with (mode st).
        rewrite Hin. split; [tauto | intros [H | H]; [congruence | exact H]].
      + rewrite (Hundef He) in Hr. discriminate.
      + rewrite Hcalls, Hact, Hmode. apply controllerOf_ext.
        change (modeKey (Some (mode st))) with (mode st).
        rewrite Hin. split; [tauto | intros [H | H]; [congruence | exact H]].
    - intros He Hu. rewrite Hcalls, Hact, Hmode. unfold controllerOf.
      change (modeKey (Some (mode st))) with (mode st).
      rewrite <- He, Hu. split; [reflexivity |].
      assert (modeEntry k st1 = Registered) as -> by (apply Hreg, Hin; tauto).
      reflexivity. }
  destruct (decide (k = mode st)) as [Heq | Hne].
  - rewrite (bool_decide_eq_true_2 _ Heq) in Hrun.
    destruct (modeEntry k st) eqn:Hentry.
    + injection Hrun as <- <-. split; [reflexivity |].
      split; [split; [discriminate | intros [_ H]; discriminate] |].
      split; [intros H; contradiction |]. intros _.
      split; [intros k'; cbn [modes withCalls]; split;
              [tauto | intros [-> | H]; [apply Hreg, Hentry | exact H]] |].
      split; [intros _ _; reflexivity |].
      split; [| intros _ H; discriminate].
      intros _. cbn [calls withCalls mode activeControllers].
      rewrite Hact. unfold controllerOf.
      change (modeKey (Some (mode st))) with (mode st).
      change (modeEntry (mode st) (withCalls st _)) with (modeEntry (mode st) st).
      rewrite <- Heq, Hentry, !filter_ne_self. reflexivity.
    + injection Hrun as <- <-. split; [reflexivity |].
      split; [split; [intros _; split; [exact Heq | reflexivity] | reflexivity] |].
      split; [intros _; reflexivity | discriminate].
    + destruct (bool_decide (k = "__proto__"%string)
                && negb (bool_decide (k ∈ modes st))); [discriminate |].
      injection Hrun as <- <-. split; [reflexivity |].
      split; [split; [discriminate | intros [_ H]; discriminate] |].
      split; [intros H; contradiction |]. intros _.
      apply Hassigned; reflexivity.
  - rewrite (bool_decide_eq_false_2 _ Hne) in Hrun.
    destruct (bool_decide (k = "__proto__"%string)
              && negb (bool_decide (k ∈ modes st))); [discriminate |].
    injection Hrun as <- <-. split; [reflexivity |].
    split; [split; [discriminate | intros [H _]; contradiction] |].
    split; [intros H; contradiction |]. intros _.
    apply Hassigned; first [reflexivity | intros H; contradiction].
Qed.

Lemma setController_keeps_active_witness :
  mode (withCalls selectEditor
          (Activate "select" :: Deactivate "select" :: calls selectEditor))
  = mode selectEditor
  ∧ (@None Error = Some TypeError
     ↔ "select"%string = mode selectEditor
       ∧ modeEntry "select" selectEditor = Inherited)
  ∧ (@None Error ≠ None →
       withCalls selectEditor
         (Activate "select" :: Deactivate "select" :: calls selectEditor)
       = selectEditor)
  ∧ (@None Error = None →
       (∀ k', k' ∈ modes (withCalls selectEditor
                            (Activate "select" :: Deactivate "select"
                             :: calls selectEditor))
              ↔ k' = "select"%string ∨ k' ∈ modes selectEditor)
       ∧ ("select"%string = mode selectEditor →
          modeEntry "select" selectEditor = Registered →
            calls (withCalls selectEditor
                     (Activate "select" :: Deactivate "select"
                      :: calls selectEditor))
            = Activate "select" :: Deactivate "select" :: calls selectEditor)
       ∧ ("select"%string ≠ mode selectEditor
          ∨ modeEntry "select" selectEditor = Registered →
            activeControllers
              (calls (withCalls selectEditor
                        (Activate "select" :: Deactivate "select"
                         :: calls selectEditor)))
            = controllerOf
                (Some (mode (withCalls selectEditor
                               (Activate "select" :: Deactivate "select"
                                :: calls selectEditor))))
                (withCalls selectEditor
                   (Activate "select" :: Deactivate "select"
                    :: calls selectEditor)))
       ∧ ("select"%string = mode selectEditor →
          modeEntry "select" selectEditor = Undefined →
            activeControllers
              (calls (withCalls selectEditor
                        (Activate "select" :: Deactivate "select"
                         :: calls selectEditor))) = []
            ∧ controllerOf
                (Some (mode (withCalls selectEditor
                               (Activate "select" :: Deactivate "select"
                                :: calls selectEditor))))
                (withCalls selectEditor
                   (Activate "select" :: Deactivate "select"
                    :: calls selectEditor))
              = ["select"%string])).
Proof.
  apply (setController_keeps_active "select" selectEditor
           (withCalls selectEditor
              (Activate "select" :: Deactivate "select" :: calls selectEditor))
           None).
  - vm_compute. reflexivity.
  - vm_compute. reflexivity.
Defined.

(** ** Editing with nothing selected *)

(** X23. A polygon of at least three pressed points committed by an
    add-to or remove-from controller while nothing is selected is painted
    with the background identity [(0, 0, 0)], in the fill mode of the
    controller; the fused id of the background joins the known ids, and
    still nothing is selected. *)
Theorem edit_without_selection (evs : list PointerEvent)
    (c : PolygonController) (st : Editor) :
  tempPolygon c = None →
  polygonEditionMode c ≠ NEW_INSTANCE →
  selectedId st = None →
  2 < Z.of_nat (length (clicked evs)) →
  ∃ st',
    onKeyDown KeyEnter (draw evs c) st
    = Ok (mkPolygon (polygonEditionMode c) None, st')
    ∧ st' = dispatchEvent EvUpdate
              (withMask st
                 (updateByPolygon (clicked evs) (0, 0, 0)
                    (fillTypeOf (polygonEditionMode c))
                    (withFusedIds (gmask st)
                       ({[ fuseId (0, 0, 0) ]} ∪ fusedIds (gmask st)))))
    ∧ fuseId (0, 0, 0) ∈ fusedIds (gmask st')
    ∧ selectedId st' = None.
Proof.
  intros Hc Hmode Hsel Hlen.
  assert (Hget : getTargetValue (polygonEditionMode c) st = Ok ((0, 0, 0), st)).
  { unfold getTargetValue. rewrite Hsel.
    destruct (polygonEditionMode c); [reflexivity | reflexivity | contradiction]. }
  pose proof (draw_from_nothing evs c Hc) as Hd.
  destruct (clicked evs) as [| p0 pts] eqn:Hcl; [cbn in Hlen; lia |].
  destruct Hd as [q Hq].
  eexists. split.
  - rewrite (onKeyDown_commit (draw evs c) st st _ (0, 0, 0) Hq).
    + rewrite draw_mode, removelast_snoc. reflexivity.
    + rewrite removelast_snoc. exact Hlen.
    + rewrite draw_mode. exact Hget.
  - split; [reflexivity |]. split; [| exact Hsel].
    cbn [gmask dispatchEvent withMask].
    apply updateByPolygon_fusedIds_mono.
    cbn [fusedIds withFusedIds]. set_solver.
Qed.

Lemma edit_without_selection_witness :
  ∃ st',
    onKeyDown KeyEnter (draw squareDrawing (mkPolygon ADD_TO_INSTANCE None))
              editor4'
    = Ok (mkPolygon ADD_TO_INSTANCE None, st')
    ∧ st' = dispatchEvent EvUpdate
              (withMask editor4'
                 (updateByPolygon (clicked squareDrawing) (0, 0, 0)
                    (fillTypeOf ADD_TO_INSTANCE)
                    (withFusedIds (gmask editor4')
                       ({[ fuseId (0, 0, 0) ]} ∪ fusedIds (gmask editor4')))))
    ∧ fuseId (0, 0, 0) ∈ fusedIds (gmask st')
    ∧ selectedId st' = None.
Proof.
  apply (edit_without_selection squareDrawing (mkPolygon ADD_TO_INSTANCE None)
           editor4').
  - reflexivity.
  - discriminate.
  - reflexivity.
  - simpl. lia.
Defined.

(** ** The reach of the brush *)

Lemma roiCell_within (r cx cy x y : Z) :
  roiCell r (x - (cx - r)) (y - (cy - r)) = true ↔ withinBrush r cx cy x y.
Proof.
  unfold roiCell, withinBrush. rewrite Z.leb_le.
  replace (2 * r - 2 * (x - (cx - r)) - 1) with (- (2 * (x - cx) + 1)) by ring.
  replace (2 * r - 2 * (y - (cy - r)) - 1) with (- (2 * (y - cy) + 1)) by ring.
  rewrite !Z.mul_opp_opp. reflexivity.
Qed.

(** The stamp of a brush of radius [r] at [(cx, cy)] covers the pixels of
    the box around the pointer whose centre is within [r] of it. *)
Lemma stampCovers_brush (r cx cy x y : Z) :
  0 ≤ r →
  stampCovers (roiMatrixOf r) (roiBox r cx cy) x y = true
  ↔ cx - r ≤ x < cx + r ∧ cy - r ≤ y < cy + r ∧ withinBrush r cx cy x y.
Proof.
  intros Hr. unfold stampCovers, roiBox.
  rewrite !andb_true_iff, !Z.leb_le, !Z.ltb_lt.
  split.
  - intros [[[[H1 H2] H3] H4] H5].
    split; [lia |]. split; [lia |].
    apply roiCell_within.
    replace (cx + r - (cx - r)) with (2 * r) in H5 by ring.
    rewrite roiMatrixOf_lookup in H5 by lia. exact H5.
  - intros (Hx & Hy & Hw).
    split; [lia |].
    replace (cx + r - (cx - r)) with (2 * r) by ring.
    rewrite roiMatrixOf_lookup by lia. apply roiCell_within, Hw.
Qed.

(** X24. With the matrix of [initRoi] and the stamp laid out row by row in
    the box of the press, a press of the brush at [(mouseX, mouseY)]
    changes no pixel whose centre is farther than the radius from the
    pointer, and leaves the size of the raster, the class table and the
    locks as they are. *)
Theorem brush_press_reach (button : Z) (ctrlKey shiftKey : bool)
    (mouseX mouseY : Z) (c c' : BrushController) (st st' : Editor) :
  0 ≤ roiRadius c → roiMatrix c = roiMatrixOf (roiRadius c) →
  onPointerDownBrush button ctrlKey shiftKey mouseX mouseY c st = Ok (c', st') →
  (∀ i p, pixels (gmask st) !! i = Some p →
          ¬ withinBrush (roiRadius c) mouseX mouseY
              (colOf (gmask st) i) (rowOf (gmask st) i) →
          pixels (gmask st') !! i = Some p)
  ∧ canvasWidth (gmask st') = canvasWidth (gmask st)
  ∧ canvasHeight (gmask st') = canvasHeight (gmask st)
  ∧ clsMap (gmask st') = clsMap (gmask st)
  ∧ lockedInstances (gmask st') = lockedInstances (gmask st).
Proof.
  intros Hr Hm Hrun. unfold onPointerDownBrush in Hrun.
  destruct (button =? 1).
  - injection Hrun as _ <-. repeat split; try reflexivity. intros; assumption.
  - set (e := if _ : bool then NEW_INSTANCE else _) in Hrun.
    destruct (getTargetValue e st) as [[v st1] | err] eqn:Hget;
      cbn [bind] in Hrun; [| discriminate].
    injection Hrun as _ <-.
    pose proof (getTargetValue_mask e st st1 v Hget) as Hmask.
    cbn [gmask withMask]. rewrite Hmask. unfold updateByMaskInRoi.
    split; [| repeat split; reflexivity].
    intros i p Hp Hfar. rewrite paintWith_lookup, Hp. cbn [fmap option_fmap option_map].
    f_equal. unfold paintedPixel.
    destruct (stampCovers (roiMatrix c) (roiBox (roiRadius c) mouseX mouseY)
                (colOf (gmask st) i) (rowOf (gmask st) i)) eqn:Hcov;
      [| reflexivity].
    exfalso. apply Hfar. rewrite Hm in Hcov.
    apply stampCovers_brush in Hcov; [tauto | exact Hr].
Qed.

Lemma brush_press_reach_witness :
  (∀ i p, pixels (gmask editor4) !! i = Some p →
          ¬ withinBrush (roiRadius brushStart) 2 2
              (colOf (gmask editor4) i) (rowOf (gmask editor4) i) →
          pixels (gmask brushPressed) !! i = Some p)
  ∧ canvasWidth (gmask brushPressed) = canvasWidth (gmask editor4)
  ∧ canvasHeight (gmask brushPressed) = canvasHeight (gmask editor4)
  ∧ clsMap (gmask brushPressed) = clsMap (gmask editor4)
  ∧ lockedInstances (gmask brushPressed) = lockedInstances (gmask editor4).
Proof.
  apply (brush_press_reach 0 false false 2 2 brushStart
           (mkBrush NEW_INSTANCE true 1 (roiMatrixOf 1) 2 2) editor4 brushPressed).
  - simpl. lia.
  - reflexivity.
  - vm_compute. reflexivity.
Defined.
